(** * The one-sided active-message queue of DART-MPI ("sopnop" variant)

    A shallow embedding of
    [dart-impl/mpi/src/dart_amsgq/dart_active_messages_sopnop.c].

    Every C function that talks to MPI, to a mutex or to a message handler
    becomes an interaction tree over the events [amqE]: one event per call
    that leaves the function.  The environment (the remote windows, the other
    senders, the MPI library) answers the events.  Properties are stated on
    the traces of event/answer pairs that a program can produce against an
    arbitrary environment, and on runs against a concrete model of the
    windows, sequential or interleaved by a schedule. *)

From Stdlib Require Import ZArith List Lia Bool Sorted.
From ITree Require Import ITree.
Import ListNotations.
Import ITreeNotations.
Local Open Scope Z_scope.
Local Open Scope itree_scope.

(** ** C integers

    [int64_t], [uint64_t]/[size_t], [int] and [uint32_t] are integers of [Z]
    with the wrap-around of the conversion written out. *)

Definition wrap64 (z : Z) : Z := (z + 2 ^ 63) mod 2 ^ 64 - 2 ^ 63.
Definition to_u64 (z : Z) : Z := z mod 2 ^ 64.
Definition wrap32 (z : Z) : Z := (z + 2 ^ 31) mod 2 ^ 32 - 2 ^ 31.
Definition to_u32 (z : Z) : Z := z mod 2 ^ 32.

Definition INT32_MAX : Z := 2 ^ 31 - 1.
Definition INT64_MIN : Z := - 2 ^ 63.
Definition INT64_MAX : Z := 2 ^ 63 - 1.

Definition is_int64 (z : Z) : bool := (INT64_MIN <=? z) && (z <=? INT64_MAX).
Definition is_int32 (z : Z) : bool := (- 2 ^ 31 <=? z) && (z <=? INT32_MAX).
Definition is_byte (z : Z) : bool := (0 <=? z) && (z <? 256).

(** ** Bytes in memory

    A byte is a [Z] in [0, 256).  Multi-byte integers are little-endian, as on
    the x86-64 and aarch64 hosts the runtime is built for. *)

Fixpoint le_encode (n : nat) (v : Z) : list Z :=
  match n with
  | O => []
  | S n' => v mod 256 :: le_encode n' (v / 256)
  end.

Fixpoint le_decode (bs : list Z) : Z :=
  match bs with
  | [] => 0
  | b :: bs' => b + 256 * le_decode bs'
  end.

Definition slice (off len : nat) (bs : list Z) : list Z :=
  firstn len (skipn off bs).

(** ** Return codes ([dart_ret_t]) *)

Inductive dart_ret_t : Type :=
| DART_OK
| DART_ERR_INVAL
| DART_ERR_AGAIN
| DART_ERR_OTHER.

Definition dart_ret_eqb (a b : dart_ret_t) : bool :=
  match a, b with
  | DART_OK, DART_OK | DART_ERR_INVAL, DART_ERR_INVAL
  | DART_ERR_AGAIN, DART_ERR_AGAIN | DART_ERR_OTHER, DART_ERR_OTHER => true
  | _, _ => false
  end.

(** ** The queue layout

    [sizeof(int64_t)] is 8.  The macros mix [int64_t] queue numbers with
    [size_t] sizes, so they compute in [size_t]. *)

Definition MSGCACHE_SIZE : Z := 4 * 1024.

Definition OFFSET_QUEUENUM : Z := 0.
Definition OFFSET_TAILPOS (q : Z) : Z := to_u64 (8 + q * 2 * 8).
Definition OFFSET_READYPOS (q : Z) : Z := to_u64 (OFFSET_TAILPOS q + 8).
Definition OFFSET_DATA (q qs : Z) : Z := to_u64 (OFFSET_READYPOS 1 + 8 + q * qs).

(** A displacement is handed to MPI as an [MPI_Aint], a signed 64-bit
    integer. *)
Definition MPI_Aint (z : Z) : Z := wrap64 z.

(** Modelled from the spec: the types of the header fields
    ([dart_task_action_t], [dart_global_unit_t]) are declared outside the
    sources at hand.  The header is laid out as on an LP64 target built
    without DART_DEBUG: an 8-byte handler pointer, the 4-byte unit id and the
    4-byte payload size. *)
Definition sizeof_header : Z := 16.

Record dart_amsg_header : Type := {
  fn : Z;
  remote : Z;
  data_size : Z
}.

Definition encode_header (h : dart_amsg_header) : list Z :=
  le_encode 8 (fn h) ++ le_encode 4 (remote h) ++ le_encode 4 (data_size h).

Definition decode_header (bs : list Z) : dart_amsg_header :=
  {| fn := le_decode (slice 0 8 bs);
     remote := wrap32 (le_decode (slice 8 4 bs));
     data_size := le_decode (slice 12 4 bs) |}.

(** ** The queue handle ([struct dart_amsgq_impl_data])

    The window, its base pointer, the communicator and the two mutexes are
    handles of the environment; the events name them. *)

Record message_cache_t : Type := {
  pos : Z;
  buffer : list Z
}.

Record dart_amsgq_impl_data : Type := {
  queue_size : Z;
  message_cache : list (option message_cache_t);
  prev_tailpos : Z
}.

Definition set_prev_tailpos (a : dart_amsgq_impl_data) (v : Z) :=
  {| queue_size := queue_size a;
     message_cache := message_cache a;
     prev_tailpos := v |}.

Definition set_message_cache (a : dart_amsgq_impl_data)
    (c : list (option message_cache_t)) :=
  {| queue_size := queue_size a;
     message_cache := c;
     prev_tailpos := prev_tailpos a |}.

(** [openq]: the capacity of one sub-queue and the size of the window. *)
Definition openq_queue_size (msg_size msg_count : Z) : Z :=
  to_u64 (msg_count * (sizeof_header + msg_size)).

Definition openq_win_size (qs : Z) : Z :=
  to_u64 (2 * (qs + 2 * 8) + 8).

(** ** Events *)

Inductive MPI_Op : Type := MPI_NO_OP | MPI_SUM | MPI_REPLACE.
Inductive MPI_Datatype : Type := MPI_INT64_T | MPI_INT32_T.

Inductive dart_mutex : Type :=
| send_mutex
| processing_mutex
| cache_mutex (target : Z).

Variant amqE : Type -> Type :=
| MPI_Fetch_and_op (operand : Z) (dt : MPI_Datatype) (target disp : Z)
    (op : MPI_Op) : amqE Z
| MPI_Accumulate (operand : Z) (dt : MPI_Datatype) (target disp : Z)
    (op : MPI_Op) : amqE unit
| MPI_Put (data : list Z) (count : Z) (target disp : Z) : amqE unit
| MPI_Win_flush_local (target : Z) : amqE unit
| MPI_Win_flush (target : Z) : amqE unit
| MPI_Comm_rank : amqE Z
| MPI_Comm_size : amqE Z
| MPI_Ibarrier : amqE unit
| MPI_Test : amqE bool
| MPI_Barrier : amqE unit
| MPI_Win_unlock_all : amqE unit
| MPI_Win_free : amqE unit
| MPI_Comm_free : amqE unit
| dart_myid : amqE Z
| mutex_lock (m : dart_mutex) : amqE unit
| mutex_trylock (m : dart_mutex) : amqE dart_ret_t
| mutex_unlock (m : dart_mutex) : amqE unit
| mutex_init (m : dart_mutex) : amqE unit
| mutex_destroy (m : dart_mutex) : amqE unit
| queue_load (disp len : Z) : amqE (list Z)
| invoke (fn data : Z) : amqE unit
| free_message_cache : amqE unit
| free_amsgq : amqE unit
| LOG_WARN : amqE unit
| LOG_ERROR : amqE unit
| assert_fail : amqE Empty_set.

(** Modelled from the spec: [DART_ASSERT] comes from a header outside the
    sources at hand; a failed assertion aborts the unit. *)
Definition DART_ASSERT (b : bool) : itree amqE unit :=
  if b then Ret tt
  else v <- ITree.trigger assert_fail;; match v : Empty_set with end.

(** ** The sender path *)

(** What one turn of the [do { ... } while (1)] of [sendbuf] leaves with:
    [break] with the queue number and the offset, or [return]. *)
Inductive sendbuf_exit : Type :=
| sb_break (queuenum offset : Z)
| sb_return (r : dart_ret_t).

Definition sendbuf_reserve (target : Z) (amsgq : dart_amsgq_impl_data)
    (msg_size : Z) (_ : unit) : itree amqE (unit + sendbuf_exit) :=
  queuenum <- ITree.trigger
    (MPI_Fetch_and_op 0 MPI_INT64_T target (MPI_Aint OFFSET_QUEUENUM)
       MPI_NO_OP);;
  ITree.trigger (MPI_Win_flush_local target);;
  DART_ASSERT ((queuenum =? 0) || (queuenum =? 1));;
  offset <- ITree.trigger
    (MPI_Fetch_and_op msg_size MPI_INT64_T target
       (MPI_Aint (OFFSET_TAILPOS queuenum)) MPI_SUM);;
  ITree.trigger (MPI_Win_flush_local target);;
  if (0 <=? offset) &&
     (to_u64 (wrap64 (offset + msg_size)) <=? queue_size amsgq)
  then Ret (inr (sb_break queuenum offset))
  else
    let neg_msg_size := wrap64 (- msg_size) in
    ITree.trigger
      (MPI_Accumulate neg_msg_size MPI_INT64_T target
         (MPI_Aint (OFFSET_TAILPOS queuenum)) MPI_SUM);;
    ITree.trigger (MPI_Win_flush target);;
    Ret (inr (sb_return DART_ERR_AGAIN)).

Definition dart_amsg_sopnop_sendbuf (target : Z)
    (amsgq : dart_amsgq_impl_data) (data : list Z) (data_size : Z)
  : itree amqE dart_ret_t :=
  let msg_size := wrap64 data_size in
  ex <- ITree.iter (sendbuf_reserve target amsgq msg_size) tt;;
  match ex with
  | sb_return r => Ret r
  | sb_break queuenum offset =>
      ITree.trigger
        (MPI_Put data (wrap32 data_size) target
           (MPI_Aint
              (to_u64 (OFFSET_DATA queuenum (queue_size amsgq) + offset))));;
      ITree.trigger (MPI_Win_flush target);;
      ITree.trigger
        (MPI_Accumulate msg_size MPI_INT64_T target
           (MPI_Aint (OFFSET_READYPOS queuenum)) MPI_SUM);;
      ITree.trigger (MPI_Win_flush target);;
      Ret DART_OK
  end.

Definition dart_amsg_sopnop_trysend (target : Z)
    (amsgq : dart_amsgq_impl_data) (fn : Z) (data : list Z) (data_size : Z)
  : itree amqE dart_ret_t :=
  unitid <- ITree.trigger dart_myid;;
  let msg_size := wrap64 (to_u64 (sizeof_header + data_size)) in
  let msg :=
    encode_header {| fn := fn; remote := unitid; data_size := to_u32 data_size |}
      ++ firstn (Z.to_nat data_size) data in
  dart_amsg_sopnop_sendbuf target amsgq msg (to_u64 msg_size).

(** ** The drainer *)

(** [do { fetch tail[newqueue] } while (tmp != amsgq->prev_tailpos)] *)
Definition wait_late_senders (unitid newqueue prev : Z) : itree amqE Z :=
  ITree.iter
    (fun _ : unit =>
       tmp <- ITree.trigger
         (MPI_Fetch_and_op 0 MPI_INT64_T unitid
            (MPI_Aint (OFFSET_TAILPOS newqueue)) MPI_NO_OP);;
       ITree.trigger (MPI_Win_flush_local unitid);;
       if negb (tmp =? prev) then Ret (inl tt) else Ret (inr tmp))
    tt.

(** [do { fetch ready[q]; fetch tail[q]; ... } while (readypos != tailpos)];
    leaves with [(readypos, tailpos)]. *)
Definition wait_active_writers (unitid queuenum tailpos_sub : Z)
  : itree amqE (Z * Z) :=
  ITree.iter
    (fun _ : unit =>
       readypos <- ITree.trigger
         (MPI_Fetch_and_op 0 MPI_INT64_T unitid
            (MPI_Aint (OFFSET_READYPOS queuenum)) MPI_NO_OP);;
       tmp <- ITree.trigger
         (MPI_Fetch_and_op 0 MPI_INT64_T unitid
            (MPI_Aint (OFFSET_TAILPOS queuenum)) MPI_NO_OP);;
       ITree.trigger (MPI_Win_flush_local unitid);;
       let tailpos := wrap64 (tmp + wrap64 (- tailpos_sub)) in
       DART_ASSERT (readypos <=? tailpos);;
       if negb (readypos =? tailpos) then Ret (inl tt)
       else Ret (inr (readypos, tailpos)))
    tt.

(** One message of the dispatch loop, entered with [pos < tailpos]: the
    header lies at [dbuf + pos], its [data_size] field 12 bytes further;
    [fn] is read for the call. *)
Definition dispatch_one (dbuf tailpos pos : Z) : itree amqE Z :=
  let header := dbuf + pos in
  let pos := wrap64 (to_u64 (pos + sizeof_header)) in
  let data := dbuf + pos in
  ds <- ITree.trigger (queue_load (header + 12) 4);;
  let pos := wrap64 (pos + le_decode ds) in
  DART_ASSERT (pos <=? tailpos);;
  f <- ITree.trigger (queue_load header 8);;
  ITree.trigger (invoke (le_decode f) data);;
  Ret pos.

(** One turn of [while (pos < tailpos) { ... num_msg++; }]. *)
Definition dispatch_turn (dbuf tailpos : Z) (st : Z * Z)
  : itree amqE (Z * Z + Z * Z) :=
  let '(pos, num_msg) := st in
  if pos <? tailpos then
    pos' <- dispatch_one dbuf tailpos pos;;
    Ret (inl (pos', wrap32 (num_msg + 1)))
  else Ret (inr (pos, num_msg)).

(** The dispatch loop, from [pos = 0] and [num_msg = 0]; leaves with
    [(pos, num_msg)]. *)
Definition dispatch_messages (dbuf tailpos : Z) : itree amqE (Z * Z) :=
  ITree.iter (dispatch_turn dbuf tailpos) (0, 0).

(** The plain load [*(int64_t* )amsgq->queue_ptr]. *)
Definition load_queuenum : itree amqE Z :=
  bs <- ITree.trigger (queue_load OFFSET_QUEUENUM 8);;
  Ret (wrap64 (le_decode bs)).

(** The body of [if (tailpos > 0)]: one drain cycle of queue [queuenum];
    leaves with the handle and the last value of [tailpos]. *)
Definition drain_cycle (amsgq : dart_amsgq_impl_data)
    (unitid queuenum tailpos : Z) : itree amqE (dart_amsgq_impl_data * Z) :=
  let zero := 0 in
  let newqueue := if queuenum =? 0 then 1 else 0 in
  wait_late_senders unitid newqueue (prev_tailpos amsgq);;
  ITree.trigger
    (MPI_Fetch_and_op zero MPI_INT64_T unitid
       (MPI_Aint (OFFSET_TAILPOS newqueue)) MPI_REPLACE);;
  ITree.trigger (MPI_Win_flush unitid);;
  let queue_swap_sum := if queuenum =? 0 then 1 else -1 in
  tmp <- ITree.trigger
    (MPI_Fetch_and_op queue_swap_sum MPI_INT64_T unitid
       (MPI_Aint OFFSET_QUEUENUM) MPI_SUM);;
  ITree.trigger (MPI_Win_flush unitid);;
  DART_ASSERT (tmp =? queuenum);;
  let tailpos_sub := wrap64 (wrap64 (- tailpos) - INT32_MAX) in
  ITree.trigger
    (MPI_Fetch_and_op tailpos_sub MPI_INT64_T unitid
       (MPI_Aint (OFFSET_TAILPOS queuenum)) MPI_SUM);;
  rt <- wait_active_writers unitid queuenum tailpos_sub;;
  let tailpos := snd rt in
  let amsgq := set_prev_tailpos amsgq (wrap64 (tailpos_sub + tailpos)) in
  ITree.trigger
    (MPI_Fetch_and_op zero MPI_INT64_T unitid
       (MPI_Aint (OFFSET_READYPOS queuenum)) MPI_REPLACE);;
  ITree.trigger (MPI_Win_flush unitid);;
  dispatch_messages (OFFSET_DATA queuenum (queue_size amsgq)) tailpos;;
  Ret (amsgq, tailpos).

(** The body of the outer [do { ... } while (blocking && tailpos > 0)];
    leaves with the handle and the value of [tailpos] that the loop
    condition looks at. *)
Definition drain_attempt (amsgq : dart_amsgq_impl_data)
  : itree amqE (dart_amsgq_impl_data * Z) :=
  unitid <- ITree.trigger MPI_Comm_rank;;
  queuenum <- load_queuenum;;
  DART_ASSERT ((queuenum =? 0) || (queuenum =? 1));;
  tailpos <- ITree.trigger
    (MPI_Fetch_and_op 0 MPI_INT64_T unitid
       (MPI_Aint (OFFSET_TAILPOS queuenum)) MPI_NO_OP);;
  ITree.trigger (MPI_Win_flush_local unitid);;
  if 0 <? tailpos then drain_cycle amsgq unitid queuenum tailpos
  else Ret (amsgq, tailpos).

(** One turn of that loop: the body and the loop condition. *)
Definition process_turn (blocking : bool) (amsgq : dart_amsgq_impl_data)
  : itree amqE (dart_amsgq_impl_data + dart_amsgq_impl_data) :=
  ct <- drain_attempt amsgq;;
  if blocking && (0 <? snd ct) then Ret (inl (fst ct)) else Ret (inr (fst ct)).

Definition amsg_sopnop_process_internal (amsgq : dart_amsgq_impl_data)
    (blocking : bool) : itree amqE (dart_ret_t * dart_amsgq_impl_data) :=
  locked <-
    (if negb blocking then
       ret <- ITree.trigger (mutex_trylock processing_mutex);;
       Ret (dart_ret_eqb ret DART_OK)
     else ITree.trigger (mutex_lock processing_mutex);; Ret true);;
  if negb locked then Ret (DART_ERR_AGAIN, amsgq)
  else
    amsgq <- ITree.iter (process_turn blocking) amsgq;;
    ITree.trigger (mutex_unlock processing_mutex);;
    Ret (DART_OK, amsgq).

Definition dart_amsg_sopnop_process (amsgq : dart_amsgq_impl_data)
  : itree amqE (dart_ret_t * dart_amsgq_impl_data) :=
  amsg_sopnop_process_internal amsgq false.

(** ** The coalescing cache

    [flush_buffer] and [bsend] are written over the two procedures they
    call, [sendbuf] and [process_internal], and instantiated with the ones
    above. *)

Definition sendbuf_t : Type :=
  Z -> dart_amsgq_impl_data -> list Z -> Z -> itree amqE dart_ret_t.
Definition process_t : Type :=
  dart_amsgq_impl_data -> bool ->
  itree amqE (dart_ret_t * dart_amsgq_impl_data).

Definition cache_slot (amsgq : dart_amsgq_impl_data) (target : Z)
  : option message_cache_t :=
  match nth_error (message_cache amsgq) (Z.to_nat target) with
  | Some (Some c) => Some c
  | _ => None
  end.

Fixpoint list_set {A : Type} (l : list A) (i : nat) (x : A) : list A :=
  match l, i with
  | [], _ => []
  | _ :: l', O => x :: l'
  | y :: l', S i' => y :: list_set l' i' x
  end.

Definition set_cache_slot (amsgq : dart_amsgq_impl_data) (target : Z)
    (c : message_cache_t) : dart_amsgq_impl_data :=
  set_message_cache amsgq
    (list_set (message_cache amsgq) (Z.to_nat target) (Some c)).

(** [do { ret = sendbuf(...); ... } while (ret != DART_OK)] over the cache of
    [target]; leaves with [inl] when the cache went out, with [inr ret] on
    the [return ret] of the error branch.  [on_error] is what that branch
    does before it returns. *)
Definition drain_cache (sendbuf : sendbuf_t) (process_internal : process_t)
    (on_error : itree amqE unit) (target : Z) (cache : message_cache_t)
    (amsgq : dart_amsgq_impl_data)
  : itree amqE ((unit + dart_ret_t) * dart_amsgq_impl_data) :=
  ITree.iter
    (fun amsgq : dart_amsgq_impl_data =>
       ret <- sendbuf target amsgq (buffer cache) (to_u64 (pos cache));;
       if dart_ret_eqb DART_ERR_AGAIN ret then
         ra <- process_internal amsgq false;;
         Ret (inl (snd ra))
       else if negb (dart_ret_eqb ret DART_OK) then
         on_error;;
         Ret (inr (inr ret, amsgq))
       else Ret (inr (inl tt, amsgq)))
    amsgq.

(** One turn of [for (target = 0; target < comm_size; ++target)]; leaves the
    loop with [None] at its end and with [Some ret] on [return ret]. *)
Definition flush_target (sendbuf : sendbuf_t) (process_internal : process_t)
    (comm_size : Z) (st : Z * dart_amsgq_impl_data)
  : itree amqE (Z * dart_amsgq_impl_data +
                option dart_ret_t * dart_amsgq_impl_data) :=
  let '(target, amsgq) := st in
  if negb (target <? comm_size) then Ret (inr (None, amsgq))
  else
    match cache_slot amsgq target with
    | None => Ret (inl (wrap32 (target + 1), amsgq))
    | Some cache =>
        ITree.trigger (mutex_lock (cache_mutex target));;
        if pos cache =? 0 then
          ITree.trigger (mutex_unlock (cache_mutex target));;
          Ret (inl (wrap32 (target + 1), amsgq))
        else
          ra <- drain_cache sendbuf process_internal
                  (ITree.trigger (mutex_unlock send_mutex);;
                   ITree.trigger LOG_ERROR)
                  target cache amsgq;;
          match fst ra with
          | inr ret => Ret (inr (Some ret, snd ra))
          | inl _ =>
              let amsgq :=
                set_cache_slot (snd ra) target
                  {| pos := 0; buffer := buffer cache |} in
              ITree.trigger (mutex_unlock (cache_mutex target));;
              Ret (inl (wrap32 (target + 1), amsgq))
          end
    end.

Definition flush_buffer_with (sendbuf : sendbuf_t)
    (process_internal : process_t) (amsgq : dart_amsgq_impl_data)
  : itree amqE (dart_ret_t * dart_amsgq_impl_data) :=
  ITree.trigger (mutex_lock send_mutex);;
  comm_size <- ITree.trigger MPI_Comm_size;;
  ra <- ITree.iter (flush_target sendbuf process_internal comm_size)
          (0, amsgq);;
  match fst ra with
  | Some ret => Ret (ret, snd ra)
  | None =>
      ITree.trigger (mutex_unlock send_mutex);;
      Ret (DART_OK, snd ra)
  end.

Definition dart_amsg_sopnop_flush_buffer
  : dart_amsgq_impl_data -> itree amqE (dart_ret_t * dart_amsgq_impl_data) :=
  flush_buffer_with dart_amsg_sopnop_sendbuf amsg_sopnop_process_internal.

(** One turn of [do { process; MPI_Test } while (!flag)]. *)
Definition poll_barrier (amsgq : dart_amsgq_impl_data)
  : itree amqE (dart_amsgq_impl_data + dart_amsgq_impl_data) :=
  ra <- amsg_sopnop_process_internal amsgq true;;
  flag <- ITree.trigger MPI_Test;;
  if negb flag then Ret (inl (snd ra)) else Ret (inr (snd ra)).

Definition dart_amsg_sopnop_process_blocking (amsgq : dart_amsgq_impl_data)
    (team : Z) : itree amqE (dart_ret_t * dart_amsgq_impl_data) :=
  ra <- dart_amsg_sopnop_flush_buffer amsgq;;
  ITree.trigger MPI_Ibarrier;;
  amsgq <- ITree.iter poll_barrier (snd ra);;
  ra <- amsg_sopnop_process_internal amsgq true;;
  ITree.trigger MPI_Barrier;;
  Ret (DART_OK, snd ra).

(** [memcpy] of [bs] to [buf + off]. *)
Definition write_at (off : nat) (bs buf : list Z) : list Z :=
  firstn off buf ++ bs ++ skipn (off + length bs) buf.

Definition new_cache : message_cache_t :=
  {| pos := 0; buffer := repeat 0 (Z.to_nat MSGCACHE_SIZE) |}.

Definition bsend_with (sendbuf : sendbuf_t) (process_internal : process_t)
    (target : Z) (amsgq : dart_amsgq_impl_data) (fn : Z) (data : list Z)
    (data_size : Z) : itree amqE (dart_ret_t * dart_amsgq_impl_data) :=
  ac <-
    (match cache_slot amsgq target with
     | Some cache => Ret (amsgq, cache)
     | None =>
         ITree.trigger (mutex_lock send_mutex);;
         ac <-
           (match cache_slot amsgq target with
            | Some cache => Ret (amsgq, cache)
            | None =>
                ITree.trigger (mutex_init (cache_mutex target));;
                Ret (set_cache_slot amsgq target new_cache, new_cache)
            end);;
         ITree.trigger (mutex_unlock send_mutex);;
         Ret ac
     end);;
  let '(amsgq, cache) := ac in
  ITree.trigger (mutex_lock (cache_mutex target));;
  rc <-
    (if to_u64 (pos cache + sizeof_header + data_size) >? MSGCACHE_SIZE
     then
       ra <- drain_cache sendbuf process_internal
               (ITree.trigger LOG_ERROR) target cache amsgq;;
       match fst ra with
       | inr ret => Ret (Some ret, cache, snd ra)
       | inl _ =>
           let cache := {| pos := 0; buffer := buffer cache |} in
           Ret (None, cache, set_cache_slot (snd ra) target cache)
       end
     else Ret (None, cache, amsgq));;
  let '(early, cache, amsgq) := rc in
  match early with
  | Some ret => Ret (ret, amsgq)
  | None =>
      remote <- ITree.trigger dart_myid;;
      let msg :=
        encode_header
          {| fn := fn; remote := remote; data_size := to_u32 data_size |}
          ++ firstn (Z.to_nat data_size) data in
      let cache :=
        {| pos := wrap32 (to_u64 (pos cache + sizeof_header + data_size));
           buffer := write_at (Z.to_nat (pos cache)) msg (buffer cache) |}
      in
      ITree.trigger (mutex_unlock (cache_mutex target));;
      Ret (DART_OK, set_cache_slot amsgq target cache)
  end.

Definition dart_amsg_sopnop_bsend
  : Z -> dart_amsgq_impl_data -> Z -> list Z -> Z ->
    itree amqE (dart_ret_t * dart_amsgq_impl_data) :=
  bsend_with dart_amsg_sopnop_sendbuf amsg_sopnop_process_internal.

(** ** Teardown *)

Definition dart_amsg_sopnop_closeq (amsgq : dart_amsgq_impl_data)
  : itree amqE dart_ret_t :=
  queuenum <- load_queuenum;;
  unitid <- ITree.trigger MPI_Comm_rank;;
  fetched <- ITree.trigger
    (MPI_Fetch_and_op 0 MPI_INT32_T unitid
       (MPI_Aint (OFFSET_TAILPOS queuenum)) MPI_NO_OP);;
  let tailpos := to_u32 fetched in
  ITree.trigger (MPI_Win_flush_local unitid);;
  (if 0 <? tailpos then ITree.trigger LOG_WARN else Ret tt);;
  ITree.trigger MPI_Win_unlock_all;;
  ITree.trigger MPI_Win_free;;
  ITree.trigger MPI_Comm_free;;
  ITree.trigger free_message_cache;;
  ITree.trigger free_amsgq;;
  ITree.trigger (mutex_destroy send_mutex);;
  ITree.trigger (mutex_destroy processing_mutex);;
  Ret DART_OK.

(** ** Running a program against an environment *)

(** The environment answers an event, or keeps the caller waiting (a lock
    that is taken, a barrier that is not complete), or the unit dies. *)
Inductive answer (Env X : Type) : Type :=
| Answer (x : X) (s : Env)
| Blocked (s : Env)
| Crashed.
Arguments Answer {Env X}.
Arguments Blocked {Env X}.
Arguments Crashed {Env X}.

Definition handler (Env : Type) : Type :=
  forall X, amqE X -> Env -> answer Env X.

Inductive entry : Type :=
| Obs {X : Type} (e : amqE X) (x : X)
| Halt {X : Type} (e : amqE X).

Inductive outcome (R : Type) : Type :=
| Done (r : R)
| Stopped
| OutOfFuel.
Arguments Done {R}.
Arguments Stopped {R}.
Arguments OutOfFuel {R}.

Fixpoint run {Env R : Type} (fuel : nat) (h : handler Env)
    (t : itree amqE R) (s : Env) : list entry * outcome R * Env :=
  match fuel with
  | O => ([], OutOfFuel, s)
  | S fuel' =>
      match observe t with
      | RetF r => ([], Done r, s)
      | TauF t' => run fuel' h t' s
      | VisF e k =>
          match h _ e s with
          | Answer x s' =>
              let '(tr, o, s'') := run fuel' h (k x) s' in
              (Obs e x :: tr, o, s'')
          | Blocked s' => ([Halt e], Stopped, s')
          | Crashed => ([Halt e], Stopped, s)
          end
      end
  end.


(** ** A model of the environment

    Every unit owns one window of bytes.  A remote atomic, a put and a local
    load take effect at once when they are issued (the flushes have nothing
    left to do), so a run is a sequentially consistent interleaving of the
    units' events.  That is one of the behaviours MPI allows. *)

Record window : Type := {
  win_size : Z;
  win_mem : Z -> Z
}.

Definition fresh_window (size : Z) : window :=
  {| win_size := size; win_mem := fun _ => 0 |}.

Fixpoint mem_load (m : Z -> Z) (a : Z) (n : nat) : list Z :=
  match n with
  | O => []
  | S n' => m a :: mem_load m (a + 1) n'
  end.

Fixpoint mem_store (m : Z -> Z) (a : Z) (bs : list Z) : Z -> Z :=
  match bs with
  | [] => m
  | b :: bs' =>
      mem_store (fun x => if x =? a then b mod 256 else m x) (a + 1) bs'
  end.

Definition in_window (w : window) (disp len : Z) : bool :=
  (0 <=? disp) && (0 <=? len) && (disp + len <=? win_size w).

Definition dt_size (dt : MPI_Datatype) : nat :=
  match dt with MPI_INT64_T => 8%nat | MPI_INT32_T => 4%nat end.

Definition dt_wrap (dt : MPI_Datatype) (z : Z) : Z :=
  match dt with MPI_INT64_T => wrap64 z | MPI_INT32_T => wrap32 z end.

Definition win_load_int (w : window) (dt : MPI_Datatype) (disp : Z) : Z :=
  dt_wrap dt (le_decode (mem_load (win_mem w) disp (dt_size dt))).

Definition win_store (w : window) (disp : Z) (bs : list Z) : window :=
  {| win_size := win_size w; win_mem := mem_store (win_mem w) disp bs |}.

Definition win_store_int (w : window) (dt : MPI_Datatype) (disp v : Z)
  : window :=
  win_store w disp (le_encode (dt_size dt) v).

Definition apply_op (dt : MPI_Datatype) (op : MPI_Op) (old operand : Z) : Z :=
  match op with
  | MPI_NO_OP => old
  | MPI_SUM => dt_wrap dt (old + operand)
  | MPI_REPLACE => operand
  end.

(** One invocation of a handler: the unit, the handler, the pointer it got
    (as a displacement in the window) and the payload it finds there, as
    long as the header in front of the pointer says. *)
Record invocation : Type := {
  inv_unit : Z;
  inv_fn : Z;
  inv_data : Z;
  inv_payload : list Z
}.

Record world : Type := {
  windows : list window;
  held : list (Z * dart_mutex);
  invoked : list invocation;
  warned : list Z;
  ibarrier_count : list (Z * nat);
  barrier_waiting : list Z;
  barrier_released : list Z
}.

Definition set_windows (w : world) (ws : list window) : world :=
  {| windows := ws; held := held w; invoked := invoked w;
     warned := warned w; ibarrier_count := ibarrier_count w;
     barrier_waiting := barrier_waiting w;
     barrier_released := barrier_released w |}.

Definition set_held (w : world) (l : list (Z * dart_mutex)) : world :=
  {| windows := windows w; held := l; invoked := invoked w;
     warned := warned w; ibarrier_count := ibarrier_count w;
     barrier_waiting := barrier_waiting w;
     barrier_released := barrier_released w |}.

Definition add_invoked (w : world) (i : invocation) : world :=
  {| windows := windows w; held := held w; invoked := invoked w ++ [i];
     warned := warned w; ibarrier_count := ibarrier_count w;
     barrier_waiting := barrier_waiting w;
     barrier_released := barrier_released w |}.

Definition add_warned (w : world) (u : Z) : world :=
  {| windows := windows w; held := held w; invoked := invoked w;
     warned := warned w ++ [u]; ibarrier_count := ibarrier_count w;
     barrier_waiting := barrier_waiting w;
     barrier_released := barrier_released w |}.

Definition set_barriers (w : world) (ib : list (Z * nat)) (bw br : list Z)
  : world :=
  {| windows := windows w; held := held w; invoked := invoked w;
     warned := warned w; ibarrier_count := ib;
     barrier_waiting := bw; barrier_released := br |}.

Definition mutex_eqb (a b : dart_mutex) : bool :=
  match a, b with
  | send_mutex, send_mutex => true
  | processing_mutex, processing_mutex => true
  | cache_mutex x, cache_mutex y => x =? y
  | _, _ => false
  end.

Definition held_eqb (a b : Z * dart_mutex) : bool :=
  (fst a =? fst b) && mutex_eqb (snd a) (snd b).

Definition is_held (w : world) (k : Z * dart_mutex) : bool :=
  existsb (held_eqb k) (held w).

Definition window_of (w : world) (unit : Z) : option window :=
  if unit <? 0 then None else nth_error (windows w) (Z.to_nat unit).

Definition count_of (l : list (Z * nat)) (u : Z) : nat :=
  match find (fun p => fst p =? u) l with
  | Some p => snd p
  | None => O
  end.

Definition units (w : world) : list Z :=
  map Z.of_nat (seq 0 (length (windows w))).

Definition mem_Z (u : Z) (l : list Z) : bool := existsb (Z.eqb u) l.

(** The answers of the environment to the events of unit [me].

    Modelled from the spec: MPI, the mutexes, the handler registry and the
    logger are collaborators outside the sources at hand.  A fetch-and-op
    returns the prior value and applies its operation atomically, a put
    writes its bytes, a flush has nothing left to do, a lock blocks while
    the mutex is held, a try-lock fails then, a barrier completes when
    every unit of the team has entered it. *)
Definition mpi (me : Z) : handler world :=
  fun X e w =>
    match e in amqE X return answer world X with
    | MPI_Fetch_and_op operand dt target disp op =>
        match window_of w target with
        | Some win =>
            if in_window win disp (Z.of_nat (dt_size dt)) then
              let old := win_load_int win dt disp in
              let win' := win_store_int win dt disp (apply_op dt op old operand) in
              Answer old
                (set_windows w (list_set (windows w) (Z.to_nat target) win'))
            else Crashed
        | None => Crashed
        end
    | MPI_Accumulate operand dt target disp op =>
        match window_of w target with
        | Some win =>
            if in_window win disp (Z.of_nat (dt_size dt)) then
              let old := win_load_int win dt disp in
              let win' :=
                win_store_int win dt disp (apply_op dt op old operand) in
              Answer tt
                (set_windows w (list_set (windows w) (Z.to_nat target) win'))
            else Crashed
        | None => Crashed
        end
    | MPI_Put data count target disp =>
        match window_of w target with
        | Some win =>
            if in_window win disp count then
              let win' := win_store win disp (firstn (Z.to_nat count) data) in
              Answer tt
                (set_windows w (list_set (windows w) (Z.to_nat target) win'))
            else Crashed
        | None => Crashed
        end
    | MPI_Win_flush_local _ => Answer tt w
    | MPI_Win_flush _ => Answer tt w
    | MPI_Comm_rank => Answer me w
    | MPI_Comm_size => Answer (Z.of_nat (length (windows w))) w
    | MPI_Ibarrier =>
        let n := count_of (ibarrier_count w) me in
        Answer tt
          (set_barriers w ((me, S n) :: ibarrier_count w)
             (barrier_waiting w) (barrier_released w))
    | MPI_Test =>
        let n := count_of (ibarrier_count w) me in
        Answer
          (forallb (fun u => Nat.leb n (count_of (ibarrier_count w) u))
             (units w))
          w
    | MPI_Barrier =>
        if mem_Z me (barrier_released w) then
          Answer tt
            (set_barriers w (ibarrier_count w) (barrier_waiting w)
               (filter (fun u => negb (u =? me)) (barrier_released w)))
        else
          let waiting :=
            if mem_Z me (barrier_waiting w) then barrier_waiting w
            else me :: barrier_waiting w in
          if forallb (fun u => mem_Z u waiting) (units w) then
            Answer tt
              (set_barriers w (ibarrier_count w) []
                 (filter (fun u => negb (u =? me)) waiting))
          else
            Blocked
              (set_barriers w (ibarrier_count w) waiting (barrier_released w))
    | MPI_Win_unlock_all => Answer tt w
    | MPI_Win_free => Answer tt w
    | MPI_Comm_free => Answer tt w
    | dart_myid => Answer me w
    | mutex_lock m =>
        if is_held w (me, m) then Blocked w
        else Answer tt (set_held w ((me, m) :: held w))
    | mutex_trylock m =>
        if is_held w (me, m) then Answer DART_ERR_OTHER w
        else Answer DART_OK (set_held w ((me, m) :: held w))
    | mutex_unlock m =>
        Answer tt
          (set_held w (filter (fun k => negb (held_eqb (me, m) k)) (held w)))
    | mutex_init _ => Answer tt w
    | mutex_destroy _ => Answer tt w
    | queue_load disp len =>
        match window_of w me with
        | Some win =>
            if in_window win disp len then
              Answer (mem_load (win_mem win) disp (Z.to_nat len)) w
            else Crashed
        | None => Crashed
        end
    | invoke fn data =>
        match window_of w me with
        | Some win =>
            let len := le_decode (mem_load (win_mem win) (data - 4) 4) in
            Answer tt
              (add_invoked w
                 {| inv_unit := me; inv_fn := fn; inv_data := data;
                    inv_payload :=
                      mem_load (win_mem win) data (Z.to_nat len) |})
        | None => Crashed
        end
    | free_message_cache => Answer tt w
    | free_amsgq => Answer tt w
    | LOG_WARN => Answer tt (add_warned w me)
    | LOG_ERROR => Answer tt w
    | assert_fail => Crashed
    end.

(** A team of [n] units after [openq]: zeroed windows, nothing held. *)
Definition fresh_world (n : nat) (qs : Z) : world :=
  {| windows := repeat (fresh_window (openq_win_size qs)) n;
     held := []; invoked := []; warned := [];
     ibarrier_count := []; barrier_waiting := []; barrier_released := [] |}.

Definition fresh_amsgq (n : nat) (qs : Z) : dart_amsgq_impl_data :=
  {| queue_size := qs; message_cache := repeat None n; prev_tailpos := 0 |}.

(** ** Interleaved runs

    A thread is a program on a unit.  A schedule names, step by step, the
    thread that issues its next event. *)

Record thread (R : Type) : Type := {
  th_unit : Z;
  th_prog : itree amqE R;
  th_seen : list entry
}.
Arguments th_unit {R}.
Arguments th_prog {R}.
Arguments th_seen {R}.

Definition spawn {R : Type} (unit : Z) (prog : itree amqE R) : thread R :=
  {| th_unit := unit; th_prog := prog; th_seen := [] |}.

Fixpoint skip_tau {R : Type} (n : nat) (t : itree amqE R) : itree amqE R :=
  match n with
  | O => t
  | S n' =>
      match observe t with
      | TauF t' => skip_tau n' t'
      | _ => t
      end
  end.

(** One step of a thread: its next event, answered by the environment.  A
    thread that is kept waiting stays at its event; so does a dead one. *)
Definition step_thread {R : Type} (th : thread R) (w : world)
  : thread R * world :=
  let t := skip_tau 8 (th_prog th) in
  match observe t with
  | VisF e k =>
      match mpi (th_unit th) _ e w with
      | Answer x w' =>
          ({| th_unit := th_unit th; th_prog := k x;
              th_seen := th_seen th ++ [Obs e x] |}, w')
      | Blocked w' =>
          ({| th_unit := th_unit th; th_prog := t; th_seen := th_seen th |},
           w')
      | Crashed =>
          ({| th_unit := th_unit th; th_prog := t; th_seen := th_seen th |},
           w)
      end
  | _ => ({| th_unit := th_unit th; th_prog := t; th_seen := th_seen th |}, w)
  end.

Fixpoint run_schedule {R : Type} (sched : list nat) (ths : list (thread R))
    (w : world) : list (thread R) * world :=
  match sched with
  | [] => (ths, w)
  | i :: sched' =>
      match nth_error ths i with
      | Some th =>
          let '(th', w') := step_thread th w in
          run_schedule sched' (list_set ths i th') w'
      | None => run_schedule sched' ths w
      end
  end.

Definition result_of {R : Type} (th : thread R) : option R :=
  match observe (skip_tau 8 (th_prog th)) with
  | RetF r => Some r
  | _ => None
  end.


(** ** Reading traces *)

Definition trace_of {R Env : Type} (x : list entry * outcome R * Env)
  : list entry := fst (fst x).
Definition outcome_of {R Env : Type} (x : list entry * outcome R * Env)
  : outcome R := snd (fst x).
Definition state_of {R Env : Type} (x : list entry * outcome R * Env) : Env :=
  snd x.

(** The answers of the environment have the type of the C variable they are
    stored in: a fetched integer fits its MPI datatype, a load returns as
    many bytes as were asked for. *)
Definition wt_entry (en : entry) : bool :=
  match en with
  | Obs e x =>
      match e in amqE X return X -> bool with
      | MPI_Fetch_and_op _ MPI_INT64_T _ _ _ => fun x => is_int64 x
      | MPI_Fetch_and_op _ MPI_INT32_T _ _ _ => fun x => is_int32 x
      | MPI_Comm_rank => fun x => is_int32 x
      | MPI_Comm_size => fun x => is_int32 x
      | dart_myid => fun x => is_int32 x
      | queue_load _ len =>
          fun x => (Z.of_nat (length x) =? len) && forallb is_byte x
      | _ => fun _ => true
      end x
  | Halt _ => true
  end.

Definition wt_trace (tr : list entry) : bool := forallb wt_entry tr.

(** The events of [sendbuf] and the answers it got, by phase: the
    reservation on queue [q] that fetched [off], the rollback, and the
    payload with its readiness signal. *)
Definition sendbuf_reserve_obs (target msg_size q off : Z) : list entry :=
  [ Obs (MPI_Fetch_and_op 0 MPI_INT64_T target (MPI_Aint OFFSET_QUEUENUM)
           MPI_NO_OP) q;
    Obs (MPI_Win_flush_local target) tt;
    Obs (MPI_Fetch_and_op msg_size MPI_INT64_T target
           (MPI_Aint (OFFSET_TAILPOS q)) MPI_SUM) off;
    Obs (MPI_Win_flush_local target) tt ].

Definition sendbuf_rollback_obs (target msg_size q : Z) : list entry :=
  [ Obs (MPI_Accumulate (wrap64 (- msg_size)) MPI_INT64_T target
           (MPI_Aint (OFFSET_TAILPOS q)) MPI_SUM) tt;
    Obs (MPI_Win_flush target) tt ].

Definition sendbuf_commit_obs (target qs : Z) (data : list Z)
    (data_size q off : Z) : list entry :=
  [ Obs (MPI_Put data (wrap32 data_size) target
           (MPI_Aint (to_u64 (OFFSET_DATA q qs + off)))) tt;
    Obs (MPI_Win_flush target) tt;
    Obs (MPI_Accumulate (wrap64 data_size) MPI_INT64_T target
           (MPI_Aint (OFFSET_READYPOS q)) MPI_SUM) tt;
    Obs (MPI_Win_flush target) tt ].

(** The test of line 173, on C integers. *)
Definition reservation_fits (qs msg_size off : Z) : bool :=
  (0 <=? off) && (to_u64 (wrap64 (off + msg_size)) <=? qs).

(** Displacement of byte [off] of sub-queue [q], as laid out by [openq]. *)
Definition data_disp (qs q off : Z) : Z := 40 + q * qs + off.

(** A small team for the examples: two units, [openq(16, 4, team)]. *)
Definition example_qs : Z := openq_queue_size 16 4.
Definition example_world : world := fresh_world 2 example_qs.
Definition example_amsgq : dart_amsgq_impl_data := fresh_amsgq 2 example_qs.

Definition bytes_from (a : Z) (n : nat) : list Z :=
  map (fun i => a + Z.of_nat i) (seq 0 n).

(** The counters of a window, as [int64_t]. *)
Definition queuenum_of (w : window) : Z :=
  win_load_int w MPI_INT64_T OFFSET_QUEUENUM.
Definition tailpos_of (w : window) (q : Z) : Z :=
  win_load_int w MPI_INT64_T (OFFSET_TAILPOS q).
Definition readypos_of (w : window) (q : Z) : Z :=
  win_load_int w MPI_INT64_T (OFFSET_READYPOS q).
Definition window_at (w : world) (u : nat) : window :=
  nth u (windows w) (fresh_window 0).

(** A counter of the window after the atomic additions [ds], in order. *)
Definition accumulate_all (v : Z) (ds : list Z) : Z :=
  fold_left (apply_op MPI_INT64_T MPI_SUM) ds v.

(** One turn of the drainer's two spins, with the answers it got: [x] for
    [tail[newqueue]], and [(readypos, tmp)] for [ready[q]] and [tail[q]]. *)
Definition late_round (unitid newqueue x : Z) : list entry :=
  [ Obs (MPI_Fetch_and_op 0 MPI_INT64_T unitid
           (MPI_Aint (OFFSET_TAILPOS newqueue)) MPI_NO_OP) x;
    Obs (MPI_Win_flush_local unitid) tt ].

Definition writers_round (unitid queuenum : Z) (rt : Z * Z) : list entry :=
  [ Obs (MPI_Fetch_and_op 0 MPI_INT64_T unitid
           (MPI_Aint (OFFSET_READYPOS queuenum)) MPI_NO_OP) (fst rt);
    Obs (MPI_Fetch_and_op 0 MPI_INT64_T unitid
           (MPI_Aint (OFFSET_TAILPOS queuenum)) MPI_NO_OP) (snd rt);
    Obs (MPI_Win_flush_local unitid) tt ].

(** [tailpos = tmp + (-tailpos_sub)] of line 384. *)
Definition recovered (tailpos_sub tmp : Z) : Z :=
  wrap64 (tmp + wrap64 (- tailpos_sub)).

(** [tailpos_sub = -tailpos - INT32_MAX] of line 347. *)
Definition freeze_bias (tailpos : Z) : Z :=
  wrap64 (wrap64 (- tailpos) - INT32_MAX).

(** A window whose sub-queue 0 is active and holds exactly 2^32 claimed
    bytes: a queue opened with [openq(4080, 2^20, team)] after 2^20
    messages of full size that nobody drained. *)
Definition big_qs : Z := openq_queue_size 4080 (2 ^ 20).
Definition world_with_4GiB_pending : world :=
  {| windows :=
       [ win_store_int
           (win_store_int (fresh_window (openq_win_size big_qs)) MPI_INT64_T
              (OFFSET_TAILPOS 0) (2 ^ 32))
           MPI_INT64_T (OFFSET_READYPOS 0) (2 ^ 32) ];
     held := []; invoked := []; warned := [];
     ibarrier_count := []; barrier_waiting := []; barrier_released := [] |}.

(** The example team after unit 1 sent one message of 16 payload bytes for
    handler 7 to unit 0. *)
Definition world_one_message : world :=
  state_of
    (run 11 (mpi 1)
       (dart_amsg_sopnop_trysend 0 example_amsgq 7 (bytes_from 1 16) 16)
       example_world).

(** The events of the dispatch of one message whose header starts at [pos]
    of the sub-queue at [dbuf]: [ds] and [f] are the bytes read from its
    [data_size] and [fn] fields. *)
Definition dispatch_obs (dbuf pos : Z) (m : list Z * list Z) : list entry :=
  [ Obs (queue_load (dbuf + pos + 12) 4) (fst m);
    Obs (queue_load (dbuf + pos) 8) (snd m);
    Obs (invoke (le_decode (snd m)) (dbuf + (pos + sizeof_header))) tt ].

(** A walk over packed messages from [pos]: each message takes its header
    and as many payload bytes as its [data_size] field says. *)
Fixpoint walk (dbuf pos : Z) (msgs : list (list Z * list Z)) : list entry :=
  match msgs with
  | [] => []
  | m :: rest =>
      dispatch_obs dbuf pos m
      ++ walk dbuf (pos + sizeof_header + le_decode (fst m)) rest
  end.

Fixpoint walk_starts (pos : Z) (msgs : list (list Z * list Z)) : list Z :=
  match msgs with
  | [] => []
  | m :: rest =>
      pos :: walk_starts (pos + sizeof_header + le_decode (fst m)) rest
  end.

Fixpoint walk_end (pos : Z) (msgs : list (list Z * list Z)) : Z :=
  match msgs with
  | [] => pos
  | m :: rest => walk_end (pos + sizeof_header + le_decode (fst m)) rest
  end.

(** The handler calls of a trace, in order. *)
Definition invocations (tr : list entry) : list (Z * Z) :=
  flat_map
    (fun en =>
       match en with
       | Obs e _ =>
           match e with
           | invoke f d => [(f, d)]
           | _ => []
           end
       | Halt _ => []
       end) tr.

(** The example team after unit 1 sent a second message, of 3 payload
    bytes for handler 8. *)
Definition world_two_messages : world :=
  state_of
    (run 11 (mpi 1)
       (dart_amsg_sopnop_trysend 0 example_amsgq 8 (bytes_from 21 3) 3)
       world_one_message).

(** ** Scenarios on the example team

    Unit 0 receives; the senders are threads of unit 1. *)

Definition sender (f : Z) (payload : list Z) : thread (list dart_ret_t) :=
  spawn 1
    (r <- dart_amsg_sopnop_trysend 0 example_amsgq f payload
            (Z.of_nat (length payload));;
     Ret [r]).

(** Unit 0 calls [process] four times. *)
Definition drainer4 : thread (list dart_ret_t) :=
  spawn 0
    (r1 <- dart_amsg_sopnop_process example_amsgq;;
     r2 <- dart_amsg_sopnop_process (snd r1);;
     r3 <- dart_amsg_sopnop_process (snd r2);;
     r4 <- dart_amsg_sopnop_process (snd r3);;
     Ret [fst r1; fst r2; fst r3; fst r4]).

Definition steps (thread n : nat) : list nat := repeat thread n.

Definition seen_by {R : Type} (ths : list (thread R)) (i : nat) : list entry :=
  match nth_error ths i with
  | Some th => th_seen th
  | None => []
  end.

Definition results {R : Type} (ths : list (thread R)) : list (option R) :=
  map result_of ths.

(** The event thread [i] is at, if it is at one. *)
Definition pending {R : Type} (ths : list (thread R)) (i : nat)
  : option entry :=
  match nth_error ths i with
  | Some th =>
      match observe (skip_tau 8 (th_prog th)) with
      | VisF e _ => Some (Halt e)
      | _ => None
      end
  | None => None
  end.

(** A second team for the races: two units, [openq(64, 2, team)], so a
    message takes between 16 and 80 bytes of a sub-queue of 160. *)
Definition race_qs : Z := openq_queue_size 64 2.
Definition race_world : world := fresh_world 2 race_qs.
Definition race_amsgq : dart_amsgq_impl_data := fresh_amsgq 2 race_qs.

Definition race_sender (f : Z) (payload : list Z)
  : thread (list dart_ret_t) :=
  spawn 1
    (r <- dart_amsg_sopnop_trysend 0 race_amsgq f payload
            (Z.of_nat (length payload));;
     Ret [r]).

(** The queue holds 96 bytes; a sender reserves 80 more, which do not fit;
    before it rolls back, the drainer looks at the queue. *)
Definition overshoot_threads : list (thread (list dart_ret_t)) :=
  [ spawn 0 (r <- dart_amsg_sopnop_process race_amsgq;; Ret [fst r]);
    race_sender 1 (bytes_from 1 64);
    race_sender 2 [];
    race_sender 3 (bytes_from 101 64) ].
Definition overshoot_schedule : list nat :=
  steps 1 9 ++ steps 2 9 ++ steps 3 4 ++ steps 0 5.

(** A sender reads the selector and stalls through a drain of queue 0; it
    reserves on queue 0 between the quiesce spin of the next drain and the
    reset of [tail[0]], and rolls back after the reset, which leaves
    [tail[0] = -32] on the active sub-queue.  Then one sender reserves and
    fails, two others reserve behind it, both at offset 0, and complete;
    the first rolls back.  The drainer looks at the queue after the stalled
    sender is done, and drains it at the end. *)
Definition stale_threads : list (thread (list dart_ret_t)) :=
  [ drainer4;
    sender 7 (bytes_from 1 16);
    sender 8 (bytes_from 21 16);
    sender 9 (bytes_from 41 16);
    sender 10 (bytes_from 61 16);
    sender 11 (bytes_from 81 16);
    sender 12 (bytes_from 101 16) ].
Definition stale_schedule : list nat :=
  steps 3 2 ++ steps 1 9 ++ steps 0 21 ++ steps 2 9 ++ steps 0 7
  ++ steps 3 2 ++ steps 0 2 ++ steps 3 3 ++ steps 0 12 ++ steps 0 6.
Definition assert_schedule : list nat :=
  stale_schedule
  ++ steps 4 4 ++ steps 5 9 ++ steps 4 3 ++ steps 6 9 ++ steps 0 20.

(** Did the trace end on a failed assertion? *)
Definition is_assert_halt (en : entry) : bool :=
  match en with
  | Halt e => match e with assert_fail => true | _ => false end
  | Obs _ _ => false
  end.

Definition ends_on_assert (tr : list entry) : bool :=
  match rev tr with
  | en :: _ => is_assert_halt en
  | [] => false
  end.

(** ** Calls inside a trace *)

(** [tr] is the trace of a complete run of [t] that returned [r]. *)
Definition is_run_of {Env R : Type} (h : handler Env) (t : itree amqE R)
    (tr : list entry) (r : R) : Prop :=
  exists f s s', run f h t s = (tr, Done r, s').



(** ** The lost message

    Unit 0 drains a first batch from sub-queue 0 (handlers 1, 2, 3), then a
    second batch from sub-queue 1 (handler 4).  Sub-queue 0 is active again
    and receives two messages (handlers 5, 6; 96 bytes).  Then three
    senders race: A reserves 80 bytes, which do not fit; B reserves 16
    behind A's; A rolls back; C reserves 16 behind B's, fits, writes at
    offset 112 and returns OK; B rolls back.  At last both units call
    [process_blocking]. *)
Definition lost_threads : list (thread (list dart_ret_t)) :=
  [ spawn 0
      (r1 <- dart_amsg_sopnop_process race_amsgq;;
       r2 <- dart_amsg_sopnop_process (snd r1);;
       r3 <- dart_amsg_sopnop_process_blocking (snd r2) 0;;
       Ret [fst r1; fst r2; fst r3]);
    spawn 1
      (r <- dart_amsg_sopnop_process_blocking race_amsgq 0;; Ret [fst r]);
    race_sender 1 (bytes_from 1 64);
    race_sender 2 [];
    race_sender 3 [];
    race_sender 4 (bytes_from 41 8);
    race_sender 5 (bytes_from 51 64);
    race_sender 6 [];
    race_sender 7 (bytes_from 71 64);
    race_sender 8 [];
    race_sender 9 [] ].

Definition lost_schedule : list nat :=
  steps 2 9 ++ steps 3 9 ++ steps 4 9 ++ steps 0 27
  ++ steps 5 9 ++ steps 0 21
  ++ steps 6 9 ++ steps 7 9
  ++ steps 8 4 ++ steps 9 4 ++ steps 8 3 ++ steps 10 9 ++ steps 9 3
  ++ steps 1 4 ++ steps 0 60 ++ steps 1 20 ++ steps 0 4 ++ steps 1 4.

Definition count_invoked (w : world) (f : Z) : nat :=
  length (filter (fun i => inv_fn i =? f) (invoked w)).

(** ** Mutexes held at the end of a trace *)

Fixpoint remove_mutex (m : dart_mutex) (l : list dart_mutex)
  : list dart_mutex :=
  match l with
  | [] => []
  | x :: l' => if mutex_eqb m x then l' else x :: remove_mutex m l'
  end.

Definition mutex_effect (en : entry) (l : list dart_mutex)
  : list dart_mutex :=
  match en with
  | Obs e x =>
      match e in amqE X return X -> list dart_mutex with
      | mutex_lock m => fun _ => m :: l
      | mutex_trylock m =>
          fun r => if dart_ret_eqb r DART_OK then m :: l else l
      | mutex_unlock m => fun _ => remove_mutex m l
      | _ => fun _ => l
      end x
  | Halt _ => l
  end.

(** The mutexes held after [tr], most recent first, from [l] held before. *)
Definition mutexes_held_from (l : list dart_mutex) (tr : list entry)
  : list dart_mutex :=
  fold_left (fun l en => mutex_effect en l) tr l.

Definition mutexes_held (tr : list entry) : list dart_mutex :=
  mutexes_held_from [] tr.

(** [tr] leaves the mutexes as it found them. *)
Definition balanced (tr : list entry) : Prop :=
  forall l, mutexes_held_from l tr = l.

Definition is_mutex_entry (en : entry) : bool :=
  match en with
  | Obs e _ =>
      match e with
      | mutex_lock _ | mutex_trylock _ | mutex_unlock _ => true
      | _ => false
      end
  | Halt _ => false
  end.

Definition mutex_free (tr : list entry) : bool :=
  forallb (fun en => negb (is_mutex_entry en)) tr.



(** ** Sequential runs on the model of the windows *)

(** With [fuel] steps, [t] started in [s] returns [r] and leaves [s']. *)
Definition returns {Env R : Type} (fuel : nat) (h : handler Env)
    (t : itree amqE R) (s : Env) (r : R) (s' : Env) : Prop :=
  exists tr, run fuel h t s = (tr, Done r, s').

(** The world after the window of [target] has become [win]. *)
Definition set_window (w : world) (target : Z) (win : window) : world :=
  set_windows w (list_set (windows w) (Z.to_nat target) win).

(** A message as [try_send] and [bsend] take it: the sending unit, the
    handler and the payload bytes. *)
Record message : Type := {
  msg_sender : Z;
  msg_fn : Z;
  msg_payload : list Z
}.

Definition payload_size (m : message) : Z := Z.of_nat (length (msg_payload m)).

(** The bytes of a message in a sub-queue or in a cache: the header, then
    the payload. *)
Definition message_bytes (m : message) : list Z :=
  encode_header
    {| fn := msg_fn m; remote := msg_sender m;
       data_size := to_u32 (payload_size m) |}
  ++ msg_payload m.

Definition packed (msgs : list message) : list Z :=
  concat (map message_bytes msgs).

(** A message that the header can carry: a handler address of 64 bits,
    payload bytes, and a size that fits the [int] count of [MPI_Put]. *)
Definition message_ok (m : message) : bool :=
  (0 <=? msg_fn m) && (msg_fn m <? 2 ^ 64)
  && forallb is_byte (msg_payload m)
  && (sizeof_header + payload_size m <=? INT32_MAX).

(** The sub-queue that is not [q] ([newqueue] of the drainer). *)
Definition other_queue (q : Z) : Z := if q =? 0 then 1 else 0.

(** A window between operations: sub-queue [q] is the active one and holds
    [bytes], all of them claimed and ready; the other sub-queue is drained,
    with [late] left in its tail counter. *)
Definition quiescent (qs : Z) (win : window) (q : Z) (bytes : list Z)
    (late : Z) : Prop :=
  win_size win = openq_win_size qs /\
  queuenum_of win = q /\ (q = 0 \/ q = 1) /\
  tailpos_of win q = Z.of_nat (length bytes) /\
  readypos_of win q = Z.of_nat (length bytes) /\
  mem_load (win_mem win) (OFFSET_DATA q qs) (length bytes) = bytes /\
  tailpos_of win (other_queue q) = late /\
  readypos_of win (other_queue q) = 0.

(** The handler call that the drainer of [unit] makes for a message whose
    header starts at [pos] of the sub-queue at [dbuf]: the handler gets the
    address behind the header. *)
Definition delivery (unit dbuf pos : Z) (m : message) : invocation :=
  {| inv_unit := unit; inv_fn := msg_fn m;
     inv_data := dbuf + (pos + sizeof_header);
     inv_payload := msg_payload m |}.

Fixpoint deliveries (unit dbuf pos : Z) (msgs : list message)
  : list invocation :=
  match msgs with
  | [] => []
  | m :: rest =>
      delivery unit dbuf pos m
      :: deliveries unit dbuf (pos + sizeof_header + payload_size m) rest
  end.

Definition deliver_all (w : world) (l : list invocation) : world :=
  fold_left add_invoked l w.

(** ** Sequential use of one queue

    The calls that reach the queue of one unit, one after the other: a
    [try_send] of some unit, or a [process] of the owner. *)
Inductive queue_op : Type :=
| op_trysend (m : message)
| op_process.

Definition queue_op_ok (o : queue_op) : bool :=
  match o with
  | op_trysend m => message_ok m
  | op_process => true
  end.

(** The calls of [ops] run to completion one after the other on the model of
    the windows: the senders call [try_send] on their handle [sender_amsgq],
    the owner [target] calls [process] on its handle.  The result is the
    return codes, in order, with the owner's handle and the world at the
    end; [None] if a call does not return. *)
Fixpoint run_ops (fuel : nat) (target : Z) (sender_amsgq : dart_amsgq_impl_data)
    (ops : list queue_op) (amsgq : dart_amsgq_impl_data) (w : world)
  : option (list dart_ret_t * dart_amsgq_impl_data * world) :=
  match ops with
  | [] => Some ([], amsgq, w)
  | op_trysend m :: ops' =>
      match run fuel (mpi (msg_sender m))
              (dart_amsg_sopnop_trysend target sender_amsgq (msg_fn m)
                 (msg_payload m) (payload_size m)) w with
      | (_, Done r, w') =>
          match run_ops fuel target sender_amsgq ops' amsgq w' with
          | Some (rs, a, w'') => Some (r :: rs, a, w'')
          | None => None
          end
      | _ => None
      end
  | op_process :: ops' =>
      match run fuel (mpi target) (dart_amsg_sopnop_process amsgq) w with
      | (_, Done (r, amsgq'), w') =>
          match run_ops fuel target sender_amsgq ops' amsgq' w' with
          | Some (rs, a, w'') => Some (r :: rs, a, w'')
          | None => None
          end
      | _ => None
      end
  end.

(** A bounded first-in first-out queue of [qs] bytes: a message that fits
    behind the pending ones is accepted, any other is turned away, and
    [process] hands over the pending ones in order.  The result is the
    return codes and the messages handed over, in order. *)
Fixpoint fifo_model (qs : Z) (ops : list queue_op) (pending : list message)
  : list dart_ret_t * list message :=
  match ops with
  | [] => ([], [])
  | op_trysend m :: ops' =>
      if Z.of_nat (length (packed pending)) + sizeof_header + payload_size m
         <=? qs
      then
        let '(rs, d) := fifo_model qs ops' (pending ++ [m]) in
        (DART_OK :: rs, d)
      else
        let '(rs, d) := fifo_model qs ops' pending in
        (DART_ERR_AGAIN :: rs, d)
  | op_process :: ops' =>
      let '(rs, d) := fifo_model qs ops' [] in
      (DART_OK :: rs, pending ++ d)
  end.

(** What a handler call shows of a message: the unit that ran it, the
    handler and the payload. *)
Definition call_of (i : invocation) : Z * Z * list Z :=
  (inv_unit i, inv_fn i, inv_payload i).

Definition call_for (unit : Z) (m : message) : Z * Z * list Z :=
  (unit, msg_fn m, msg_payload m).

(** An example on the team of two units with sub-queues of 128 bytes: three
    messages that fit (32, 19 and 76 bytes), one that does not, a drain, one
    more message, and two more drains. *)
Definition fifo_example_ops : list queue_op :=
  [ op_trysend {| msg_sender := 1; msg_fn := 7; msg_payload := bytes_from 1 16 |};
    op_trysend {| msg_sender := 1; msg_fn := 8; msg_payload := bytes_from 21 3 |};
    op_trysend {| msg_sender := 0; msg_fn := 9; msg_payload := bytes_from 31 60 |};
    op_trysend {| msg_sender := 1; msg_fn := 10; msg_payload := bytes_from 41 90 |};
    op_process;
    op_trysend {| msg_sender := 1; msg_fn := 11; msg_payload := [] |};
    op_process;
    op_process ].

(** The two messages that [world_two_messages] holds for unit 0. *)
Definition example_pending : list message :=
  [ {| msg_sender := 1; msg_fn := 7; msg_payload := bytes_from 1 16 |};
    {| msg_sender := 1; msg_fn := 8; msg_payload := bytes_from 21 3 |} ].

(** ** The places a sender may touch *)

(** The four counters [tail[0]], [ready[0]], [tail[1]], [ready[1]]. *)
Definition is_counter (disp : Z) : bool :=
  existsb (Z.eqb disp)
    [ OFFSET_TAILPOS 0; OFFSET_READYPOS 0; OFFSET_TAILPOS 1; OFFSET_READYPOS 1 ].

(** [count] bytes from [disp] lie in the data area of sub-queue [q]. *)
Definition in_sub_queue (qs q disp count : Z) : bool :=
  (OFFSET_DATA q qs <=? disp) && (0 <=? count)
  && (disp + count <=? OFFSET_DATA q qs + qs).

(** What a sender to [target] may do: read the selector, add to a counter,
    put bytes inside one sub-queue, flush.  Nothing else: no write to the
    selector, no replacement of a counter, no access to another unit, no
    mutex, no handler call. *)
Definition sender_access_ok (qs target : Z) (en : entry) : bool :=
  match en with
  | Obs e _ | Halt e =>
      match e with
      | MPI_Fetch_and_op _ MPI_INT64_T t disp MPI_NO_OP =>
          (t =? target) && (disp =? OFFSET_QUEUENUM)
      | MPI_Fetch_and_op _ MPI_INT64_T t disp MPI_SUM =>
          (t =? target) && is_counter disp
      | MPI_Accumulate _ MPI_INT64_T t disp MPI_SUM =>
          (t =? target) && is_counter disp
      | MPI_Put _ count t disp =>
          (t =? target)
          && (in_sub_queue qs 0 disp count || in_sub_queue qs 1 disp count)
      | MPI_Win_flush_local t => t =? target
      | MPI_Win_flush t => t =? target
      | _ => false
      end
  end.

(** ** The caches of a handle *)

(** A cache after it has been sent: empty, with the bytes still in the
    buffer. *)
Definition emptied (c : message_cache_t) : message_cache_t :=
  {| pos := 0; buffer := buffer c |}.

(** The caches of [a] for the targets below [i] are those of [a0] emptied;
    the others are those of [a0]. *)
Definition flushed_upto (a0 a : dart_amsgq_impl_data) (i : Z) : Prop :=
  forall j, 0 <= j ->
    (j < i -> cache_slot a j = option_map emptied (cache_slot a0 j)) /\
    (i <= j -> cache_slot a j = cache_slot a0 j).

(** The cache of [a] for [target] holds [bytes]: no cache yet and nothing
    cached, or a cache of [MSGCACHE_SIZE] bytes that starts with [bytes] and
    whose [pos] is their length. *)
Definition cached (a : dart_amsgq_impl_data) (target : Z) (bytes : list Z)
  : Prop :=
  match cache_slot a target with
  | None => bytes = []
  | Some c =>
      pos c = Z.of_nat (length bytes) /\
      firstn (length bytes) (buffer c) = bytes /\
      Z.of_nat (length (buffer c)) = MSGCACHE_SIZE /\
      forallb is_byte (buffer c) = true
  end.

(** [bsend] of the messages [msgs] to [target], one call after the other,
    by unit [me]; [None] if a call does not return OK. *)
Fixpoint bsend_all (fuel : nat) (me target : Z) (msgs : list message)
    (amsgq : dart_amsgq_impl_data) (w : world)
  : option (dart_amsgq_impl_data * world) :=
  match msgs with
  | [] => Some (amsgq, w)
  | m :: rest =>
      match run fuel (mpi me)
              (dart_amsg_sopnop_bsend target amsgq (msg_fn m) (msg_payload m)
                 (payload_size m)) w with
      | (_, Done (DART_OK, amsgq'), w') =>
          bsend_all fuel me target rest amsgq' w'
      | _ => None
      end
  end.

(** No target has a cache yet, as in a handle that [openq] has just made. *)
Definition no_caches (a : dart_amsgq_impl_data) : bool :=
  forallb (fun o : option message_cache_t =>
             match o with None => true | Some _ => false end)
    (message_cache a).

(** Two small messages of unit 1, 20 and 16 bytes with their headers. *)
Definition example_batch : list message :=
  [ {| msg_sender := 1; msg_fn := 9; msg_payload := bytes_from 31 4 |};
    {| msg_sender := 1; msg_fn := 10; msg_payload := [] |} ].

(** The handle of unit 1 after it has cached [example_batch] for unit 0. *)
Definition amsgq_with_batch : dart_amsgq_impl_data :=
  match bsend_all 10 1 0 example_batch example_amsgq example_world with
  | Some (a, _) => a
  | None => example_amsgq
  end.

(** A handle of unit 1 on a team with sub-queues of 128 bytes whose cache
    for unit 0 holds 200 bytes: more than a sub-queue can take. *)
Definition amsgq_oversized_batch : dart_amsgq_impl_data :=
  {| queue_size := example_qs;
     message_cache :=
       [ Some {| pos := 200; buffer := repeat 0 (Z.to_nat MSGCACHE_SIZE) |};
         None ];
     prev_tailpos := 0 |}.

(** The events of [bsend] before it locks the cache: none when the target
    has a cache, the creation of the cache under the send mutex when it has
    none. *)
Definition bsend_alloc_obs (amsgq : dart_amsgq_impl_data) (target : Z)
  : list entry :=
  match cache_slot amsgq target with
  | Some _ => []
  | None =>
      [ Obs (mutex_lock send_mutex) tt;
        Obs (mutex_init (cache_mutex target)) tt;
        Obs (mutex_unlock send_mutex) tt ]
  end.

(** The cache that [bsend] finds or makes. *)
Definition cache_or_new (amsgq : dart_amsgq_impl_data) (target : Z)
  : message_cache_t :=
  match cache_slot amsgq target with
  | Some c => c
  | None => new_cache
  end.

(** The handle that a run returned beside its return code. *)
Definition handle_of {Env : Type}
    (x : list entry * outcome (dart_ret_t * dart_amsgq_impl_data) * Env)
    (otherwise : dart_amsgq_impl_data) : dart_amsgq_impl_data :=
  match outcome_of x with
  | Done (_, a) => a
  | _ => otherwise
  end.

(** The size of the team as the environment reported it: the answer to the
    first [MPI_Comm_size] of a trace. *)
Definition team_size_of (tr : list entry) : option Z :=
  head
    (flat_map
       (fun en =>
          match en with
          | Obs e x =>
              match e in amqE X return X -> list Z with
              | MPI_Comm_size => fun x => [x]
              | _ => fun _ => []
              end x
          | Halt _ => []
          end) tr).

(** ** The blocking drain on the model of the windows *)

(** What a unit can see of the barriers of the team: the non-blocking
    barriers entered, the units waiting in the blocking one, those released
    from it, and the size of the team. *)
Definition barrier_view (w : world)
  : list (Z * nat) * list Z * list Z * nat :=
  (ibarrier_count w, barrier_waiting w, barrier_released w,
   length (windows w)).

(** Every other unit of the team has entered the non-blocking barrier that
    [me] enters next and waits in the blocking barrier behind it. *)
Definition team_at_barrier (me : Z) (w : world) : bool :=
  forallb
    (fun u =>
       (u =? me)
       || (Nat.ltb (count_of (ibarrier_count w) me)
             (count_of (ibarrier_count w) u)
           && mem_Z u (barrier_waiting w)))
    (units w).

(** The example team with two messages pending at unit 0, when unit 1 has
    entered its barriers. *)
Definition world_at_barrier : world :=
  set_barriers world_two_messages [(1, 1%nat)] [1] [].

(** Four messages of unit 1 with 16 payload bytes each: what a queue
    opened with [openq(16, 4, team)] is sized for. *)
Definition example_full_load : list message :=
  map (fun k =>
         {| msg_sender := 1; msg_fn := 20 + k;
            msg_payload := bytes_from (10 * k) 16 |})
    [1; 2; 3; 4].

(** A cache as [bsend] allocates it: a buffer of [MSGCACHE_SIZE] bytes that
    is filled up to [pos]. *)
Definition cache_in_bounds (c : message_cache_t) : Prop :=
  0 <= pos c <= MSGCACHE_SIZE /\
  Z.of_nat (length (buffer c)) = MSGCACHE_SIZE.

(** The [n] bytes that end at [pos] of a cache. *)
Definition last_cached (c : message_cache_t) (n : Z) : list Z :=
  firstn (Z.to_nat n) (skipn (Z.to_nat (pos c - n)) (buffer c)).

(** * Properties *)

(** ** C integers *)

Lemma wrap64_id z : INT64_MIN <= z <= INT64_MAX -> wrap64 z = z.
Proof.
  unfold wrap64, INT64_MIN, INT64_MAX. intros H.
  rewrite Z.mod_small; lia.
Qed.

Lemma is_int64_spec z : is_int64 z = true <-> INT64_MIN <= z <= INT64_MAX.
Proof. unfold is_int64. rewrite andb_true_iff, !Z.leb_le. tauto. Qed.

Lemma wrap64_range z : INT64_MIN <= wrap64 z <= INT64_MAX.
Proof.
  unfold wrap64, INT64_MIN, INT64_MAX.
  pose proof (Z.mod_pos_bound (z + 2 ^ 63) (2 ^ 64) ltac:(lia)). lia.
Qed.

Lemma wrap64_eqm a b : (a - b) mod 2 ^ 64 = 0 -> wrap64 a = wrap64 b.
Proof.
  intros H. unfold wrap64. f_equal.
  apply Z.mod_divide in H; [|lia]. destruct H as [k Hk].
  replace (a + 2 ^ 63) with (b + 2 ^ 63 + k * 2 ^ 64) by lia.
  apply Z.mod_add. lia.
Qed.

Lemma wrap64_mod z : (wrap64 z - z) mod 2 ^ 64 = 0.
Proof.
  unfold wrap64.
  rewrite (Z.mod_eq (z + 2 ^ 63) (2 ^ 64)) by lia.
  replace (z + 2 ^ 63 - 2 ^ 64 * ((z + 2 ^ 63) / 2 ^ 64) - 2 ^ 63 - z)
    with ((- ((z + 2 ^ 63) / 2 ^ 64)) * 2 ^ 64) by lia.
  apply Z.mod_mul. lia.
Qed.

Lemma wrap64_add_l a b : wrap64 (wrap64 a + b) = wrap64 (a + b).
Proof.
  apply wrap64_eqm.
  replace (wrap64 a + b - (a + b)) with (wrap64 a - a) by lia.
  apply wrap64_mod.
Qed.

Lemma wrap64_add_r a b : wrap64 (a + wrap64 b) = wrap64 (a + b).
Proof. rewrite Z.add_comm, wrap64_add_l. f_equal. lia. Qed.

(** ** Running programs *)

Lemma observe_bind_cases {R U} (t : itree amqE R) (k : R -> itree amqE U) :
  observe (ITree.bind t k) =
  match observe t with
  | RetF r => observe (k r)
  | TauF t' => TauF (ITree.bind t' k)
  | VisF e h => VisF e (fun x => ITree.bind (h x) k)
  end.
Proof.
  change (observe (ITree.bind t k))
    with (observe
            (match observe t with
             | RetF r => k r
             | TauF t' => Tau (ITree.bind t' k)
             | VisF e h => Vis e (fun x => ITree.bind (h x) k)
             end)).
  destruct (observe t); reflexivity.
Qed.

Section Run.
Context {Env : Type} (h : handler Env).

Lemma run_ret {R} f (r : R) s : run (S f) h (Ret r) s = ([], Done r, s).
Proof. reflexivity. Qed.

Lemma run_tau {R} f (t : itree amqE R) s :
  run (S f) h (Tau t) s = run f h t s.
Proof. reflexivity. Qed.

Lemma run_bind_ret {R U} f (x : R) (k : R -> itree amqE U) s :
  run f h (ITree.bind (Ret x) k) s = run f h (k x) s.
Proof. destruct f; reflexivity. Qed.

Lemma run_iter {I R} f (body : I -> itree amqE (I + R)) i s :
  run f h (ITree.iter body i) s =
  run f h
    (ITree.bind (body i)
       (fun lr => match lr with
                  | inl l => Tau (ITree.iter body l)
                  | inr r => Ret r
                  end)) s.
Proof. destruct f; reflexivity. Qed.

Lemma run_trigger {X R} f (e : amqE X) (k : X -> itree amqE R) s :
  run (S f) h (ITree.bind (ITree.trigger e) k) s =
  match h _ e s with
  | Answer x s' =>
      let '(tr, o, s'') := run f h (k x) s' in (Obs e x :: tr, o, s'')
  | Blocked s' => ([Halt e], Stopped, s')
  | Crashed => ([Halt e], Stopped, s)
  end.
Proof.
  cbn. destruct (h X e s); try reflexivity.
  change (ITree.subst k (Ret x)) with (ITree.bind (Ret x) k).
  rewrite run_bind_ret. reflexivity.
Qed.

Lemma run_bind_bind {R U V} f (t : itree amqE R) (k : R -> itree amqE U)
    (k' : U -> itree amqE V) s :
  run f h (ITree.bind (ITree.bind t k) k') s =
  run f h (ITree.bind t (fun x => ITree.bind (k x) k')) s.
Proof.
  revert t s. induction f as [|f IH]; intros t s; [reflexivity|].
  unfold run; fold (@run Env V).
  rewrite !observe_bind_cases.
  destruct (observe t) as [r|t'|X e k0]; cbn.
  - rewrite observe_bind_cases. reflexivity.
  - apply IH.
  - destruct (h X e s); try reflexivity. rewrite IH. reflexivity.
Qed.

Lemma run_unfold {R} f (t : itree amqE R) s :
  run (S f) h t s =
  match observe t with
  | RetF r => ([], Done r, s)
  | TauF t' => run f h t' s
  | VisF e k =>
      match h _ e s with
      | Answer x s' =>
          let '(tr, o, s'') := run f h (k x) s' in (Obs e x :: tr, o, s'')
      | Blocked s' => ([Halt e], Stopped, s')
      | Crashed => ([Halt e], Stopped, s)
      end
  end.
Proof. reflexivity. Qed.

(** More fuel does not change a run that came to an end. *)
Lemma run_mono {R} f f' (t : itree amqE R) s tr o s' :
  run f h t s = (tr, o, s') -> o <> OutOfFuel -> (f <= f')%nat ->
  run f' h t s = (tr, o, s').
Proof.
  revert f' t s tr o s'. induction f as [|f IH]; intros f' t s tr o s' H Ho Hle.
  - cbn in H. inversion H; subst. congruence.
  - destruct f' as [|f']; [lia|].
    rewrite run_unfold in *.
    destruct (observe t) as [r|t'|X e k]; auto.
    + apply IH; auto. lia.
    + destruct (h X e s) as [x s1| |]; auto.
      destruct (run f h (k x) s1) as [[tr1 o1] s2] eqn:E.
      inversion H; subst.
      rewrite (IH f' _ _ _ _ _ E Ho ltac:(lia)). reflexivity.
Qed.

(** A run of [t >>= k] that came to an end is a run of [t], followed, if
    [t] returned, by a run of [k]. *)
Lemma run_bind_inv {R U} f (t : itree amqE R) (k : R -> itree amqE U)
    s tr o s' :
  run f h (ITree.bind t k) s = (tr, o, s') -> o <> OutOfFuel ->
  (exists tr1 x s1 tr2,
      run f h t s = (tr1, Done x, s1) /\
      run f h (k x) s1 = (tr2, o, s') /\ tr = tr1 ++ tr2) \/
  (o = Stopped /\ run f h t s = (tr, Stopped, s')).
Proof.
  revert t s tr. induction f as [|f IH]; intros t s tr H Ho.
  - cbn in H. inversion H; subst. congruence.
  - rewrite run_unfold in H. rewrite observe_bind_cases in H.
    rewrite (run_unfold f t).
    destruct (observe t) as [r|t'|X e k0].
    + left. exists [], r, s, tr. split; [reflexivity|]. split; [|reflexivity].
      rewrite run_unfold. exact H.
    + destruct (IH _ _ _ H Ho) as [(tr1 & x & s1 & tr2 & H1 & H2 & ->)|[-> H1]].
      * left. exists tr1, x, s1, tr2. repeat split; auto.
        eapply run_mono; eauto.
      * right. auto.
    + destruct (h X e s) as [x s1|s1|].
      * destruct (run f h (ITree.bind (k0 x) k) s1) as [[tr0 o0] s0] eqn:E.
        inversion H; subst.
        destruct (IH _ _ _ E Ho) as [(tr1 & y & s2 & tr2 & H1 & H2 & ->)|[-> H1]].
        -- left. exists (Obs e x :: tr1), y, s2, tr2. rewrite H1.
           repeat split; auto. eapply run_mono; eauto.
        -- right. rewrite H1. auto.
      * inversion H; subst. right. auto.
      * inversion H; subst. right. auto.
Qed.

(** A run of a loop that came to an end is a run of its body, followed,
    if the body asked for another turn, by a run of the loop. *)
Lemma run_iter_inv {I R} f (body : I -> itree amqE (I + R)) i s tr o s' :
  run f h (ITree.iter body i) s = (tr, o, s') -> o <> OutOfFuel ->
  (exists tr1 lr s1 tr2,
      run f h (body i) s = (tr1, Done lr, s1) /\ tr = tr1 ++ tr2 /\
      match lr with
      | inr r => o = Done r /\ tr2 = [] /\ s' = s1
      | inl i' =>
          exists f', (f' < f)%nat /\
                     run f' h (ITree.iter body i') s1 = (tr2, o, s')
      end) \/
  (o = Stopped /\ run f h (body i) s = (tr, Stopped, s')).
Proof.
  intros H Ho. rewrite run_iter in H.
  destruct (run_bind_inv _ _ _ _ _ _ _ H Ho)
    as [(tr1 & lr & s1 & tr2 & H1 & H2 & ->)|[-> H1]]; [left|right; auto].
  exists tr1, lr, s1, tr2. repeat split; auto.
  destruct lr as [i'|r].
  - destruct f as [|f]; [cbn in H2; inversion H2; subst; congruence|].
    rewrite run_tau in H2. exists f. split; [lia|assumption].
  - destruct f as [|f]; [cbn in H2; inversion H2; subst; congruence|].
    rewrite run_ret in H2. inversion H2; subst. auto.
Qed.

Lemma run_trigger_inv {X R} f (e : amqE X) (k : X -> itree amqE R)
    s tr r s' :
  run f h (ITree.bind (ITree.trigger e) k) s = (tr, Done r, s') ->
  exists x s1 tr',
    h _ e s = Answer x s1 /\ tr = Obs e x :: tr' /\
    run (Nat.pred f) h (k x) s1 = (tr', Done r, s').
Proof.
  destruct f as [|f]; [cbn; intros H; inversion H|].
  rewrite run_trigger. destruct (h X e s) as [x s1|s1|]; try (intros H; inversion H; fail).
  destruct (run f h (k x) s1) as [[tr1 o1] s2] eqn:E. intros H; inversion H; subst.
  exists x, s1, tr1. auto.
Qed.
End Run.

(** ** The sender path *)

Section RunMore.
Context {Env : Type} (h : handler Env).

Lemma run_bind_iter {I R U} f (body : I -> itree amqE (I + R)) i
    (k : R -> itree amqE U) s :
  run f h (ITree.bind (ITree.iter body i) k) s =
  run f h
    (ITree.bind (body i)
       (fun lr =>
          ITree.bind
            (match lr with
             | inl l => Tau (ITree.iter body l)
             | inr r => Ret r
             end) k)) s.
Proof.
  rewrite <- run_bind_bind.
  destruct f; [reflexivity|].
  rewrite !run_unfold.
  rewrite (observe_bind_cases (ITree.iter body i) k).
  rewrite (observe_bind_cases (ITree.bind (body i) _) k).
  reflexivity.
Qed.

Lemma run_ret_inv {R} f (r : R) s tr o s' :
  run f h (Ret r) s = (tr, o, s') -> o <> OutOfFuel ->
  tr = [] /\ o = Done r /\ s' = s.
Proof.
  destruct f; cbn; intros H Ho; inversion H; subst; auto. congruence.
Qed.

Lemma run_assert_inv {R} f b (k : unit -> itree amqE R) s tr r s' :
  run f h (ITree.bind (DART_ASSERT b) k) s = (tr, Done r, s') ->
  b = true /\ run f h (k tt) s = (tr, Done r, s').
Proof.
  destruct b; cbn [DART_ASSERT].
  - rewrite run_bind_ret. auto.
  - rewrite run_bind_bind. intros H.
    apply run_trigger_inv in H. destruct H as (x & _). destruct x.
Qed.
End RunMore.

Ltac run_step H :=
  first
    [ rewrite run_bind_bind in H
    | rewrite run_bind_iter in H
    | rewrite run_iter in H
    | rewrite run_bind_ret in H
    | let x := fresh "x" in
      let s := fresh "s" in
      let tr := fresh "tr" in
      let Hh := fresh "Hh" in
      apply run_trigger_inv in H;
      destruct H as (x & s & tr & Hh & -> & H)
    | let Hb := fresh "Hb" in
      apply run_assert_inv in H; destruct H as [Hb H] ].

Ltac run_done H :=
  let E := fresh "E" in
  apply run_ret_inv in H; [|discriminate];
  destruct H as (-> & E & ->); inversion E; subst; clear E.

Ltac unit_answers :=
  repeat match goal with x : unit |- _ => destruct x end.

Lemma sendbuf_run_inv {Env} (h : handler Env) f target amsgq data n s tr r s' :
  run f h (dart_amsg_sopnop_sendbuf target amsgq data n) s = (tr, Done r, s') ->
  exists q off,
    (q = 0 \/ q = 1) /\
    tr = sendbuf_reserve_obs target (wrap64 n) q off ++
         (if reservation_fits (queue_size amsgq) (wrap64 n) off
          then sendbuf_commit_obs target (queue_size amsgq) data n q off
          else sendbuf_rollback_obs target (wrap64 n) q) /\
    r = (if reservation_fits (queue_size amsgq) (wrap64 n) off
         then DART_OK else DART_ERR_AGAIN).
Proof.
  unfold dart_amsg_sopnop_sendbuf, sendbuf_reserve. intros H.
  repeat run_step H.
  exists x, x1. unfold reservation_fits.
  split.
  { apply orb_true_iff in Hb. rewrite !Z.eqb_eq in Hb. exact Hb. }
  destruct ((0 <=? x1) && (to_u64 (wrap64 (x1 + wrap64 n)) <=? queue_size amsgq)).
  - repeat run_step H. run_done H. unit_answers. split; reflexivity.
  - repeat run_step H. run_done H. unit_answers. split; reflexivity.
Qed.

Lemma outcome_of_cons {R Env} (en : entry)
    (x : list entry * outcome R * Env) :
  outcome_of (let '(tr, o, s) := x in (en :: tr, o, s)) = outcome_of x.
Proof. destruct x as [[tr o] s]. reflexivity. Qed.

Ltac run_fwd :=
  repeat first
    [ rewrite run_bind_bind
    | rewrite run_bind_iter
    | rewrite run_bind_ret
    | rewrite run_trigger
    | rewrite outcome_of_cons
    | rewrite run_ret
    | match goal with
      | |- context [match ?h ?X ?e ?s with _ => _ end] =>
          match type of h with handler _ => idtac end;
          let x := fresh "x" in
          destruct (h X e s) as [x ?|?|];
          [try (exfalso; destruct x; fail)| |]
      end ].

Lemma sendbuf_ends {Env} (h : handler Env) f target amsgq data n s :
  (10 <= f)%nat ->
  outcome_of (run f h (dart_amsg_sopnop_sendbuf target amsgq data n) s)
  <> OutOfFuel.
Proof.
  intros Hf.
  do 10 (destruct f as [|f]; [lia|]). clear Hf.
  unfold dart_amsg_sopnop_sendbuf, sendbuf_reserve.
  run_fwd; try (cbn; discriminate).
  destruct ((x =? 0) || (x =? 1)); cbn [DART_ASSERT];
    run_fwd; try (cbn; discriminate).
  destruct ((0 <=? x1) && (to_u64 (wrap64 (x1 + wrap64 n)) <=? queue_size amsgq));
    run_fwd; cbn; discriminate.
Qed.

(** ** Bytes *)

Lemma le_decode_encode n v :
  le_decode (le_encode n v) = v mod 256 ^ Z.of_nat n.
Proof.
  revert v. induction n as [|n IH]; intros v.
  - cbn. rewrite Z.mod_1_r. reflexivity.
  - cbn [le_encode le_decode]. rewrite IH.
    rewrite Nat2Z.inj_succ, Z.pow_succ_r by lia.
    rewrite Z.rem_mul_r by lia. reflexivity.
Qed.

Lemma le_encode_length n v : length (le_encode n v) = n.
Proof. revert v. induction n; intros v; cbn; auto. Qed.

Lemma le_encode_bytes n v : forallb is_byte (le_encode n v) = true.
Proof.
  revert v. induction n as [|n IH]; intros v; cbn; [reflexivity|].
  rewrite IH, andb_true_r. unfold is_byte.
  pose proof (Z.mod_pos_bound v 256 ltac:(lia)).
  apply andb_true_iff. rewrite Z.leb_le, Z.ltb_lt. lia.
Qed.

(** What the drainer decodes from a header is what the sender encoded: the
    header that [try_send] and [bsend] lay down in front of the payload
    reads back field by field. *)
Lemma decode_encode_header h payload :
  0 <= fn h < 2 ^ 64 ->
  - 2 ^ 31 <= remote h <= INT32_MAX ->
  0 <= data_size h < 2 ^ 32 ->
  decode_header (encode_header h ++ payload) = h.
Proof.
  intros Hfn Hrem Hds. destruct h as [f r d]. cbn [fn remote data_size] in *.
  unfold decode_header, encode_header, slice. cbn [fn remote data_size].
  set (rest := le_encode 4 r ++ le_encode 4 d).
  assert (E1 : firstn 8 (skipn 0 ((le_encode 8 f ++ rest) ++ payload))
               = le_encode 8 f) by reflexivity.
  assert (E2 : firstn 4 (skipn 8 ((le_encode 8 f ++ rest) ++ payload))
               = le_encode 4 r) by reflexivity.
  assert (E3 : firstn 4 (skipn 12 ((le_encode 8 f ++ rest) ++ payload))
               = le_encode 4 d) by reflexivity.
  rewrite E1, E2, E3, !le_decode_encode.
  change (256 ^ Z.of_nat 8) with (2 ^ 64).
  change (256 ^ Z.of_nat 4) with (2 ^ 32).
  rewrite (Z.mod_small f) by lia. rewrite (Z.mod_small d) by lia.
  f_equal. unfold wrap32, INT32_MAX in *.
  destruct (Z_lt_le_dec r 0) as [Hneg|Hpos].
  - rewrite <- (Z.mod_add r 1 (2 ^ 32)) by lia.
    rewrite (Z.mod_small (r + 1 * 2 ^ 32)) by lia.
    replace (r + 1 * 2 ^ 32 + 2 ^ 31) with (r + 2 ^ 31 + 1 * 2 ^ 32) by lia.
    rewrite Z.mod_add by lia. rewrite Z.mod_small by lia. lia.
  - rewrite (Z.mod_small r) by lia. rewrite Z.mod_small by lia. lia.
Qed.

Lemma to_u64_wrap64 z : to_u64 (wrap64 z) = z mod 2 ^ 64.
Proof.
  unfold to_u64. pose proof (wrap64_mod z) as H.
  apply Z.mod_divide in H; [|lia]. destruct H as [k Hk].
  replace (wrap64 z) with (z + k * 2 ^ 64) by lia.
  apply Z.mod_add. lia.
Qed.

Lemma reservation_fits_spec qs n off :
  0 <= n <= INT64_MAX -> INT64_MIN <= off <= INT64_MAX ->
  reservation_fits qs (wrap64 n) off = true <-> 0 <= off /\ off + n <= qs.
Proof.
  intros Hn Hoff. unfold reservation_fits.
  rewrite (wrap64_id n) by (unfold INT64_MIN, INT64_MAX in *; lia).
  rewrite andb_true_iff, !Z.leb_le, to_u64_wrap64.
  split.
  - intros [H0 H1]. rewrite Z.mod_small in H1; unfold INT64_MAX in *; lia.
  - intros [H0 H1]. rewrite Z.mod_small; unfold INT64_MAX in *; lia.
Qed.

Lemma wrap32_id z : - 2 ^ 31 <= z <= INT32_MAX -> wrap32 z = z.
Proof.
  unfold wrap32, INT32_MAX. intros H. rewrite Z.mod_small; lia.
Qed.

Lemma OFFSET_DATA_simpl qs q off :
  (q = 0 \/ q = 1) -> 0 <= qs -> 2 * qs + 40 <= INT64_MAX ->
  0 <= off <= qs ->
  MPI_Aint (to_u64 (OFFSET_DATA q qs + off)) = data_disp qs q off.
Proof.
  intros Hq Hqs Hw Hoff. unfold MPI_Aint, OFFSET_DATA, data_disp.
  change (OFFSET_READYPOS 1) with 32.
  unfold to_u64, INT64_MAX in *.
  assert (0 <= q * qs <= qs) by (destruct Hq; subst; lia).
  rewrite (Z.mod_small (32 + 8 + q * qs)) by lia.
  rewrite Z.mod_small by lia.
  rewrite wrap64_id; unfold INT64_MIN, INT64_MAX; lia.
Qed.

Lemma wt_trace_app a b : wt_trace (a ++ b) = wt_trace a && wt_trace b.
Proof. apply forallb_app. Qed.

(** C2: [send_buffer(target, buf, n)] returns OK exactly when the offset it
    fetched satisfies [offset >= 0] and [offset + n <= Q].  In that case,
    with [q] the selector it read, its events after the reservation are, in
    this order: the put of [buf] at [data[q] + offset] of the target's
    window, a remote flush, the addition of [n] to [ready[q]], and a second
    remote flush.  The call always ends within ten events. *)
Theorem sendbuf_ok_iff_reservation_fits {Env} (h : handler Env) fuel target amsgq
    data n s :
  (10 <= fuel)%nat ->
  0 <= n <= INT64_MAX ->
  let res := run fuel h (dart_amsg_sopnop_sendbuf target amsgq data n) s in
  let Q := queue_size amsgq in
  wt_trace (trace_of res) = true ->
  outcome_of res <> OutOfFuel /\
  forall r, outcome_of res = Done r ->
    exists q off rest,
      (q = 0 \/ q = 1) /\
      trace_of res = sendbuf_reserve_obs target n q off ++ rest /\
      (r = DART_OK <-> 0 <= off /\ off + n <= Q) /\
      (r = DART_OK ->
         rest =
           [ Obs (MPI_Put data (wrap32 n) target
                    (MPI_Aint (to_u64 (OFFSET_DATA q Q + off)))) tt;
             Obs (MPI_Win_flush target) tt;
             Obs (MPI_Accumulate n MPI_INT64_T target (MPI_Aint (OFFSET_READYPOS q))
                    MPI_SUM) tt;
             Obs (MPI_Win_flush target) tt ] /\
         (n <= INT32_MAX -> wrap32 n = n) /\
         (0 <= Q -> 2 * Q + 40 <= INT64_MAX ->
          MPI_Aint (to_u64 (OFFSET_DATA q Q + off)) = data_disp Q q off)).
Proof.
  intros Hf Hn res Q Hwt. split.
  - apply sendbuf_ends. exact Hf.
  - intros r Hr. subst res.
    destruct (run fuel h (dart_amsg_sopnop_sendbuf target amsgq data n) s)
      as [[tr o] s'] eqn:E.
    cbn in Hr, Hwt |- *. subst o.
    apply sendbuf_run_inv in E. destruct E as (q & off & Hq & Htr & Hres).
    assert (Hw : wrap64 n = n)
      by (apply wrap64_id; unfold INT64_MIN, INT64_MAX in *; lia).
    rewrite Hw in *.
    assert (Hoff : INT64_MIN <= off <= INT64_MAX).
    { subst tr. rewrite wt_trace_app in Hwt. apply andb_true_iff in Hwt.
      destruct Hwt as [Hwt _]. cbn in Hwt.
      rewrite !andb_true_iff in Hwt. apply is_int64_spec. tauto. }
    pose proof (reservation_fits_spec Q n off Hn Hoff) as Hfit.
    rewrite Hw in Hfit. fold Q in Htr, Hres.
    exists q, off.
    destruct (reservation_fits Q n off) eqn:Efit.
    + exists (sendbuf_commit_obs target Q data n q off).
      split; [exact Hq|]. split; [exact Htr|]. split.
      * subst r. split; [intros _; apply Hfit; reflexivity|reflexivity].
      * intros _. split.
        -- unfold sendbuf_commit_obs. rewrite Hw. reflexivity.
        -- split.
           ++ intros Hi. apply wrap32_id. unfold INT32_MAX in *. lia.
           ++ intros HQ Hwin. apply OFFSET_DATA_simpl; auto.
              destruct Hfit as [Hfit _]. specialize (Hfit eq_refl). lia.
    + exists (sendbuf_rollback_obs target n q).
      split; [exact Hq|]. split; [exact Htr|]. split.
      * subst r. split; [discriminate|].
        intros H. apply Hfit in H. discriminate.
      * subst r. discriminate.
Qed.

Lemma sendbuf_ok_iff_reservation_fits_witness :
  let res :=
    run 10 (mpi 1)
      (dart_amsg_sopnop_sendbuf 0 example_amsgq (bytes_from 1 19) 19)
      example_world in
  outcome_of res = Done DART_OK /\
  tailpos_of (window_at (state_of res) 0) 0 = 19 /\
  readypos_of (window_at (state_of res) 0) 0 = 19 /\
  mem_load (win_mem (window_at (state_of res) 0)) (data_disp example_qs 0 0) 19
    = bytes_from 1 19 /\
  (outcome_of res <> OutOfFuel /\
   forall r, outcome_of res = Done r ->
     exists q off rest,
       (q = 0 \/ q = 1) /\
       trace_of res = sendbuf_reserve_obs 0 19 q off ++ rest /\
       (r = DART_OK <-> 0 <= off /\ off + 19 <= queue_size example_amsgq) /\
       (r = DART_OK ->
          rest =
            [ Obs (MPI_Put (bytes_from 1 19) (wrap32 19) 0
                     (MPI_Aint
                        (to_u64
                           (OFFSET_DATA q (queue_size example_amsgq) + off))))
                tt;
              Obs (MPI_Win_flush 0) tt;
              Obs (MPI_Accumulate 19 MPI_INT64_T 0 (MPI_Aint (OFFSET_READYPOS q)) MPI_SUM)
                tt;
              Obs (MPI_Win_flush 0) tt ] /\
          (19 <= INT32_MAX -> wrap32 19 = 19) /\
          (0 <= queue_size example_amsgq ->
           2 * queue_size example_amsgq + 40 <= INT64_MAX ->
           MPI_Aint (to_u64 (OFFSET_DATA q (queue_size example_amsgq) + off))
           = data_disp (queue_size example_amsgq) q off))).
Proof.
  intros res.
  split; [vm_compute; reflexivity|].
  split; [vm_compute; reflexivity|].
  split; [vm_compute; reflexivity|].
  split; [vm_compute; reflexivity|].
  apply (sendbuf_ok_iff_reservation_fits (mpi 1) 10 0 example_amsgq
           (bytes_from 1 19) 19 example_world).
  - lia.
  - unfold INT64_MAX. lia.
  - vm_compute. reflexivity.
Defined.

Lemma accumulate_all_wrap v ds :
  wrap64 (accumulate_all v ds) = wrap64 (v + fold_right Z.add 0 ds).
Proof.
  revert v. induction ds as [|d ds IH]; intros v; cbn.
  - f_equal. lia.
  - unfold accumulate_all in IH. rewrite IH. cbn.
    rewrite wrap64_add_l. f_equal. lia.
Qed.

Lemma accumulate_all_int64 v ds :
  is_int64 v = true -> wrap64 (accumulate_all v ds) = accumulate_all v ds.
Proof.
  intros Hv. destruct ds as [|d ds] using rev_ind.
  - cbn. apply wrap64_id. apply is_int64_spec. exact Hv.
  - unfold accumulate_all. rewrite fold_left_app. cbn.
    apply wrap64_id. apply wrap64_range.
Qed.

(** C3: when [send_buffer] returns ERR_AGAIN its events were, in this order:
    the read of the selector, the addition of [n] to [tail[q]], the addition
    of [-n] to the same [tail[q]] and a remote flush.  There is no put, no
    update of [ready[q]] and no second reservation.  Whatever the other
    senders add to [tail[q]] in between, the counter ends where their
    additions alone would have left it. *)
Theorem sendbuf_again_rolls_back {Env} (h : handler Env) fuel target amsgq
    data n s :
  0 <= n <= INT64_MAX ->
  let res := run fuel h (dart_amsg_sopnop_sendbuf target amsgq data n) s in
  outcome_of res = Done DART_ERR_AGAIN ->
  exists q off,
    (q = 0 \/ q = 1) /\
    trace_of res =
      [ Obs (MPI_Fetch_and_op 0 MPI_INT64_T target (MPI_Aint OFFSET_QUEUENUM)
               MPI_NO_OP) q;
        Obs (MPI_Win_flush_local target) tt;
        Obs (MPI_Fetch_and_op n MPI_INT64_T target
               (MPI_Aint (OFFSET_TAILPOS q)) MPI_SUM) off;
        Obs (MPI_Win_flush_local target) tt;
        Obs (MPI_Accumulate (- n) MPI_INT64_T target (MPI_Aint (OFFSET_TAILPOS q))
               MPI_SUM) tt;
        Obs (MPI_Win_flush target) tt ] /\
    forall v others,
      is_int64 v = true ->
      apply_op MPI_INT64_T MPI_SUM
        (accumulate_all (apply_op MPI_INT64_T MPI_SUM v n) others) (- n)
      = accumulate_all v others.
Proof.
  intros Hn res Hr. subst res.
  destruct (run fuel h (dart_amsg_sopnop_sendbuf target amsgq data n) s)
    as [[tr o] s'] eqn:E.
  cbn in Hr |- *. subst o.
  apply sendbuf_run_inv in E. destruct E as (q & off & Hq & Htr & Hres).
  assert (Hw : wrap64 n = n)
    by (apply wrap64_id; unfold INT64_MIN, INT64_MAX in *; lia).
  assert (Hw' : wrap64 (- n) = - n)
    by (apply wrap64_id; unfold INT64_MIN, INT64_MAX in *; lia).
  rewrite Hw in *.
  exists q, off. split; [exact Hq|].
  destruct (reservation_fits (queue_size amsgq) n off); [discriminate|].
  split.
  - subst tr. unfold sendbuf_reserve_obs, sendbuf_rollback_obs.
    rewrite Hw'. reflexivity.
  - intros v others Hv. cbn [apply_op dt_wrap].
    rewrite <- (accumulate_all_int64 v others Hv).
    rewrite <- (wrap64_add_l (accumulate_all (wrap64 (v + n)) others)).
    rewrite !accumulate_all_wrap.
    generalize (fold_right Z.add 0 others). intros F.
    rewrite wrap64_add_l.
    replace (wrap64 (v + n) + F + - n)
      with (wrap64 (v + n) + (F - n)) by ring.
    rewrite wrap64_add_l. f_equal. ring.
Qed.

Lemma sendbuf_again_rolls_back_witness :
  let res :=
    run 10 (mpi 1)
      (dart_amsg_sopnop_sendbuf 0 example_amsgq (bytes_from 1 200) 200)
      example_world in
  tailpos_of (window_at (state_of res) 0) 0 = 0 /\
  readypos_of (window_at (state_of res) 0) 0 = 0 /\
  exists q off,
    (q = 0 \/ q = 1) /\
    trace_of res =
      [ Obs (MPI_Fetch_and_op 0 MPI_INT64_T 0 (MPI_Aint OFFSET_QUEUENUM)
               MPI_NO_OP) q;
        Obs (MPI_Win_flush_local 0) tt;
        Obs (MPI_Fetch_and_op 200 MPI_INT64_T 0
               (MPI_Aint (OFFSET_TAILPOS q)) MPI_SUM) off;
        Obs (MPI_Win_flush_local 0) tt;
        Obs (MPI_Accumulate (- 200) MPI_INT64_T 0 (MPI_Aint (OFFSET_TAILPOS q))
               MPI_SUM) tt;
        Obs (MPI_Win_flush 0) tt ] /\
    forall v others,
      is_int64 v = true ->
      apply_op MPI_INT64_T MPI_SUM
        (accumulate_all (apply_op MPI_INT64_T MPI_SUM v 200) others) (- 200)
      = accumulate_all v others.
Proof.
  intros res.
  split; [vm_compute; reflexivity|].
  split; [vm_compute; reflexivity|].
  apply (sendbuf_again_rolls_back (mpi 1) 10 0 example_amsgq
           (bytes_from 1 200) 200 example_world).
  - unfold INT64_MAX. lia.
  - vm_compute. reflexivity.
Defined.

(** C7, what the code does instead: [try_send] does not compare
    [data_size] with a per-message limit (the handle does not even keep
    [max_msg_size]); it has no assertion on the size and never returns
    ERR_INVAL.  It hands [sizeof(header) + data_size] bytes to [send_buffer]
    and returns OK exactly when the reservation fits,
    [offset >= 0] and [offset + sizeof(header) + data_size <= Q], in which
    case the message is put into the target's queue; otherwise it returns
    ERR_AGAIN. *)
Theorem trysend_accepts_what_fits {Env} (h : handler Env) fuel target amsgq
    fn data data_size s :
  (11 <= fuel)%nat ->
  0 <= data_size ->
  sizeof_header + data_size <= INT64_MAX ->
  let res :=
    run fuel h (dart_amsg_sopnop_trysend target amsgq fn data data_size) s in
  let Q := queue_size amsgq in
  let n := sizeof_header + data_size in
  wt_trace (trace_of res) = true ->
  outcome_of res <> OutOfFuel /\
  forall r, outcome_of res = Done r ->
    (r = DART_OK \/ r = DART_ERR_AGAIN) /\
    exists me q off rest,
      (q = 0 \/ q = 1) /\
      trace_of res =
        Obs dart_myid me :: sendbuf_reserve_obs target n q off ++ rest /\
      (r = DART_OK <-> 0 <= off /\ off + n <= Q) /\
      (r = DART_OK ->
         rest =
           [ Obs (MPI_Put
                    (encode_header
                       {| fn := fn; remote := me;
                          data_size := to_u32 data_size |}
                       ++ firstn (Z.to_nat data_size) data)
                    (wrap32 n) target
                    (MPI_Aint (to_u64 (OFFSET_DATA q Q + off)))) tt;
             Obs (MPI_Win_flush target) tt;
             Obs (MPI_Accumulate n MPI_INT64_T target (MPI_Aint (OFFSET_READYPOS q))
                    MPI_SUM) tt;
             Obs (MPI_Win_flush target) tt ]).
Proof.
  intros Hf Hds Hn res Q n Hwt.
  assert (Hsz : to_u64 (wrap64 (to_u64 (sizeof_header + data_size))) = n).
  { unfold to_u64, sizeof_header, INT64_MAX in *.
    rewrite (Z.mod_small (16 + data_size)) by lia.
    rewrite wrap64_id by (unfold INT64_MIN, INT64_MAX; lia).
    rewrite Z.mod_small; unfold n, sizeof_header; lia. }
  assert (Hn' : 0 <= n <= INT64_MAX) by (unfold n, sizeof_header in *; lia).
  assert (Hw : wrap64 n = n)
    by (apply wrap64_id; unfold INT64_MIN, INT64_MAX in *; lia).
  subst res. unfold dart_amsg_sopnop_trysend in *. rewrite Hsz in *.
  destruct fuel as [|fuel]; [lia|].
  rewrite run_trigger in *.
  destruct (h Z dart_myid s) as [me s1|s1|];
    [|cbn; split; intros; discriminate..].
  pose proof (sendbuf_ends h fuel target amsgq
    (encode_header {| fn := fn; remote := me; data_size := to_u32 data_size |}
       ++ firstn (Z.to_nat data_size) data) n s1 ltac:(lia)) as Hend.
  destruct (run fuel h _ s1) as [[tr o] s2] eqn:E.
  cbn in Hwt, Hend |- *.
  apply andb_true_iff in Hwt. destruct Hwt as [_ Hwt].
  split; [exact Hend|].
  intros r Hr. subst o.
  apply sendbuf_run_inv in E. destruct E as (q & off & Hq & Htr & Hres).
  rewrite Hw in *. fold Q in Htr, Hres.
  assert (Hoff : INT64_MIN <= off <= INT64_MAX).
  { subst tr. rewrite wt_trace_app in Hwt. apply andb_true_iff in Hwt.
    destruct Hwt as [Hwt _]. cbn in Hwt.
    rewrite !andb_true_iff in Hwt. apply is_int64_spec. tauto. }
  pose proof (reservation_fits_spec Q n off Hn' Hoff) as Hfit.
  rewrite Hw in Hfit.
  destruct (reservation_fits Q n off) eqn:Efit; subst r.
  - split; [left; reflexivity|].
    exists me, q, off. eexists. split; [exact Hq|].
    split; [rewrite Htr; reflexivity|]. split.
    + split; [intros _; apply Hfit; reflexivity|reflexivity].
    + intros _. unfold sendbuf_commit_obs. rewrite Hw. reflexivity.
  - split; [right; reflexivity|].
    exists me, q, off. eexists. split; [exact Hq|].
    split; [rewrite Htr; reflexivity|]. split.
    + split; [discriminate|]. intros H. apply Hfit in H. discriminate.
    + discriminate.
Qed.

Lemma trysend_accepts_what_fits_witness :
  let res :=
    run 11 (mpi 1)
      (dart_amsg_sopnop_trysend 0 example_amsgq 7 (bytes_from 1 16) 16)
      example_world in
  outcome_of res = Done DART_OK /\
  outcome_of res <> OutOfFuel /\
  forall r, outcome_of res = Done r ->
    (r = DART_OK \/ r = DART_ERR_AGAIN) /\
    exists me q off rest,
      (q = 0 \/ q = 1) /\
      trace_of res =
        Obs dart_myid me ::
        sendbuf_reserve_obs 0 (sizeof_header + 16) q off ++ rest /\
      (r = DART_OK <->
       0 <= off /\ off + (sizeof_header + 16) <= queue_size example_amsgq) /\
      (r = DART_OK ->
         rest =
           [ Obs (MPI_Put
                    (encode_header
                       {| fn := 7; remote := me; data_size := to_u32 16 |}
                       ++ firstn (Z.to_nat 16) (bytes_from 1 16))
                    (wrap32 (sizeof_header + 16)) 0
                    (MPI_Aint
                       (to_u64
                          (OFFSET_DATA q (queue_size example_amsgq) + off))))
               tt;
             Obs (MPI_Win_flush 0) tt;
             Obs (MPI_Accumulate (sizeof_header + 16) MPI_INT64_T 0
                    (MPI_Aint (OFFSET_READYPOS q)) MPI_SUM) tt;
             Obs (MPI_Win_flush 0) tt ]).
Proof.
  intros res.
  split; [vm_compute; reflexivity|].
  apply (trysend_accepts_what_fits (mpi 1) 11 0 example_amsgq 7
           (bytes_from 1 16) 16 example_world).
  - lia.
  - lia.
  - unfold sizeof_header, INT64_MAX. lia.
  - vm_compute. reflexivity.
Defined.

(** C7 as stated fails: in a team opened with [openq(16, 4, team)], a
    [try_send] of 100 payload bytes, more than the 16 the queue was opened
    for, is neither stopped by an assertion nor answered with ERR_INVAL: it
    returns OK and its 116 bytes are in the target's active sub-queue,
    reserved and marked ready. *)
Lemma trysend_oversized_is_injected :
  let res :=
    run 11 (mpi 1)
      (dart_amsg_sopnop_trysend 0 (fresh_amsgq 2 (openq_queue_size 16 4)) 7
         (bytes_from 1 100) 100)
      (fresh_world 2 (openq_queue_size 16 4)) in
  100 > 16 /\
  outcome_of res = Done DART_OK /\
  tailpos_of (window_at (state_of res) 0) 0 = 116 /\
  readypos_of (window_at (state_of res) 0) 0 = 116 /\
  mem_load (win_mem (window_at (state_of res) 0))
    (data_disp (openq_queue_size 16 4) 0 sizeof_header) 100
  = bytes_from 1 100.
Proof.
  intros res. split; [lia|]. vm_compute. repeat split; reflexivity.
Qed.

(** ** Teardown *)

(** C9 at its failing input: the active sub-queue 0 of the unit holds
    2^32 claimed bytes, so its 64-bit counter [tail[0]] is not zero, yet
    [closeq] fetches only an [MPI_INT32_T] from that place, finds 0, emits no
    warning and returns OK. *)
Theorem closeq_reads_half_of_tailpos :
  let w := world_with_4GiB_pending in
  let res := run 20 (mpi 0) (dart_amsg_sopnop_closeq (fresh_amsgq 1 big_qs)) w in
  queuenum_of (window_at w 0) = 0 /\
  tailpos_of (window_at w 0) 0 = 2 ^ 32 /\
  tailpos_of (window_at w 0) 0 <> 0 /\
  outcome_of res = Done DART_OK /\
  warned (state_of res) = [] /\
  invoked (state_of res) = [] /\
  In (Obs (MPI_Fetch_and_op 0 MPI_INT32_T 0 (MPI_Aint (OFFSET_TAILPOS 0))
             MPI_NO_OP) 0)
     (trace_of res).
Proof.
  intros w res.
  split; [vm_compute; reflexivity|].
  split; [vm_compute; reflexivity|].
  split; [vm_compute; discriminate|].
  split; [vm_compute; reflexivity|].
  split; [vm_compute; reflexivity|].
  split; [vm_compute; reflexivity|].
  vm_compute. right. right. left. reflexivity.
Qed.

(** For every environment: [closeq] asks for four bytes of the counter,
    warns exactly when these are not all zero, invokes no handler and
    returns OK. *)
Lemma closeq_warns_on_fetched_word {Env} (h : handler Env) f amsgq s tr r s' :
  run f h (dart_amsg_sopnop_closeq amsgq) s = (tr, Done r, s') ->
  r = DART_OK /\
  invocations tr = [] /\
  exists qb unitid fetched,
    tr =
      [ Obs (queue_load OFFSET_QUEUENUM 8) qb;
        Obs MPI_Comm_rank unitid;
        Obs (MPI_Fetch_and_op 0 MPI_INT32_T unitid
               (MPI_Aint (OFFSET_TAILPOS (wrap64 (le_decode qb)))) MPI_NO_OP)
          fetched;
        Obs (MPI_Win_flush_local unitid) tt ]
      ++ (if 0 <? to_u32 fetched then [Obs LOG_WARN tt] else [])
      ++ [ Obs MPI_Win_unlock_all tt; Obs MPI_Win_free tt;
           Obs MPI_Comm_free tt; Obs free_message_cache tt;
           Obs free_amsgq tt; Obs (mutex_destroy send_mutex) tt;
           Obs (mutex_destroy processing_mutex) tt ].
Proof.
  unfold dart_amsg_sopnop_closeq, load_queuenum. intros H.
  repeat run_step H.
  destruct (0 <? to_u32 x1) eqn:Ew; repeat run_step H; run_done H;
    unit_answers;
    (split; [reflexivity|]); (split; [reflexivity|]);
    exists x, x0, x1; rewrite Ew; reflexivity.
Qed.

(** ** The drainer *)

Lemma wait_late_senders_inv {Env} (h : handler Env) f unitid newqueue prev s tr x s' :
  run f h (wait_late_senders unitid newqueue prev) s = (tr, Done x, s') ->
  exists late,
    tr = concat (map (late_round unitid newqueue) late)
         ++ late_round unitid newqueue prev /\
    x = prev /\
    Forall (fun y => y <> prev) late.
Proof.
  revert s tr. induction f as [f IH] using lt_wf_ind. intros s tr H.
  unfold wait_late_senders in H.
  apply run_iter_inv in H; [|discriminate].
  destruct H as [(tr1 & lr & s1 & tr2 & Hb & -> & Hlr)|[Hc _]]; [|discriminate].
  repeat run_step Hb.
  destruct (x0 =? prev) eqn:Ex; cbn [negb] in Hb; run_done Hb; unit_answers.
  - destruct Hlr as (Hd & -> & ->). inversion Hd; subst.
    apply Z.eqb_eq in Ex. subst. exists []. cbn. auto.
  - destruct Hlr as (f' & Hf' & Hl).
    apply (IH f' Hf') in Hl. destruct Hl as (late & -> & -> & Hall).
    exists (x0 :: late). cbn. split; [reflexivity|]. split; [reflexivity|].
    constructor; [|exact Hall]. apply Z.eqb_neq. exact Ex.
Qed.

Lemma wait_active_writers_inv {Env} (h : handler Env) f unitid queuenum sub s tr
    rt s' :
  run f h (wait_active_writers unitid queuenum sub) s = (tr, Done rt, s') ->
  exists rounds tmp,
    tr = concat (map (writers_round unitid queuenum) rounds)
         ++ writers_round unitid queuenum (fst rt, tmp) /\
    snd rt = recovered sub tmp /\
    fst rt = snd rt /\
    Forall (fun r => fst r < recovered sub (snd r)) rounds.
Proof.
  revert s tr. induction f as [f IH] using lt_wf_ind. intros s tr H.
  unfold wait_active_writers in H.
  apply run_iter_inv in H; [|discriminate].
  destruct H as [(tr1 & lr & s1 & tr2 & Hb & -> & Hlr)|[Hc _]]; [|discriminate].
  repeat run_step Hb. fold (recovered sub x0) in *.
  apply Z.leb_le in Hb0.
  destruct (x =? recovered sub x0) eqn:Ex; cbn [negb] in Hb; run_done Hb;
    unit_answers.
  - destruct Hlr as (Hd & -> & ->). inversion Hd; subst.
    apply Z.eqb_eq in Ex. exists [], x0. cbn. auto.
  - destruct Hlr as (f' & Hf' & Hl).
    apply (IH f' Hf') in Hl. destruct Hl as (rounds & tmp & -> & Ht & Heq & Hall).
    exists ((x, x0) :: rounds), tmp. cbn. split; [reflexivity|].
    split; [exact Ht|]. split; [exact Heq|].
    constructor; [|exact Hall]. cbn. apply Z.eqb_neq in Ex. lia.
Qed.

Lemma residual_is_last_tailpos tailpos tmp :
  INT64_MIN <= tmp <= INT64_MAX ->
  wrap64 (freeze_bias tailpos + recovered (freeze_bias tailpos) tmp) = tmp.
Proof.
  intros Ht. unfold recovered.
  rewrite wrap64_add_r.
  replace (freeze_bias tailpos + (tmp + wrap64 (- freeze_bias tailpos)))
    with (wrap64 (- freeze_bias tailpos) + (freeze_bias tailpos + tmp)) by lia.
  rewrite wrap64_add_l.
  replace (- freeze_bias tailpos + (freeze_bias tailpos + tmp)) with tmp by lia.
  apply wrap64_id. exact Ht.
Qed.

Lemma drain_cycle_inv {Env} (h : handler Env) f amsgq unitid queuenum tailpos s
    tr a' t' s' :
  run f h (drain_cycle amsgq unitid queuenum tailpos) s = (tr, Done (a', t'), s') ->
  let newqueue := if queuenum =? 0 then 1 else 0 in
  let sub := freeze_bias tailpos in
  exists late old_new frozen rounds ready tmp old_ready tr_dispatch,
    tr =
      (concat (map (late_round unitid newqueue) late)
       ++ late_round unitid newqueue (prev_tailpos amsgq))
      ++ [ Obs (MPI_Fetch_and_op 0 MPI_INT64_T unitid
                  (MPI_Aint (OFFSET_TAILPOS newqueue)) MPI_REPLACE) old_new;
           Obs (MPI_Win_flush unitid) tt;
           Obs (MPI_Fetch_and_op (if queuenum =? 0 then 1 else -1)
                  MPI_INT64_T unitid (MPI_Aint OFFSET_QUEUENUM) MPI_SUM)
             queuenum;
           Obs (MPI_Win_flush unitid) tt;
           Obs (MPI_Fetch_and_op sub MPI_INT64_T unitid
                  (MPI_Aint (OFFSET_TAILPOS queuenum)) MPI_SUM) frozen ]
      ++ (concat (map (writers_round unitid queuenum) rounds)
          ++ writers_round unitid queuenum (ready, tmp))
      ++ [ Obs (MPI_Fetch_and_op 0 MPI_INT64_T unitid
                  (MPI_Aint (OFFSET_READYPOS queuenum)) MPI_REPLACE) old_ready;
           Obs (MPI_Win_flush unitid) tt ]
      ++ tr_dispatch /\
    Forall (fun y => y <> prev_tailpos amsgq) late /\
    Forall (fun r => fst r < recovered sub (snd r)) rounds /\
    ready = recovered sub tmp /\
    t' = recovered sub tmp /\
    a' = set_prev_tailpos amsgq (wrap64 (sub + recovered sub tmp)) /\
    exists pn f2 s2,
      run f2 h
        (dispatch_messages (OFFSET_DATA queuenum (queue_size amsgq)) t') s2
      = (tr_dispatch, Done pn, s').
Proof.
  intros H newqueue sub. unfold drain_cycle in H.
  fold newqueue in H. fold (freeze_bias tailpos) in H. fold sub in H.
  apply run_bind_inv in H; [|discriminate].
  destruct H as [(tr1 & x & s1 & tr2 & H1 & H2 & ->)|[Hc _]]; [|discriminate].
  apply wait_late_senders_inv in H1. destruct H1 as (late & -> & -> & Hlate).
  do 6 run_step H2.
  apply run_bind_inv in H2; [|discriminate].
  destruct H2 as [(tr1 & rt & s6 & tr2 & H1 & H2 & ->)|[Hc _]]; [|discriminate].
  apply wait_active_writers_inv in H1.
  destruct H1 as (rounds & tmp & -> & Ht & Heq & Hrounds).
  do 2 run_step H2.
  apply run_bind_inv in H2; [|discriminate].
  destruct H2 as [(tr1 & pn & s9 & tr2 & H1 & H2 & ->)|[Hc _]]; [|discriminate].
  run_done H2. unit_answers.
  apply Z.eqb_eq in Hb. subst x1.
  exists late, x, x3, rounds, (fst rt), tmp, x4, tr1.
  rewrite app_nil_r.
  split; [reflexivity|]. split; [exact Hlate|]. split; [exact Hrounds|].
  split; [congruence|]. split; [exact Ht|].
  split; [rewrite Ht; reflexivity|].
  eexists pn, _, _. exact H1.
Qed.

(** C6: the drainer freezes queue [q] by adding
    [sub = -tailpos - INT32_MAX] to [tail[q]] and spins until [ready[q]]
    equals the recovered amount [tail[q] - sub].  The residual it then
    records, [prev_tail = sub + tail_now], is the value it last read from
    [tail[q]], that is, what remains in the counter.  The quiesce spin of a
    cycle reads the tail of the other sub-queue until it finds exactly the
    residual kept in the handle (0 in a fresh handle), and the event after
    the spin replaces that tail with 0.  The swap leaves the selector at the
    other sub-queue, and a cycle that drains the other sub-queue spins on
    this [q]. *)
Theorem drain_cycle_records_residual {Env} (h : handler Env) fuel amsgq unitid
    queuenum tailpos s :
  let res := run fuel h (drain_cycle amsgq unitid queuenum tailpos) s in
  let newqueue := if queuenum =? 0 then 1 else 0 in
  let sub := wrap64 (wrap64 (- tailpos) - INT32_MAX) in
  wt_trace (trace_of res) = true ->
  forall a' t', outcome_of res = Done (a', t') ->
  prev_tailpos (fresh_amsgq 0 (queue_size amsgq)) = 0 /\
  exists late old_new frozen rounds tail_now tmp rest,
    trace_of res =
      (concat (map (late_round unitid newqueue) late)
       ++ late_round unitid newqueue (prev_tailpos amsgq))
      ++ [ Obs (MPI_Fetch_and_op 0 MPI_INT64_T unitid
                  (MPI_Aint (OFFSET_TAILPOS newqueue)) MPI_REPLACE) old_new;
           Obs (MPI_Win_flush unitid) tt;
           Obs (MPI_Fetch_and_op (if queuenum =? 0 then 1 else -1)
                  MPI_INT64_T unitid (MPI_Aint OFFSET_QUEUENUM) MPI_SUM)
             queuenum;
           Obs (MPI_Win_flush unitid) tt;
           Obs (MPI_Fetch_and_op sub MPI_INT64_T unitid
                  (MPI_Aint (OFFSET_TAILPOS queuenum)) MPI_SUM) frozen ]
      ++ (concat (map (writers_round unitid queuenum) rounds)
          ++ writers_round unitid queuenum (tail_now, tmp))
      ++ rest /\
    Forall (fun y => y <> prev_tailpos amsgq) late /\
    Forall (fun r => fst r <> wrap64 (snd r + wrap64 (- sub))) rounds /\
    tail_now = wrap64 (tmp + wrap64 (- sub)) /\
    t' = tail_now /\
    prev_tailpos a' = wrap64 (sub + tail_now) /\
    prev_tailpos a' = tmp /\
    (queuenum = 0 \/ queuenum = 1 ->
     queuenum + (if queuenum =? 0 then 1 else -1) = newqueue /\
     (if newqueue =? 0 then 1 else 0) = queuenum).
Proof.
  intros res newqueue sub Hwt a' t' Hr. split; [reflexivity|]. subst res.
  destruct (run fuel h (drain_cycle amsgq unitid queuenum tailpos) s)
    as [[tr o] s'] eqn:E.
  cbn in Hr, Hwt |- *. subst o.
  apply drain_cycle_inv in E.
  destruct E as (late & old_new & frozen & rounds & ready & tmp & old_ready
                 & trd & -> & Hlate & Hrounds & Hready & Ht & Ha & _).
  fold newqueue. fold (freeze_bias tailpos) in sub. fold sub in Ha, Hready, Ht, Hrounds |- *.
  exists late, old_new, frozen, rounds, ready, tmp.
  eexists.
  split; [reflexivity|]. split; [exact Hlate|].
  split.
  { eapply Forall_impl; [|exact Hrounds]. intros r Hlt.
    unfold recovered in Hlt. lia. }
  split; [exact Hready|]. split; [congruence|].
  subst a'. cbn [prev_tailpos set_prev_tailpos].
  split; [rewrite Hready; reflexivity|].
  split.
  - apply residual_is_last_tailpos.
    rewrite !wt_trace_app in Hwt. rewrite !andb_true_iff in Hwt.
    destruct Hwt as (_ & _ & (_ & Hw) & _).
    cbn in Hw. rewrite !andb_true_iff in Hw. apply is_int64_spec. tauto.
  - intros [-> | ->]; subst newqueue; split; reflexivity.
Qed.

Lemma drain_cycle_records_residual_witness :
  let res := run 40 (mpi 0) (drain_cycle example_amsgq 0 0 32) world_one_message in
  let a' := set_prev_tailpos example_amsgq (- INT32_MAX) in
  let sub := wrap64 (wrap64 (- 32) - INT32_MAX) in
  wt_trace (trace_of res) = true /\
  outcome_of res = Done (a', 32) /\
  tailpos_of (window_at (state_of res) 0) 0 = prev_tailpos a' /\
  prev_tailpos (fresh_amsgq 0 (queue_size example_amsgq)) = 0 /\
  exists late old_new frozen rounds tail_now tmp rest,
    trace_of res =
      (concat (map (late_round 0 1) late)
       ++ late_round 0 1 (prev_tailpos example_amsgq))
      ++ [ Obs (MPI_Fetch_and_op 0 MPI_INT64_T 0
                  (MPI_Aint (OFFSET_TAILPOS 1)) MPI_REPLACE) old_new;
           Obs (MPI_Win_flush 0) tt;
           Obs (MPI_Fetch_and_op 1 MPI_INT64_T 0 (MPI_Aint OFFSET_QUEUENUM)
                  MPI_SUM) 0;
           Obs (MPI_Win_flush 0) tt;
           Obs (MPI_Fetch_and_op sub MPI_INT64_T 0
                  (MPI_Aint (OFFSET_TAILPOS 0)) MPI_SUM) frozen ]
      ++ (concat (map (writers_round 0 0) rounds)
          ++ writers_round 0 0 (tail_now, tmp))
      ++ rest /\
    Forall (fun y => y <> prev_tailpos example_amsgq) late /\
    Forall (fun r => fst r <> wrap64 (snd r + wrap64 (- sub))) rounds /\
    tail_now = wrap64 (tmp + wrap64 (- sub)) /\
    32 = tail_now /\
    prev_tailpos a' = wrap64 (sub + tail_now) /\
    prev_tailpos a' = tmp /\
    (0 = 0 \/ 0 = 1 ->
     0 + (if 0 =? 0 then 1 else -1) = 1 /\ (if 1 =? 0 then 1 else 0) = 0).
Proof.
  intros res a' sub.
  split; [vm_compute; reflexivity|].
  split; [vm_compute; reflexivity|].
  split; [vm_compute; reflexivity|].
  apply (drain_cycle_records_residual (mpi 0) 40 example_amsgq 0 0 32
           world_one_message).
  - vm_compute. reflexivity.
  - vm_compute. reflexivity.
Defined.

Lemma le_decode_bound bs :
  forallb is_byte bs = true ->
  0 <= le_decode bs < 256 ^ Z.of_nat (length bs).
Proof.
  induction bs as [|b bs IH]; intros Hb.
  - cbn. lia.
  - cbn [forallb] in Hb. apply andb_true_iff in Hb. destruct Hb as [Hb Hbs].
    specialize (IH Hbs). unfold is_byte in Hb.
    apply andb_true_iff in Hb. rewrite Z.leb_le, Z.ltb_lt in Hb.
    cbn [le_decode length]. rewrite Nat2Z.inj_succ, Z.pow_succ_r by lia. lia.
Qed.

Lemma walk_starts_lower pos msgs :
  Forall (fun m => 0 <= le_decode (fst m)) msgs ->
  Forall (fun p => pos <= p) (walk_starts pos msgs).
Proof.
  revert pos. induction msgs as [|m msgs IH]; intros pos Hm; cbn.
  - constructor.
  - inversion Hm; subst. constructor; [lia|].
    eapply Forall_impl; [|apply IH; assumption].
    cbn. intros p Hp. unfold sizeof_header in *. lia.
Qed.

Lemma dispatch_loop_inv {Env} (h : handler Env) dbuf tailpos :
  tailpos + sizeof_header + 2 ^ 32 <= INT64_MAX ->
  forall f pos num s tr pe s',
    0 <= pos <= tailpos ->
    run f h (ITree.iter (dispatch_turn dbuf tailpos) (pos, num)) s
    = (tr, Done pe, s') ->
    wt_trace tr = true ->
    exists msgs,
      tr = walk dbuf pos msgs /\
      fst pe = walk_end pos msgs /\
      fst pe = tailpos /\
      Forall (fun m => 0 <= le_decode (fst m)) msgs /\
      Forall (fun p => p < tailpos) (walk_starts pos msgs).
Proof.
  intros Hmax. induction f as [f IH] using lt_wf_ind.
  intros pos num s tr pe s' Hpos H Hwt.
  apply run_iter_inv in H; [|discriminate].
  destruct H as [(tr1 & lr & s1 & tr2 & Hb & -> & Hlr)|[Hc _]]; [|discriminate].
  unfold dispatch_turn in Hb.
  destruct (pos <? tailpos) eqn:Elt.
  - apply Z.ltb_lt in Elt. unfold dispatch_one in Hb.
    repeat run_step Hb. run_done Hb. unit_answers.
    destruct Hlr as (f' & Hf' & Hl).
    rewrite wt_trace_app in Hwt. apply andb_true_iff in Hwt.
    destruct Hwt as [Hw1 Hw2].
    cbn in Hw1. rewrite !andb_true_iff in Hw1.
    destruct Hw1 as ((Hlen & Hbytes) & _).
    apply Z.eqb_eq in Hlen.
    pose proof (le_decode_bound x Hbytes) as Hds. rewrite Hlen in Hds.
    assert (Hp1 : wrap64 (to_u64 (pos + sizeof_header)) = pos + sizeof_header).
    { unfold to_u64, sizeof_header, INT64_MAX in *.
      rewrite Z.mod_small by lia.
      apply wrap64_id. unfold INT64_MIN, INT64_MAX. lia. }
    rewrite Hp1 in *.
    assert (Hp2 : wrap64 (pos + sizeof_header + le_decode x)
                  = pos + sizeof_header + le_decode x).
    { apply wrap64_id. unfold INT64_MIN, INT64_MAX, sizeof_header in *. lia. }
    rewrite Hp2 in *. apply Z.leb_le in Hb0.
    apply (IH f' Hf') in Hl; [|unfold sizeof_header in *; lia|exact Hw2].
    destruct Hl as (msgs & -> & He & Het & Hms & Hst).
    exists ((x, x0) :: msgs). cbn.
    split; [reflexivity|]. split; [exact He|]. split; [exact Het|].
    split; [constructor; [cbn; lia|exact Hms]|].
    constructor; [exact Elt|exact Hst].
  - apply Z.ltb_ge in Elt. run_done Hb.
    destruct Hlr as (Hd & -> & ->). inversion Hd; subst.
    exists []. cbn. repeat split; auto; lia.
Qed.

Lemma walk_starts_sorted pos msgs :
  Forall (fun m => 0 <= le_decode (fst m)) msgs ->
  StronglySorted Z.lt (walk_starts pos msgs).
Proof.
  revert pos. induction msgs as [|m msgs IH]; intros pos Hm; cbn.
  - constructor.
  - inversion Hm; subst. constructor; [apply IH; assumption|].
    eapply Forall_impl; [|apply walk_starts_lower; assumption].
    cbn. intros p Hp. unfold sizeof_header in *. lia.
Qed.

Lemma invocations_walk dbuf pos msgs :
  invocations (walk dbuf pos msgs) =
  map (fun pm => (le_decode (snd (snd pm)), dbuf + (fst pm + sizeof_header)))
    (combine (walk_starts pos msgs) msgs).
Proof.
  revert pos. induction msgs as [|m msgs IH]; intros pos; cbn.
  - reflexivity.
  - f_equal. apply IH.
Qed.

Lemma run_trigger_oof {Env X R} (h : handler Env) f (e : amqE X)
    (k : X -> itree amqE R) s tr s' :
  run f h (ITree.bind (ITree.trigger e) k) s = (tr, OutOfFuel, s') ->
  f = 0%nat \/
  exists x s1 tr',
    tr = Obs e x :: tr' /\
    run (Nat.pred f) h (k x) s1 = (tr', OutOfFuel, s').
Proof.
  destruct f as [|f]; [left; reflexivity|]. right.
  rewrite run_trigger in H. destruct (h X e s) as [x s1|s1|];
    try (inversion H; fail).
  destruct (run f h (k x) s1) as [[tr1 o1] s2] eqn:E.
  inversion H; subst. exists x, s1, tr1. auto.
Qed.

Lemma run_assert_oof {Env R} (h : handler Env) f b
    (k : unit -> itree amqE R) s tr s' :
  run f h (ITree.bind (DART_ASSERT b) k) s = (tr, OutOfFuel, s') ->
  f = 0%nat \/ (b = true /\ run f h (k tt) s = (tr, OutOfFuel, s')).
Proof.
  destruct b; cbn [DART_ASSERT].
  - rewrite run_bind_ret. auto.
  - rewrite run_bind_bind. intros H. apply run_trigger_oof in H.
    destruct H as [H|(x & _)]; [left; exact H|destruct x].
Qed.

(** The walk is bounded by the bytes it has to cover: a dispatch loop that
    has at least [tailpos - pos + 5] steps to go does not run out of them. *)
Lemma dispatch_loop_ends {Env} (h : handler Env) dbuf tailpos :
  tailpos + sizeof_header + 2 ^ 32 <= INT64_MAX ->
  forall f pos num s tr s',
    0 <= pos ->
    run f h (ITree.iter (dispatch_turn dbuf tailpos) (pos, num)) s
    = (tr, OutOfFuel, s') ->
    wt_trace tr = true ->
    (f < Z.to_nat (tailpos - pos) + 5)%nat.
Proof.
  intros Hmax. induction f as [f IH] using lt_wf_ind.
  intros pos num s tr s' Hpos H Hwt.
  rewrite run_iter in H. unfold dispatch_turn in H.
  destruct (pos <? tailpos) eqn:Elt.
  - apply Z.ltb_lt in Elt. unfold dispatch_one in H.
    rewrite !run_bind_bind in H.
    apply run_trigger_oof in H. destruct H as [->|(ds & s1 & tr1 & -> & H)]; [lia|].
    cbn [wt_trace forallb wt_entry] in Hwt. rewrite !andb_true_iff in Hwt.
    destruct Hwt as ((Hlen & Hbytes) & Hwt). apply Z.eqb_eq in Hlen.
    pose proof (le_decode_bound ds Hbytes) as Hds. rewrite Hlen in Hds.
    assert (Hp1 : wrap64 (to_u64 (pos + sizeof_header)) = pos + sizeof_header).
    { unfold to_u64, sizeof_header, INT64_MAX in *.
      rewrite Z.mod_small by lia.
      apply wrap64_id. unfold INT64_MIN, INT64_MAX. lia. }
    rewrite Hp1 in H.
    assert (Hp2 : wrap64 (pos + sizeof_header + le_decode ds)
                  = pos + sizeof_header + le_decode ds).
    { apply wrap64_id. unfold INT64_MIN, INT64_MAX, sizeof_header in *. lia. }
    rewrite Hp2 in H.
    rewrite !run_bind_bind in H.
    apply run_assert_oof in H. destruct H as [H0|[Hle H]]; [lia|].
    apply Z.leb_le in Hle.
    rewrite !run_bind_bind in H.
    apply run_trigger_oof in H.
    destruct H as [H0|(fb & s2 & tr2 & -> & H)]; [lia|].
    cbn [forallb] in Hwt. apply andb_true_iff in Hwt. destruct Hwt as [_ Hwt].
    rewrite !run_bind_bind in H.
    apply run_trigger_oof in H.
    destruct H as [H0|(u & s3 & tr3 & -> & H)]; [lia|].
    cbn [forallb] in Hwt. apply andb_true_iff in Hwt. destruct Hwt as [_ Hwt].
    rewrite !run_bind_ret in H.
    destruct f as [|[|[|[|f]]]]; try lia. cbn [Nat.pred] in H.
    rewrite run_tau in H.
    apply IH in H; [|lia|unfold sizeof_header in *; lia|exact Hwt].
    unfold sizeof_header in *. lia.
  - rewrite run_bind_ret in H. destruct f; [lia|].
    rewrite run_ret in H. inversion H.
Qed.

(** C5: the dispatch loop walks the frozen sub-queue from position 0 up to
    [tail_now]: for each message it reads the [data_size] field of the
    fixed-size header at [pos], steps over the header and over exactly that
    many payload bytes, and calls the handler named by the header once, on
    the payload behind the header.  The messages are taken in strictly
    increasing offset order, every message starts below [tail_now], and the
    walk ends at [tail_now] exactly.  The walk takes no more steps than
    there are bytes to cover. *)
Theorem dispatch_walks_in_offset_order {Env} (h : handler Env) fuel dbuf
    tailpos s :
  0 <= tailpos ->
  tailpos + sizeof_header + 2 ^ 32 <= INT64_MAX ->
  let res := run fuel h (dispatch_messages dbuf tailpos) s in
  wt_trace (trace_of res) = true ->
  ((Z.to_nat tailpos + 5 <= fuel)%nat -> outcome_of res <> OutOfFuel) /\
  forall pn, outcome_of res = Done pn ->
  exists msgs,
    trace_of res = walk dbuf 0 msgs /\
    invocations (trace_of res) =
      map (fun pm =>
             (le_decode (snd (snd pm)), dbuf + (fst pm + sizeof_header)))
        (combine (walk_starts 0 msgs) msgs) /\
    length (walk_starts 0 msgs) = length msgs /\
    StronglySorted Z.lt (walk_starts 0 msgs) /\
    Forall (fun p => 0 <= p < tailpos) (walk_starts 0 msgs) /\
    walk_end 0 msgs = tailpos /\
    fst pn = tailpos.
Proof.
  intros Ht Hmax res Hwt. subst res.
  destruct (run fuel h (dispatch_messages dbuf tailpos) s)
    as [[tr o] s'] eqn:E.
  cbn in Hwt |- *. unfold dispatch_messages in E.
  split.
  { intros Hf ->.
    apply (dispatch_loop_ends h dbuf tailpos Hmax) in E; [|lia|exact Hwt].
    rewrite Z.sub_0_r in E. lia. }
  intros pn Hr. subst o.
  apply (dispatch_loop_inv h dbuf tailpos Hmax) in E; [|lia|exact Hwt].
  destruct E as (msgs & -> & He & Het & Hms & Hst).
  exists msgs. split; [reflexivity|].
  split; [apply invocations_walk|].
  split.
  { clear. generalize 0. induction msgs as [|m msgs IH]; intros p; cbn;
      [reflexivity|]. f_equal. apply IH. }
  split; [apply walk_starts_sorted; exact Hms|].
  split.
  { pose proof (walk_starts_lower 0 msgs Hms) as Hlo.
    rewrite Forall_forall in *. intros p Hp. split; auto. }
  split; congruence.
Qed.

Lemma dispatch_walks_in_offset_order_witness :
  let dbuf := OFFSET_DATA 0 example_qs in
  let res := run 60 (mpi 0) (dispatch_messages dbuf 51) world_two_messages in
  map inv_fn (invoked (state_of res)) = [7; 8] /\
  map inv_payload (invoked (state_of res)) = [bytes_from 1 16; bytes_from 21 3] /\
  outcome_of res = Done (51, 2) /\
  ((Z.to_nat 51 + 5 <= 60)%nat -> outcome_of res <> OutOfFuel) /\
  forall pn, outcome_of res = Done pn ->
  exists msgs,
    trace_of res = walk dbuf 0 msgs /\
    invocations (trace_of res) =
      map (fun pm =>
             (le_decode (snd (snd pm)), dbuf + (fst pm + sizeof_header)))
        (combine (walk_starts 0 msgs) msgs) /\
    length (walk_starts 0 msgs) = length msgs /\
    StronglySorted Z.lt (walk_starts 0 msgs) /\
    Forall (fun p => 0 <= p < 51) (walk_starts 0 msgs) /\
    walk_end 0 msgs = 51 /\
    fst pn = 51.
Proof.
  intros dbuf res.
  split; [vm_compute; reflexivity|].
  split; [vm_compute; reflexivity|].
  split; [vm_compute; reflexivity|].
  apply (dispatch_walks_in_offset_order (mpi 0) 60 dbuf 51
           world_two_messages).
  - lia.
  - unfold sizeof_header, INT64_MAX. lia.
  - vm_compute. reflexivity.
Defined.

Section RunStopped.
Context {Env : Type} (h : handler Env).

Lemma run_trigger_fin {X R} f (e : amqE X) (k : X -> itree amqE R)
    s tr o s' :
  run f h (ITree.bind (ITree.trigger e) k) s = (tr, o, s') ->
  o <> OutOfFuel ->
  (exists x s1 tr',
      h _ e s = Answer x s1 /\ tr = Obs e x :: tr' /\
      run (Nat.pred f) h (k x) s1 = (tr', o, s')) \/
  (o = Stopped /\ tr = [Halt e]).
Proof.
  destruct f as [|f]; [cbn; intros H Ho; inversion H; subst; congruence|].
  rewrite run_trigger. intros H Ho.
  destruct (h X e s) as [x s1|s1|].
  - destruct (run f h (k x) s1) as [[tr1 o1] s2] eqn:E.
    inversion H; subst. left. exists x, s1, tr1. auto.
  - inversion H; subst. right. auto.
  - inversion H; subst. right. auto.
Qed.

Lemma run_assert_fin {R} f b (k : unit -> itree amqE R) s tr o s' :
  run f h (ITree.bind (DART_ASSERT b) k) s = (tr, o, s') ->
  o <> OutOfFuel ->
  (b = true /\ run f h (k tt) s = (tr, o, s')) \/
  (b = false /\ o = Stopped /\ tr = [Halt assert_fail]).
Proof.
  destruct b; cbn [DART_ASSERT].
  - rewrite run_bind_ret. auto.
  - rewrite run_bind_bind. intros H Ho.
    apply run_trigger_fin in H; [|exact Ho].
    destruct H as [(x & _)|[-> ->]]; [destruct x|]. right. auto.
Qed.
End RunStopped.

Lemma ends_on_assert_app_obs {X} (e : amqE X) x tr :
  ends_on_assert (Obs e x :: tr) = ends_on_assert tr \/ tr = [].
Proof.
  destruct tr as [|en tr]; [right; reflexivity|left].
  unfold ends_on_assert. cbn [rev].
  destruct (rev tr ++ [en]) as [|a l] eqn:E.
  - destruct (rev tr); discriminate.
  - reflexivity.
Qed.

Lemma ends_on_assert_app a b :
  b <> [] -> ends_on_assert (a ++ b) = ends_on_assert b.
Proof.
  intros Hb. unfold ends_on_assert. rewrite rev_app_distr.
  destruct (rev b) as [|en l] eqn:E.
  - apply (f_equal (@rev entry)) in E. rewrite rev_involutive in E.
    cbn in E. contradiction.
  - reflexivity.
Qed.

(** Every run of the wait loop that came to an end: rounds in which
    [ready[q]] was below the recovered amount, and then a round that found
    them equal, or a round that found [ready[q]] above and failed the
    assertion, or an event the environment did not answer. *)
Lemma wait_active_writers_fin {Env} (h : handler Env) f unitid queuenum sub s tr
    o s' :
  run f h (wait_active_writers unitid queuenum sub) s = (tr, o, s') ->
  o <> OutOfFuel ->
  exists rounds last,
    tr = concat (map (writers_round unitid queuenum) rounds) ++ last /\
    Forall (fun r => fst r < recovered sub (snd r)) rounds /\
    ((exists tmp,
         last = writers_round unitid queuenum (recovered sub tmp, tmp) /\
         o = Done (recovered sub tmp, recovered sub tmp)) \/
     (exists r tmp,
         last = writers_round unitid queuenum (r, tmp) ++ [Halt assert_fail] /\
         recovered sub tmp < r /\ o = Stopped) \/
     (o = Stopped /\ ends_on_assert last = false /\ last <> [])).
Proof.
  revert s tr. induction f as [f IH] using lt_wf_ind. intros s tr H Ho.
  unfold wait_active_writers in H.
  apply run_iter_inv in H; [|exact Ho].
  destruct H as [(tr1 & lr & s1 & tr2 & Hb & -> & Hlr)|[-> Hb]].
  - repeat run_step Hb. fold (recovered sub x0) in *.
    apply Z.leb_le in Hb0.
    destruct (x =? recovered sub x0) eqn:Ex; cbn [negb] in Hb; run_done Hb;
      unit_answers.
    + destruct Hlr as (Hd & -> & ->). apply Z.eqb_eq in Ex. subst x.
      exists [], (writers_round unitid queuenum (recovered sub x0, x0)).
      split; [reflexivity|]. split; [constructor|]. left. exists x0. auto.
    + destruct Hlr as (f' & Hf' & Hl).
      apply (IH f' Hf') in Hl; [|exact Ho].
      destruct Hl as (rounds & last & -> & Hall & Hlast).
      exists ((x, x0) :: rounds), last. split; [reflexivity|].
      split; [|exact Hlast].
      constructor; [|exact Hall]. cbn. apply Z.eqb_neq in Ex. lia.
  - exists []. cbn [map concat app].
    apply run_trigger_fin in Hb; [|discriminate].
    destruct Hb as [(r & s1 & tr1 & _ & -> & Hb)|[_ ->]];
      [|eexists; split; [reflexivity|]; split; [constructor|];
        right; right; repeat split; discriminate].
    apply run_trigger_fin in Hb; [|discriminate].
    destruct Hb as [(tmp & s2 & tr2 & _ & -> & Hb)|[_ ->]];
      [|eexists; split; [reflexivity|]; split; [constructor|];
        right; right; repeat split; discriminate].
    apply run_trigger_fin in Hb; [|discriminate].
    destruct Hb as [(u & s3 & tr3 & _ & -> & Hb)|[_ ->]];
      [|eexists; split; [reflexivity|]; split; [constructor|];
        right; right; repeat split; discriminate].
    fold (recovered sub tmp) in Hb. destruct u.
    apply run_assert_fin in Hb; [|discriminate].
    destruct Hb as [[Hle Hb]|(Hle & _ & ->)].
    + destruct (negb (r =? recovered sub tmp));
        apply run_ret_inv in Hb; try discriminate;
        destruct Hb as (_ & Hd & _); discriminate.
    + eexists. split; [reflexivity|]. split; [constructor|].
      right. left. exists r, tmp. apply Z.leb_gt in Hle. auto.
Qed.

Lemma run_out_of_fuel_all_obs {Env R} (h : handler Env) f (t : itree amqE R) s
    tr s' :
  run f h t s = (tr, OutOfFuel, s') -> ends_on_assert tr = false.
Proof.
  revert t s tr. induction f as [|f IH]; intros t s tr H.
  - cbn in H. inversion H; subst. reflexivity.
  - rewrite run_unfold in H. destruct (observe t) as [r|t'|X e k].
    + inversion H.
    + eapply IH; eauto.
    + destruct (h X e s) as [x s1|s1|]; try (inversion H; fail).
      destruct (run f h (k x) s1) as [[tr1 o1] s2] eqn:E.
      inversion H; subst. apply IH in E.
      destruct (ends_on_assert_app_obs e x tr1) as [-> | ->]; auto.
Qed.

(** C4, what holds by design: a reservation that [send_buffer] commits lies
    inside the sub-queue, [0 <= offset] and [offset + n <= Q].  In the
    drainer's wait loop a round that finds [ready[q]] below the recovered
    amount [tail[q] - sub] is repeated, the loop is left only by a round
    that finds them equal, and a round that finds [ready[q]] above stops
    the unit on the assertion.  [tail[q]] itself is not bounded by [Q]: in
    the run [overshoot_schedule] the drainer reads [tail[0] = Q + 16] while
    a reservation that does not fit waits for its rollback. *)
Theorem committed_within_queue_and_wait_loop_checks {Env} (h : handler Env) fuel
    target amsgq data n unitid queuenum sub s1 s2 :
  0 <= n <= INT64_MAX ->
  let sent := run fuel h (dart_amsg_sopnop_sendbuf target amsgq data n) s1 in
  let waited := run fuel h (wait_active_writers unitid queuenum sub) s2 in
  wt_trace (trace_of sent) = true ->
  (outcome_of sent = Done DART_OK ->
   exists q off rest,
     trace_of sent = sendbuf_reserve_obs target n q off ++ rest /\
     0 <= off /\ off + n <= queue_size amsgq) /\
  (forall r t, outcome_of waited = Done (r, t) ->
   exists rounds tmp,
     trace_of waited =
       concat (map (writers_round unitid queuenum) rounds)
       ++ writers_round unitid queuenum (r, tmp) /\
     Forall (fun x => fst x < wrap64 (snd x + wrap64 (- sub))) rounds /\
     r = wrap64 (tmp + wrap64 (- sub)) /\ t = r) /\
  (ends_on_assert (trace_of waited) = true ->
   exists rounds r tmp,
     trace_of waited =
       concat (map (writers_round unitid queuenum) rounds)
       ++ writers_round unitid queuenum (r, tmp) ++ [Halt assert_fail] /\
     Forall (fun x => fst x < wrap64 (snd x + wrap64 (- sub))) rounds /\
     wrap64 (tmp + wrap64 (- sub)) < r) /\
  (let '(ths, w) :=
     run_schedule overshoot_schedule overshoot_threads race_world in
   nth_error (seen_by ths 0) 3
   = Some (Obs (MPI_Fetch_and_op 0 MPI_INT64_T 0
                  (MPI_Aint (OFFSET_TAILPOS 0)) MPI_NO_OP)
             (race_qs + 16)) /\
   tailpos_of (window_at w 0) 0 = race_qs + 16).
Proof.
  intros Hn sent waited Hwt. split; [|split; [|split]].
  4: { vm_compute. split; reflexivity. }
  - intros Hok. subst sent.
    destruct (run fuel h (dart_amsg_sopnop_sendbuf target amsgq data n) s1)
      as [[tr o] s'] eqn:E.
    cbn in Hok, Hwt |- *. subst o.
    apply sendbuf_run_inv in E. destruct E as (q & off & Hq & Htr & Hres).
    assert (Hw : wrap64 n = n)
      by (apply wrap64_id; unfold INT64_MIN, INT64_MAX in *; lia).
    rewrite Hw in *.
    assert (Hoff : INT64_MIN <= off <= INT64_MAX).
    { subst tr. rewrite wt_trace_app in Hwt. apply andb_true_iff in Hwt.
      destruct Hwt as [Hwt _]. cbn in Hwt.
      rewrite !andb_true_iff in Hwt. apply is_int64_spec. tauto. }
    pose proof (reservation_fits_spec (queue_size amsgq) n off Hn Hoff) as Hfit.
    rewrite Hw in Hfit.
    destruct (reservation_fits (queue_size amsgq) n off); [|discriminate].
    exists q, off. eexists. split; [exact Htr|]. apply Hfit. reflexivity.
  - intros r t Hr. subst waited.
    destruct (run fuel h (wait_active_writers unitid queuenum sub) s2)
      as [[tr o] s'] eqn:E.
    cbn in Hr |- *. subst o.
    apply wait_active_writers_inv in E.
    destruct E as (rounds & tmp & -> & Ht & Heq & Hall). cbn in Ht, Heq.
    exists rounds, tmp. split; [reflexivity|]. split; [exact Hall|].
    unfold recovered in Ht. split; congruence.
  - intros Hends. subst waited.
    destruct (run fuel h (wait_active_writers unitid queuenum sub) s2)
      as [[tr o] s'] eqn:E.
    cbn in Hends |- *.
    assert (Ho : o <> OutOfFuel).
    { intros ->. apply run_out_of_fuel_all_obs in E. congruence. }
    apply wait_active_writers_fin in E; [|exact Ho].
    destruct E as (rounds & last & -> & Hall & Hlast).
    destruct Hlast as [(tmp & -> & _)|[(r & tmp & -> & Hlt & _)|(_ & Hna & Hne)]].
    + rewrite ends_on_assert_app in Hends by discriminate. discriminate.
    + exists rounds, r, tmp. split; [reflexivity|]. split; [exact Hall|exact Hlt].
    + rewrite ends_on_assert_app in Hends by exact Hne. congruence.
Qed.

Lemma committed_within_queue_and_wait_loop_checks_witness :
  let sent :=
    run 10 (mpi 0)
      (dart_amsg_sopnop_sendbuf 0 example_amsgq (bytes_from 1 19) 19)
      example_world in
  let waited := run 10 (mpi 0) (wait_active_writers 0 0 0) (state_of sent) in
  wt_trace (trace_of sent) = true /\
  outcome_of sent = Done DART_OK /\
  outcome_of waited = Done (19, 19) /\
  ends_on_assert
    (trace_of (run 10 (mpi 0) (wait_active_writers 0 0 5) (state_of sent)))
  = true /\
  (outcome_of sent = Done DART_OK ->
   exists q off rest,
     trace_of sent = sendbuf_reserve_obs 0 19 q off ++ rest /\
     0 <= off /\ off + 19 <= queue_size example_amsgq) /\
  (forall r t, outcome_of waited = Done (r, t) ->
   exists rounds tmp,
     trace_of waited =
       concat (map (writers_round 0 0) rounds) ++ writers_round 0 0 (r, tmp) /\
     Forall (fun x => fst x < wrap64 (snd x + wrap64 (- 0))) rounds /\
     r = wrap64 (tmp + wrap64 (- 0)) /\ t = r) /\
  (ends_on_assert (trace_of waited) = true ->
   exists rounds r tmp,
     trace_of waited =
       concat (map (writers_round 0 0) rounds)
       ++ writers_round 0 0 (r, tmp) ++ [Halt assert_fail] /\
     Forall (fun x => fst x < wrap64 (snd x + wrap64 (- 0))) rounds /\
     wrap64 (tmp + wrap64 (- 0)) < r) /\
  (let '(ths, w) :=
     run_schedule overshoot_schedule overshoot_threads race_world in
   nth_error (seen_by ths 0) 3
   = Some (Obs (MPI_Fetch_and_op 0 MPI_INT64_T 0
                  (MPI_Aint (OFFSET_TAILPOS 0)) MPI_NO_OP)
             (race_qs + 16)) /\
   tailpos_of (window_at w 0) 0 = race_qs + 16).
Proof.
  intros sent waited.
  split; [vm_compute; reflexivity|].
  split; [vm_compute; reflexivity|].
  split; [vm_compute; reflexivity|].
  split; [vm_compute; reflexivity|].
  apply (committed_within_queue_and_wait_loop_checks (mpi 0) 10 0
           example_amsgq (bytes_from 1 19) 19 0 0 0 example_world
           (state_of sent)).
  - unfold INT64_MAX. lia.
  - vm_compute. reflexivity.
Defined.

(** C4 as stated fails.  In the first run sub-queue 0 of a queue of 160
    bytes holds 96 and a sender has reserved 80 more, which it has not
    rolled back yet: the drainer reads [tail[0] = 176 > Q].  In the second
    run a sender that read the selector long ago reserves on sub-queue 0
    between the drainer's quiesce spin and its reset of [tail[0]], and rolls
    back after the reset: sub-queue 0 is active again and the drainer reads
    [tail[0] = -32], below 0 and below [ready[0] = 0].  The third run goes
    on from there: two senders complete on sub-queue 0 at the same offset,
    and the wait loop of the next drain finds [ready[0] = 64] above the
    recovered amount 32, which stops the unit on the assertion. *)
Lemma drainer_reads_tail_out_of_bounds :
  (let '(ths, w) :=
     run_schedule overshoot_schedule overshoot_threads race_world in
   race_qs = 160 /\
   nth_error (seen_by ths 0) 2
   = Some (Obs (queue_load OFFSET_QUEUENUM 8) (le_encode 8 0)) /\
   nth_error (seen_by ths 0) 3
   = Some (Obs (MPI_Fetch_and_op 0 MPI_INT64_T 0
                  (MPI_Aint (OFFSET_TAILPOS 0)) MPI_NO_OP) 176) /\
   queuenum_of (window_at w 0) = 0 /\
   tailpos_of (window_at w 0) 0 = 176 /\
   readypos_of (window_at w 0) 0 = 96 /\
   ~ tailpos_of (window_at w 0) 0 <= race_qs) /\
  (let '(ths, w) :=
     run_schedule stale_schedule stale_threads example_world in
   nth_error (seen_by ths 0) 44
   = Some (Obs (queue_load OFFSET_QUEUENUM 8) (le_encode 8 0)) /\
   nth_error (seen_by ths 0) 45
   = Some (Obs (MPI_Fetch_and_op 0 MPI_INT64_T 0
                  (MPI_Aint (OFFSET_TAILPOS 0)) MPI_NO_OP) (-32)) /\
   queuenum_of (window_at w 0) = 0 /\
   tailpos_of (window_at w 0) 0 = -32 /\
   readypos_of (window_at w 0) 0 = 0 /\
   ~ (0 <= readypos_of (window_at w 0) 0 <= tailpos_of (window_at w 0) 0)) /\
  (let '(ths, w) :=
     run_schedule assert_schedule stale_threads example_world in
   let sub := freeze_bias 32 in
   skipn 60 (seen_by ths 0) = writers_round 0 0 (64, - INT32_MAX) /\
   recovered sub (- INT32_MAX) = 32 /\
   ~ 64 <= recovered sub (- INT32_MAX) /\
   pending ths 0 = Some (Halt assert_fail)).
Proof.
  split; [|split].
  - vm_compute. repeat split; try reflexivity. intros H. apply H. reflexivity.
  - vm_compute. repeat split; try reflexivity. intros [_ H]. apply H. reflexivity.
  - vm_compute. repeat split; try reflexivity. intros H. apply H. reflexivity.
Qed.

(** ** The collective drain *)

Tactic Notation "run_bind" hyp(H) ident(tr1) ident(x) ident(s1) ident(tr2)
    ident(H1) :=
  apply run_bind_inv in H; [|discriminate];
  destruct H as [(tr1 & x & s1 & tr2 & H1 & H & ->)|[? _]]; [|discriminate].






(** ** The coalescing cache and the error branch *)

(** The [send_buffer] at hand returns OK or ERR_AGAIN, nothing else. *)
Lemma sendbuf_returns_ok_or_again {Env} (h : handler Env) f target amsgq data n
    s tr r s' :
  run f h (dart_amsg_sopnop_sendbuf target amsgq data n) s = (tr, Done r, s') ->
  r = DART_OK \/ r = DART_ERR_AGAIN.
Proof.
  intros H. apply sendbuf_run_inv in H. destruct H as (q & off & _ & _ & ->).
  destruct (reservation_fits _ _ _); auto.
Qed.


(** *** What the other return paths do *)

Lemma mutexes_held_from_app l a b :
  mutexes_held_from l (a ++ b) = mutexes_held_from (mutexes_held_from l a) b.
Proof. apply fold_left_app. Qed.

Lemma balanced_app a b : balanced a -> balanced b -> balanced (a ++ b).
Proof.
  intros Ha Hb l. rewrite mutexes_held_from_app, Ha, Hb. reflexivity.
Qed.

Lemma mutex_free_balanced tr : mutex_free tr = true -> balanced tr.
Proof.
  induction tr as [|en tr IH]; intros H l; [reflexivity|].
  cbn in H. apply andb_true_iff in H. destruct H as [Hen Htr].
  change (mutexes_held_from l (en :: tr))
    with (mutexes_held_from (mutex_effect en l) tr).
  rewrite (IH Htr).
  destruct en as [X e x|X e]; [|reflexivity].
  destruct e; try reflexivity; discriminate.
Qed.

Lemma mutex_free_app a b : mutex_free (a ++ b) = mutex_free a && mutex_free b.
Proof. apply forallb_app. Qed.

Lemma mutex_free_concat {A} (f : A -> list entry) l :
  (forall x, mutex_free (f x) = true) -> mutex_free (concat (map f l)) = true.
Proof.
  intros Hf. induction l as [|x l IH]; [reflexivity|].
  cbn. rewrite mutex_free_app, Hf, IH. reflexivity.
Qed.

Lemma locked_section_balanced m tr :
  balanced tr ->
  balanced (Obs (mutex_lock m) tt :: tr ++ [Obs (mutex_unlock m) tt]).
Proof.
  intros Htr l.
  change (mutexes_held_from l
            (Obs (mutex_lock m) tt :: tr ++ [Obs (mutex_unlock m) tt]))
    with (mutexes_held_from (m :: l) (tr ++ [Obs (mutex_unlock m) tt])).
  rewrite mutexes_held_from_app, Htr. cbn.
  assert (E : mutex_eqb m m = true)
    by (destruct m; cbn; auto; apply Z.eqb_refl).
  rewrite E. reflexivity.
Qed.

Lemma sendbuf_mutex_free {Env} (h : handler Env) f target amsgq data n s tr r s' :
  run f h (dart_amsg_sopnop_sendbuf target amsgq data n) s = (tr, Done r, s') ->
  mutex_free tr = true.
Proof.
  intros H. apply sendbuf_run_inv in H. destruct H as (q & off & _ & -> & _).
  destruct (reservation_fits _ _ _); reflexivity.
Qed.

Lemma dispatch_mutex_free {Env} (h : handler Env) dbuf tailpos f st s tr pe s' :
  run f h (ITree.iter (dispatch_turn dbuf tailpos) st) s = (tr, Done pe, s') ->
  mutex_free tr = true.
Proof.
  revert st s tr. induction f as [f IH] using lt_wf_ind. intros st s tr H.
  apply run_iter_inv in H; [|discriminate].
  destruct H as [(tr1 & lr & s1 & tr2 & Hb & -> & Hlr)|[Hc _]]; [|discriminate].
  unfold dispatch_turn in Hb. destruct st as [pos num].
  destruct (pos <? tailpos).
  - unfold dispatch_one in Hb. repeat run_step Hb. run_done Hb.
    destruct Hlr as (f' & Hf' & Hl). apply (IH f' Hf') in Hl.
    cbn. exact Hl.
  - run_done Hb. destruct Hlr as (_ & -> & _). reflexivity.
Qed.

Lemma drain_cycle_mutex_free {Env} (h : handler Env) f amsgq unitid queuenum
    tailpos s tr r s' :
  run f h (drain_cycle amsgq unitid queuenum tailpos) s = (tr, Done r, s') ->
  mutex_free tr = true.
Proof.
  intros H. destruct r as [a' t']. apply drain_cycle_inv in H.
  destruct H as (late & old_new & frozen & rounds & ready & tmp & old_ready
                 & trd & -> & _ & _ & _ & _ & _ & (pn & f2 & s2 & Hd)).
  apply dispatch_mutex_free in Hd.
  rewrite !mutex_free_app, Hd.
  rewrite !mutex_free_concat by reflexivity. reflexivity.
Qed.

Lemma drain_attempt_mutex_free {Env} (h : handler Env) f amsgq s tr r s' :
  run f h (drain_attempt amsgq) s = (tr, Done r, s') ->
  mutex_free tr = true.
Proof.
  unfold drain_attempt, load_queuenum. intros H.
  repeat run_step H.
  destruct (0 <? x1).
  - apply drain_cycle_mutex_free in H. cbn. exact H.
  - run_done H. reflexivity.
Qed.

Lemma turns_mutex_free {Env} (h : handler Env) blocking f amsgq s tr a' s' :
  run f h (ITree.iter (process_turn blocking) amsgq) s = (tr, Done a', s') ->
  mutex_free tr = true.
Proof.
  revert amsgq s tr. induction f as [f IH] using lt_wf_ind.
  intros amsgq s tr H.
  apply run_iter_inv in H; [|discriminate].
  destruct H as [(tr1 & lr & s1 & tr2 & Hb & -> & Hlr)|[Hc _]]; [|discriminate].
  unfold process_turn in Hb.
  run_bind Hb tr0 ct s0 tr3 Hct.
  apply drain_attempt_mutex_free in Hct.
  destruct (blocking && (0 <? snd ct)); run_done Hb; rewrite app_nil_r.
  - destruct Hlr as (f' & Hf' & Hl). apply (IH f' Hf') in Hl.
    rewrite mutex_free_app, Hct, Hl. reflexivity.
  - destruct Hlr as (_ & -> & _). rewrite app_nil_r. exact Hct.
Qed.

Lemma process_internal_balanced {Env} (h : handler Env) f amsgq blocking s tr
    r s' :
  run f h (amsg_sopnop_process_internal amsgq blocking) s = (tr, Done r, s') ->
  balanced tr.
Proof.
  unfold amsg_sopnop_process_internal. intros H.
  destruct blocking; cbn [negb] in H.
  - do 3 run_step H. cbn [negb] in H.
    run_bind H tr1 a1 s1 tr2 H1.
    run_step H. run_done H. unit_answers.
    apply turns_mutex_free in H1.
    apply locked_section_balanced. apply mutex_free_balanced. exact H1.
  - do 3 run_step H.
    destruct x; cbn [dart_ret_eqb negb] in H;
      try (run_done H; intros l; reflexivity).
    run_bind H tr1 a1 s1 tr2 H1.
    run_step H. run_done H. unit_answers.
    apply turns_mutex_free in H1. intros l.
    change (mutexes_held_from l
              (Obs (mutex_trylock processing_mutex) DART_OK
               :: tr1 ++ [Obs (mutex_unlock processing_mutex) tt]))
      with (mutexes_held_from (processing_mutex :: l)
              (tr1 ++ [Obs (mutex_unlock processing_mutex) tt])).
    rewrite mutexes_held_from_app.
    rewrite (mutex_free_balanced _ H1). reflexivity.
Qed.

(** With the [send_buffer] at hand the loop over the cache never leaves by
    its error branch, and it leaves the mutexes as it found them. *)
Lemma drain_cache_balanced {Env} (h : handler Env) on_error target cache f
    amsgq s tr r s' :
  run f h
    (drain_cache dart_amsg_sopnop_sendbuf amsg_sopnop_process_internal
       on_error target cache amsgq) s = (tr, Done r, s') ->
  fst r = inl tt /\ balanced tr.
Proof.
  revert amsgq s tr. induction f as [f IH] using lt_wf_ind.
  intros amsgq s tr H. unfold drain_cache in H.
  apply run_iter_inv in H; [|discriminate].
  destruct H as [(tr1 & lr & s1 & tr2 & Hb & -> & Hlr)|[Hc _]]; [|discriminate].
  run_bind Hb tr0 ret s0 tr3 Hsb.
  pose proof (sendbuf_returns_ok_or_again _ _ _ _ _ _ _ _ _ _ Hsb) as Hret.
  apply sendbuf_mutex_free in Hsb. apply mutex_free_balanced in Hsb.
  destruct Hret as [-> | ->]; cbn [dart_ret_eqb negb] in Hb.
  - run_done Hb. destruct Hlr as (Hd & -> & _). inversion Hd; subst.
    split; [reflexivity|]. rewrite !app_nil_r. exact Hsb.
  - run_bind Hb tr4 ra s4 tr5 Hp. run_done Hb.
    apply process_internal_balanced in Hp.
    destruct Hlr as (f' & Hf' & Hl).
    apply (IH f' Hf') in Hl. destruct Hl as [Hr Hl].
    split; [exact Hr|]. rewrite app_nil_r.
    apply balanced_app; [apply balanced_app|]; assumption.
Qed.

Lemma bsend_alloc_balanced {Env} (h : handler Env) f target amsgq s tr ac s' :
  run f h
    (match cache_slot amsgq target with
     | Some cache => Ret (amsgq, cache)
     | None =>
         ITree.trigger (mutex_lock send_mutex);;
         ac <-
           (match cache_slot amsgq target with
            | Some cache => Ret (amsgq, cache)
            | None =>
                ITree.trigger (mutex_init (cache_mutex target));;
                Ret (set_cache_slot amsgq target new_cache, new_cache)
            end);;
         ITree.trigger (mutex_unlock send_mutex);;
         Ret ac
     end) s = (tr, Done ac, s') ->
  balanced tr.
Proof.
  intros H. destruct (cache_slot amsgq target).
  - run_done H. intros l. reflexivity.
  - repeat run_step H. run_done H. unit_answers.
    apply (locked_section_balanced send_mutex [Obs (mutex_init (cache_mutex target)) tt]).
    apply mutex_free_balanced. reflexivity.
Qed.

(** With the [send_buffer] at hand, [bsend] returns OK and has released
    every mutex it acquired. *)
Lemma bsend_releases_its_mutexes {Env} (h : handler Env) fuel target amsgq fn
    data data_size s :
  let res :=
    run fuel h (dart_amsg_sopnop_bsend target amsgq fn data data_size) s in
  forall r, outcome_of res = Done r ->
  fst r = DART_OK /\ mutexes_held (trace_of res) = [].
Proof.
  intros res r Hr. subst res.
  destruct (run fuel h (dart_amsg_sopnop_bsend target amsgq fn data data_size) s)
    as [[tr o] s'] eqn:E.
  unfold outcome_of, trace_of in *. cbn [fst snd] in *. subst o.
  unfold dart_amsg_sopnop_bsend, bsend_with in E.
  run_bind E tr1 ac s1 tr2 Hac.
  apply bsend_alloc_balanced in Hac.
  destruct ac as [a1 cache].
  run_step E.
  run_bind E tr3 rc s3 tr4 Hrc.
  assert (Hdrain : balanced tr3 /\ fst (fst rc) = None).
  { destruct (to_u64 (pos cache + sizeof_header + data_size) >? MSGCACHE_SIZE).
    - run_bind Hrc tr5 ra s5 tr6 Hd.
      apply drain_cache_balanced in Hd. destruct Hd as [Hfst Hbal].
      rewrite Hfst in Hrc. run_done Hrc. rewrite app_nil_r. auto.
    - run_done Hrc. split; [intros l; reflexivity|reflexivity]. }
  destruct Hdrain as [Hbal Hnone].
  destruct rc as [[early cache'] a2]. cbn in Hnone. subst early.
  repeat run_step E. run_done E. unit_answers.
  split; [reflexivity|].
  unfold mutexes_held. rewrite mutexes_held_from_app, Hac.
  change (tr3 ++ [Obs dart_myid x0; Obs (mutex_unlock (cache_mutex target)) tt])
    with (tr3 ++ [Obs dart_myid x0] ++ [Obs (mutex_unlock (cache_mutex target)) tt]).
  rewrite app_assoc.
  apply (locked_section_balanced (cache_mutex target) (tr3 ++ [Obs dart_myid x0])).
  apply balanced_app; [exact Hbal|apply mutex_free_balanced; reflexivity].
Qed.

Lemma flush_targets_balanced {Env} (h : handler Env) comm_size f st s tr ra s' :
  run f h
    (ITree.iter
       (flush_target dart_amsg_sopnop_sendbuf amsg_sopnop_process_internal
          comm_size) st) s = (tr, Done ra, s') ->
  fst ra = None /\ balanced tr.
Proof.
  revert st s tr. induction f as [f IH] using lt_wf_ind. intros st s tr H.
  apply run_iter_inv in H; [|discriminate].
  destruct H as [(tr1 & lr & s1 & tr2 & Hb & -> & Hlr)|[Hc _]]; [|discriminate].
  assert (Hturn : balanced tr1 /\
                  match lr with inl _ => True | inr ra' => fst ra' = None end).
  { unfold flush_target in Hb. destruct st as [target amsgq].
    destruct (negb (target <? comm_size)).
    { run_done Hb. split; [intros l; reflexivity|reflexivity]. }
    destruct (cache_slot amsgq target) as [cache|].
    2: { run_done Hb. split; [intros l; reflexivity|exact I]. }
    run_step Hb. destruct (pos cache =? 0).
    { run_step Hb. run_done Hb. unit_answers. split; [|exact I].
      apply (locked_section_balanced (cache_mutex target) []).
      intros l. reflexivity. }
    run_bind Hb tr3 rd s3 tr4 Hd.
    apply drain_cache_balanced in Hd. destruct Hd as [Hfst Hbal].
    rewrite Hfst in Hb. run_step Hb. run_done Hb. unit_answers.
    split; [|exact I].
    apply (locked_section_balanced (cache_mutex target) tr3). exact Hbal. }
  destruct Hturn as [Hbal Hlr'].
  destruct lr as [st'|ra'].
  - destruct Hlr as (f' & Hf' & Hl). apply (IH f' Hf') in Hl.
    destruct Hl as [Hnone Hbal2]. split; [exact Hnone|].
    apply balanced_app; assumption.
  - destruct Hlr as (Hd & -> & _). inversion Hd; subst.
    split; [exact Hlr'|]. rewrite app_nil_r. exact Hbal.
Qed.

(** With the [send_buffer] at hand, [flush] returns OK and has released
    every mutex it acquired. *)
Lemma flush_releases_its_mutexes {Env} (h : handler Env) fuel amsgq s :
  let res := run fuel h (dart_amsg_sopnop_flush_buffer amsgq) s in
  forall r, outcome_of res = Done r ->
  fst r = DART_OK /\ mutexes_held (trace_of res) = [].
Proof.
  intros res r Hr. subst res.
  destruct (run fuel h (dart_amsg_sopnop_flush_buffer amsgq) s)
    as [[tr o] s'] eqn:E.
  unfold outcome_of, trace_of in *. cbn [fst snd] in *. subst o.
  unfold dart_amsg_sopnop_flush_buffer, flush_buffer_with in E.
  do 2 run_step E.
  run_bind E tr1 ra s3 tr2 Hloop.
  apply flush_targets_balanced in Hloop. destruct Hloop as [Hnone Hbal].
  rewrite Hnone in E. run_step E. run_done E. unit_answers.
  split; [reflexivity|].
  change (Obs (mutex_lock send_mutex) tt
          :: Obs MPI_Comm_size x0
             :: tr1 ++ [Obs (mutex_unlock send_mutex) tt])
    with (Obs (mutex_lock send_mutex) tt
          :: ([Obs MPI_Comm_size x0] ++ tr1)
             ++ [Obs (mutex_unlock send_mutex) tt]).
  apply (locked_section_balanced send_mutex ([Obs MPI_Comm_size x0] ++ tr1)).
  apply balanced_app; [apply mutex_free_balanced; reflexivity|exact Hbal].
Qed.

(** ** Delivery *)

(** C1 at its failing input, the run [lost_schedule] of [lost_threads]:
    every [try_send] but those of A and B returned OK, among them C's, for
    handler 9; both units completed [process_blocking]; yet handler 9 was
    never invoked, and the message for handler 3, sent once, was invoked
    twice, the second time from the stale bytes that the third batch never
    overwrote. *)
Theorem accepted_message_lost_and_stale_one_repeated :
  let '(ths, w) := run_schedule lost_schedule lost_threads race_world in
  results ths =
    [ Some [DART_OK; DART_OK; DART_OK]; Some [DART_OK];
      Some [DART_OK]; Some [DART_OK]; Some [DART_OK]; Some [DART_OK];
      Some [DART_OK]; Some [DART_OK];
      Some [DART_ERR_AGAIN]; Some [DART_ERR_AGAIN]; Some [DART_OK] ] /\
  map inv_fn (invoked w) = [1; 2; 3; 4; 5; 6; 3] /\
  count_invoked w 9 = 0%nat /\
  count_invoked w 3 = 2%nat /\
  held w = [].
Proof.
  vm_compute. repeat split; reflexivity.
Qed.

(** ** Loads and stores on a window *)

Lemma mem_store_outside bs : forall m a x,
  x < a \/ a + Z.of_nat (length bs) <= x -> mem_store m a bs x = m x.
Proof.
  induction bs as [|b bs IH]; intros m a x Hx; [reflexivity|].
  cbn [mem_store]. cbn [length] in Hx. rewrite IH by lia.
  destruct (x =? a) eqn:E; [apply Z.eqb_eq in E; lia|reflexivity].
Qed.

Lemma mem_load_length m n : forall a, length (mem_load m a n) = n.
Proof. induction n as [|n IH]; intros a; cbn; [reflexivity|]. rewrite IH. reflexivity. Qed.

Lemma mem_load_ext m m' n : forall a,
  (forall x, a <= x < a + Z.of_nat n -> m x = m' x) ->
  mem_load m a n = mem_load m' a n.
Proof.
  induction n as [|n IH]; intros a H; [reflexivity|].
  cbn [mem_load]. rewrite (H a) by lia. f_equal.
  apply IH. intros x Hx. apply H. lia.
Qed.

Lemma mem_load_app m n1 n2 : forall a,
  mem_load m a (n1 + n2) =
  mem_load m a n1 ++ mem_load m (a + Z.of_nat n1) n2.
Proof.
  induction n1 as [|n1 IH]; intros a.
  - cbn. rewrite Z.add_0_r. reflexivity.
  - cbn [Nat.add mem_load app]. rewrite IH. do 3 f_equal. lia.
Qed.

Lemma mem_load_store_same bs : forall m a,
  forallb is_byte bs = true ->
  mem_load (mem_store m a bs) a (length bs) = bs.
Proof.
  induction bs as [|b bs IH]; intros m a Hb; [reflexivity|].
  cbn in Hb. apply andb_true_iff in Hb. destruct Hb as [Hb Hbs].
  cbn [length mem_load mem_store]. rewrite IH by exact Hbs.
  rewrite mem_store_outside by lia. rewrite Z.eqb_refl.
  unfold is_byte in Hb. apply andb_true_iff in Hb.
  rewrite Z.leb_le, Z.ltb_lt in Hb. rewrite Z.mod_small by lia. reflexivity.
Qed.

Lemma mem_load_store_disjoint m a bs a' n :
  a' + Z.of_nat n <= a \/ a + Z.of_nat (length bs) <= a' ->
  mem_load (mem_store m a bs) a' n = mem_load m a' n.
Proof.
  intros H. apply mem_load_ext. intros x Hx.
  apply mem_store_outside. lia.
Qed.

Lemma wrap64_mod64 v : wrap64 (v mod 2 ^ 64) = wrap64 v.
Proof.
  apply wrap64_eqm.
  rewrite Zminus_mod, Z.mod_mod, <- Zminus_mod, Z.sub_diag by lia. reflexivity.
Qed.

Lemma wrap64_wrap64 v : wrap64 (wrap64 v) = wrap64 v.
Proof. apply wrap64_id. apply wrap64_range. Qed.

(** A 64-bit counter reads back what was stored in it. *)
Lemma load_store_int64_same win d v :
  win_load_int (win_store_int win MPI_INT64_T d v) MPI_INT64_T d = wrap64 v.
Proof.
  unfold win_load_int, win_store_int, win_store. cbn [win_mem dt_size dt_wrap].
  change 8%nat with (length (le_encode 8 v)) at 2.
  rewrite mem_load_store_same by apply le_encode_bytes.
  rewrite le_decode_encode. change (256 ^ Z.of_nat 8) with (2 ^ 64).
  apply wrap64_mod64.
Qed.

(** A store leaves a counter alone that it does not overlap. *)
Lemma load_int64_store_disjoint win a bs d :
  d + 8 <= a \/ a + Z.of_nat (length bs) <= d ->
  win_load_int (win_store win a bs) MPI_INT64_T d = win_load_int win MPI_INT64_T d.
Proof.
  intros H. unfold win_load_int, win_store. cbn [win_mem dt_size].
  rewrite mem_load_store_disjoint by (cbn; lia). reflexivity.
Qed.

Lemma load_int64_store_int64_disjoint win d' v d :
  d + 8 <= d' \/ d' + 8 <= d ->
  win_load_int (win_store_int win MPI_INT64_T d' v) MPI_INT64_T d
  = win_load_int win MPI_INT64_T d.
Proof.
  intros H. unfold win_store_int. apply load_int64_store_disjoint.
  rewrite le_encode_length. cbn. lia.
Qed.

Lemma mem_load_store_int64_disjoint win d v a n :
  a + Z.of_nat n <= d \/ d + 8 <= a ->
  mem_load (win_mem (win_store_int win MPI_INT64_T d v)) a n
  = mem_load (win_mem win) a n.
Proof.
  intros H. unfold win_store_int, win_store. cbn [win_mem dt_size].
  apply mem_load_store_disjoint. rewrite le_encode_length. cbn. lia.
Qed.

(** ** The model of the windows, event by event *)

Lemma nth_error_list_set_same {A} (l : list A) : forall i x y,
  nth_error l i = Some y -> nth_error (list_set l i x) i = Some x.
Proof.
  induction l as [|a l IH]; intros [|i] x y H; cbn in *; try discriminate; eauto.
Qed.

Lemma nth_error_list_set_other {A} (l : list A) : forall i j x,
  i <> j -> nth_error (list_set l i x) j = nth_error l j.
Proof.
  induction l as [|a l IH]; intros [|i] [|j] x H; cbn; try reflexivity;
    try congruence.
  apply IH. congruence.
Qed.

Lemma list_set_twice {A} (l : list A) : forall i x y,
  list_set (list_set l i x) i y = list_set l i y.
Proof.
  induction l as [|a l IH]; intros [|i] x y; cbn; try reflexivity.
  rewrite IH. reflexivity.
Qed.

Lemma list_set_length {A} (l : list A) : forall i x,
  length (list_set l i x) = length l.
Proof.
  induction l as [|a l IH]; intros [|i] x; cbn; try reflexivity.
  rewrite IH. reflexivity.
Qed.

Lemma window_of_set_window_same w target win win' :
  window_of w target = Some win ->
  window_of (set_window w target win') target = Some win'.
Proof.
  unfold window_of, set_window. cbn [windows set_windows].
  destruct (target <? 0); [discriminate|]. apply nth_error_list_set_same.
Qed.

Lemma window_of_set_window_other w target win' u :
  0 <= target -> 0 <= u -> u <> target ->
  window_of (set_window w target win') u = window_of w u.
Proof.
  intros Ht Hu Hne. unfold window_of, set_window. cbn [windows set_windows].
  destruct (u <? 0); [reflexivity|].
  apply nth_error_list_set_other. lia.
Qed.

Lemma set_window_twice w target win win' :
  set_window (set_window w target win) target win' = set_window w target win'.
Proof.
  unfold set_window, set_windows. cbn. rewrite list_set_twice. reflexivity.
Qed.

Lemma mpi_fetch64 me w operand target disp op win :
  window_of w target = Some win ->
  in_window win disp 8 = true ->
  mpi me _ (MPI_Fetch_and_op operand MPI_INT64_T target disp op) w
  = Answer (win_load_int win MPI_INT64_T disp)
      (set_window w target
         (win_store_int win MPI_INT64_T disp
            (apply_op MPI_INT64_T op (win_load_int win MPI_INT64_T disp)
               operand))).
Proof.
  intros Hw Hin. unfold mpi. rewrite Hw. cbn [dt_size].
  change (Z.of_nat 8) with 8. rewrite Hin. reflexivity.
Qed.

Lemma mpi_accumulate64 me w operand target disp op win :
  window_of w target = Some win ->
  in_window win disp 8 = true ->
  mpi me _ (MPI_Accumulate operand MPI_INT64_T target disp op) w
  = Answer tt
      (set_window w target
         (win_store_int win MPI_INT64_T disp
            (apply_op MPI_INT64_T op (win_load_int win MPI_INT64_T disp)
               operand))).
Proof.
  intros Hw Hin. unfold mpi. rewrite Hw. cbn [dt_size].
  change (Z.of_nat 8) with 8. rewrite Hin. reflexivity.
Qed.

Lemma mpi_put me w data count target disp win :
  window_of w target = Some win ->
  in_window win disp count = true ->
  mpi me _ (MPI_Put data count target disp) w
  = Answer tt
      (set_window w target
         (win_store win disp (firstn (Z.to_nat count) data))).
Proof.
  intros Hw Hin. unfold mpi. rewrite Hw, Hin. reflexivity.
Qed.

Lemma mpi_queue_load me w disp len win :
  window_of w me = Some win ->
  in_window win disp len = true ->
  mpi me _ (queue_load disp len) w
  = Answer (mem_load (win_mem win) disp (Z.to_nat len)) w.
Proof.
  intros Hw Hin. unfold mpi. rewrite Hw, Hin. reflexivity.
Qed.

Lemma mpi_invoke me w f data win :
  window_of w me = Some win ->
  mpi me _ (invoke f data) w
  = Answer tt
      (add_invoked w
         {| inv_unit := me; inv_fn := f; inv_data := data;
            inv_payload :=
              mem_load (win_mem win) data
                (Z.to_nat (le_decode (mem_load (win_mem win) (data - 4) 4))) |}).
Proof.
  intros Hw. unfold mpi. rewrite Hw. reflexivity.
Qed.

(** ** Runs, forwards *)

Section RunForward.
Context {Env : Type} (h : handler Env).

Lemma run_trigger_fwd {X R} f (e : amqE X) (k : X -> itree amqE R)
    s x s1 tr o s' :
  h _ e s = Answer x s1 ->
  run f h (k x) s1 = (tr, o, s') ->
  run (S f) h (ITree.bind (ITree.trigger e) k) s = (Obs e x :: tr, o, s').
Proof.
  intros Hh Hk. rewrite run_trigger, Hh, Hk. reflexivity.
Qed.

Lemma run_bind_fwd {R U} f1 f2 (t : itree amqE R) (k : R -> itree amqE U)
    s tr1 x s1 tr2 o s2 :
  run f1 h t s = (tr1, Done x, s1) ->
  run f2 h (k x) s1 = (tr2, o, s2) -> o <> OutOfFuel ->
  run (f1 + f2) h (ITree.bind t k) s = (tr1 ++ tr2, o, s2).
Proof.
  revert t s tr1. induction f1 as [|f1 IH]; intros t s tr1 H1 H2 Ho.
  - cbn in H1. inversion H1.
  - rewrite run_unfold in H1.
    change (S f1 + f2)%nat with (S (f1 + f2)).
    destruct (observe t) as [r|t'|X e k0] eqn:Et.
    + injection H1 as <- <- <-. cbn [app].
      assert (E : run (S (f1 + f2)) h (ITree.bind t k) s
                  = run (S (f1 + f2)) h (k r) s).
      { rewrite !run_unfold, observe_bind_cases, Et. reflexivity. }
      rewrite E. eapply run_mono; eauto. lia.
    + rewrite run_unfold, observe_bind_cases, Et. apply IH; assumption.
    + rewrite run_unfold, observe_bind_cases, Et.
      destruct (h X e s) as [y s0| |]; try (inversion H1; fail).
      destruct (run f1 h (k0 y) s0) as [[tr0 o0] s3] eqn:E0.
      inversion H1; subst.
      rewrite (IH _ _ _ E0 H2 Ho). reflexivity.
Qed.

Lemma run_iter_again {I R} f1 f2 (body : I -> itree amqE (I + R)) i
    s tr1 i' s1 tr2 o s2 :
  run f1 h (body i) s = (tr1, Done (inl i'), s1) ->
  run f2 h (ITree.iter body i') s1 = (tr2, o, s2) -> o <> OutOfFuel ->
  run (f1 + S f2) h (ITree.iter body i) s = (tr1 ++ tr2, o, s2).
Proof.
  intros H1 H2 Ho. rewrite run_iter.
  eapply run_bind_fwd; eauto.
Qed.

Lemma run_iter_leave {I R} f1 (body : I -> itree amqE (I + R)) i
    s tr1 r s1 :
  run f1 h (body i) s = (tr1, Done (inr r), s1) ->
  run (f1 + 1) h (ITree.iter body i) s = (tr1, Done r, s1).
Proof.
  intros H1. rewrite run_iter.
  rewrite <- (app_nil_r tr1).
  eapply run_bind_fwd; [exact H1|reflexivity|discriminate].
Qed.

Lemma run_assert_fwd {R} f (k : unit -> itree amqE R) s :
  run f h (ITree.bind (DART_ASSERT true) k) s = run f h (k tt) s.
Proof. cbn [DART_ASSERT]. apply run_bind_ret. Qed.

Lemma returns_ret {R} f (r : R) s : returns (S f) h (Ret r) s r s.
Proof. exists []. reflexivity. Qed.

Lemma returns_mono {R} f f' (t : itree amqE R) s r s' :
  returns f h t s r s' -> (f <= f')%nat -> returns f' h t s r s'.
Proof.
  intros [tr H] Hle. exists tr. eapply run_mono; eauto. discriminate.
Qed.

Lemma returns_trigger {X R} f (e : amqE X) (k : X -> itree amqE R)
    s x s1 r s' :
  h _ e s = Answer x s1 ->
  returns f h (k x) s1 r s' ->
  returns (S f) h (ITree.bind (ITree.trigger e) k) s r s'.
Proof.
  intros Hh [tr Hk]. exists (Obs e x :: tr). eapply run_trigger_fwd; eauto.
Qed.

Lemma returns_bind {R U} f1 f2 (t : itree amqE R) (k : R -> itree amqE U)
    s x s1 r s2 :
  returns f1 h t s x s1 ->
  returns f2 h (k x) s1 r s2 ->
  returns (f1 + f2) h (ITree.bind t k) s r s2.
Proof.
  intros [tr1 H1] [tr2 H2]. exists (tr1 ++ tr2).
  eapply run_bind_fwd; eauto. discriminate.
Qed.

Lemma returns_bind_any {R U} f1 f2 (t : itree amqE R)
    (k : R -> itree amqE U) s s1 r s2 :
  (exists x, returns f1 h t s x s1) ->
  (forall x, returns f2 h (k x) s1 r s2) ->
  returns (f1 + f2) h (ITree.bind t k) s r s2.
Proof. intros [x H1] H2. eapply returns_bind; eauto. Qed.

Lemma returns_bind_ret {R U} f (x : R) (k : R -> itree amqE U) s r s' :
  returns f h (k x) s r s' -> returns f h (ITree.bind (Ret x) k) s r s'.
Proof. unfold returns. rewrite run_bind_ret. auto. Qed.

Lemma returns_bind_bind {R U V} f (t : itree amqE R) (k : R -> itree amqE U)
    (k' : U -> itree amqE V) s r s' :
  returns f h (ITree.bind t (fun x => ITree.bind (k x) k')) s r s' ->
  returns f h (ITree.bind (ITree.bind t k) k') s r s'.
Proof. unfold returns. rewrite run_bind_bind. auto. Qed.

Lemma returns_assert {R} f (k : unit -> itree amqE R) s r s' :
  returns f h (k tt) s r s' ->
  returns f h (ITree.bind (DART_ASSERT true) k) s r s'.
Proof. unfold returns. rewrite run_assert_fwd. auto. Qed.

Lemma returns_iter_again {I R} f1 f2 (body : I -> itree amqE (I + R)) i
    s i' s1 r s2 :
  returns f1 h (body i) s (inl i') s1 ->
  returns f2 h (ITree.iter body i') s1 r s2 ->
  returns (f1 + S f2) h (ITree.iter body i) s r s2.
Proof.
  intros [tr1 H1] [tr2 H2]. exists (tr1 ++ tr2).
  eapply run_iter_again; eauto. discriminate.
Qed.

Lemma returns_iter_leave {I R} f1 (body : I -> itree amqE (I + R)) i
    s r s1 :
  returns f1 h (body i) s (inr r) s1 ->
  returns (f1 + 1) h (ITree.iter body i) s r s1.
Proof.
  intros [tr1 H1]. exists tr1. eapply run_iter_leave; eauto.
Qed.
End RunForward.

(** ** One sender on the model of the windows *)

Lemma set_window_id w target win :
  window_of w target = Some win -> set_window w target win = w.
Proof.
  unfold window_of, set_window, set_windows. destruct w as [ws hd iv wn ib bw br].
  cbn. destruct (target <? 0); [discriminate|]. intros H. f_equal.
  revert H. generalize (Z.to_nat target). clear.
  induction ws as [|a ws IH]; intros [|i] H; cbn in *; try discriminate.
  - congruence.
  - rewrite IH by exact H. reflexivity.
Qed.

Lemma mpi_fetch64_at me w operand target disp op win0 win :
  window_of w target = Some win0 ->
  in_window win disp 8 = true ->
  mpi me _ (MPI_Fetch_and_op operand MPI_INT64_T target disp op)
    (set_window w target win)
  = Answer (win_load_int win MPI_INT64_T disp)
      (set_window w target
         (win_store_int win MPI_INT64_T disp
            (apply_op MPI_INT64_T op (win_load_int win MPI_INT64_T disp)
               operand))).
Proof.
  intros Hw Hin.
  rewrite (mpi_fetch64 me _ operand target disp op win
             (window_of_set_window_same _ _ _ _ Hw) Hin).
  rewrite set_window_twice. reflexivity.
Qed.

Lemma mpi_accumulate64_at me w operand target disp op win0 win :
  window_of w target = Some win0 ->
  in_window win disp 8 = true ->
  mpi me _ (MPI_Accumulate operand MPI_INT64_T target disp op)
    (set_window w target win)
  = Answer tt
      (set_window w target
         (win_store_int win MPI_INT64_T disp
            (apply_op MPI_INT64_T op (win_load_int win MPI_INT64_T disp)
               operand))).
Proof.
  intros Hw Hin.
  rewrite (mpi_accumulate64 me _ operand target disp op win
             (window_of_set_window_same _ _ _ _ Hw) Hin).
  rewrite set_window_twice. reflexivity.
Qed.

Lemma mpi_put_at me w data count target disp win0 win :
  window_of w target = Some win0 ->
  in_window win disp count = true ->
  mpi me _ (MPI_Put data count target disp) (set_window w target win)
  = Answer tt
      (set_window w target
         (win_store win disp (firstn (Z.to_nat count) data))).
Proof.
  intros Hw Hin.
  rewrite (mpi_put me _ data count target disp win
             (window_of_set_window_same _ _ _ _ Hw) Hin).
  rewrite set_window_twice. reflexivity.
Qed.

Lemma openq_win_size_simpl qs :
  0 <= qs -> 2 * qs + 40 <= INT64_MAX -> openq_win_size qs = 2 * qs + 40.
Proof.
  intros H H'. unfold openq_win_size, to_u64, INT64_MAX in *.
  rewrite Z.mod_small; lia.
Qed.

Lemma OFFSET_DATA_0 qs : OFFSET_DATA 0 qs = 40.
Proof. reflexivity. Qed.

Lemma OFFSET_DATA_1 qs : 0 <= qs -> 2 * qs + 40 <= INT64_MAX -> OFFSET_DATA 1 qs = 40 + qs.
Proof.
  intros H H'. unfold OFFSET_DATA. change (OFFSET_READYPOS 1) with 32.
  unfold to_u64, INT64_MAX in *. rewrite Z.mod_small; lia.
Qed.

Lemma OFFSET_DATA_q qs q :
  0 <= qs -> 2 * qs + 40 <= INT64_MAX -> q = 0 \/ q = 1 -> OFFSET_DATA q qs = 40 + q * qs.
Proof.
  intros H H' [-> | ->];
    [rewrite OFFSET_DATA_0|rewrite OFFSET_DATA_1 by assumption]; lia.
Qed.

Lemma firstn_is_byte n (l : list Z) :
  forallb is_byte l = true -> forallb is_byte (firstn n l) = true.
Proof.
  revert n. induction l as [|a l IH]; intros [|n] H; cbn in *; auto.
  apply andb_true_iff in H. destruct H as [Ha Hl].
  rewrite Ha, IH by exact Hl. reflexivity.
Qed.

Lemma in_window_word qs win d :
  0 <= qs -> 2 * qs + 40 <= INT64_MAX -> win_size win = openq_win_size qs ->
  0 <= d <= 32 -> in_window win d 8 = true.
Proof.
  intros Hqs Hqs' Hsz Hd. unfold in_window.
  rewrite Hsz, openq_win_size_simpl by lia.
  apply andb_true_iff; split; [apply andb_true_iff; split|]; apply Z.leb_le; lia.
Qed.

Lemma in_window_data qs win q off n :
  0 <= qs -> 2 * qs + 40 <= INT64_MAX -> win_size win = openq_win_size qs ->
  q = 0 \/ q = 1 -> 0 <= off -> 0 <= n -> off + n <= qs ->
  in_window win (40 + q * qs + off) n = true.
Proof.
  intros Hqs Hqs' Hsz Hq Hoff Hn Hfit. unfold in_window.
  rewrite Hsz, openq_win_size_simpl by lia.
  apply andb_true_iff; split; [apply andb_true_iff; split|]; apply Z.leb_le;
    destruct Hq as [-> | ->]; lia.
Qed.

Ltac norm_offsets :=
  change (MPI_Aint OFFSET_QUEUENUM) with 0 in *;
  change (MPI_Aint (OFFSET_TAILPOS 0)) with 8 in *;
  change (MPI_Aint (OFFSET_READYPOS 0)) with 16 in *;
  change (MPI_Aint (OFFSET_TAILPOS 1)) with 24 in *;
  change (MPI_Aint (OFFSET_READYPOS 1)) with 32 in *;
  change OFFSET_QUEUENUM with 0 in *;
  change (OFFSET_TAILPOS 0) with 8 in *;
  change (OFFSET_READYPOS 0) with 16 in *;
  change (OFFSET_TAILPOS 1) with 24 in *;
  change (OFFSET_READYPOS 1) with 32 in *.

Ltac win_loads :=
  repeat first
    [ rewrite load_store_int64_same
    | rewrite load_int64_store_int64_disjoint by lia
    | rewrite load_int64_store_disjoint by lia
    | rewrite mem_load_store_int64_disjoint by lia ].

Lemma firstn_length_Z {A} n (l : list A) :
  0 <= n <= Z.of_nat (length l) ->
  Z.of_nat (length (firstn (Z.to_nat n) l)) = n.
Proof. intros H. rewrite length_firstn. lia. Qed.

Lemma mem_load_append win a bytes msg :
  mem_load (win_mem win) a (length bytes) = bytes ->
  forallb is_byte msg = true ->
  mem_load (win_mem (win_store win (a + Z.of_nat (length bytes)) msg)) a
    (length bytes + length msg) = bytes ++ msg.
Proof.
  intros Hb Hm. unfold win_store. cbn [win_mem].
  rewrite mem_load_app, mem_load_store_disjoint by lia.
  rewrite Hb, mem_load_store_same by exact Hm. reflexivity.
Qed.

Lemma offsets_of_queue q :
  q = 0 \/ q = 1 ->
  OFFSET_TAILPOS q = 8 + 16 * q /\
  OFFSET_READYPOS q = 16 + 16 * q /\
  OFFSET_TAILPOS (other_queue q) = 24 - 16 * q /\
  OFFSET_READYPOS (other_queue q) = 32 - 16 * q /\
  MPI_Aint (OFFSET_TAILPOS q) = 8 + 16 * q /\
  MPI_Aint (OFFSET_READYPOS q) = 16 + 16 * q /\
  MPI_Aint (OFFSET_TAILPOS (other_queue q)) = 24 - 16 * q /\
  MPI_Aint (OFFSET_READYPOS (other_queue q)) = 32 - 16 * q /\
  other_queue (other_queue q) = q /\
  (other_queue q = 0 \/ other_queue q = 1) /\
  wrap64 (q + (if q =? 0 then 1 else -1)) = other_queue q.
Proof. intros [-> | ->]; vm_compute; repeat split; auto. Qed.

Ltac fetch_step Hw Q Hsz :=
  eapply returns_trigger;
  [ apply (mpi_fetch64_at _ _ _ _ _ _ _ _ Hw);
    apply (in_window_word Q); [lia|lia|exact Hsz|lia]
  | cbv beta ].

Ltac flush_step := eapply returns_trigger; [reflexivity|cbv beta].

(** [send_buffer] on a quiescent window, when the bytes fit: they are
    appended to the active sub-queue. *)
Lemma sendbuf_world_ok fuel me w target amsgq data n win q bytes late :
  (11 <= fuel)%nat ->
  0 <= queue_size amsgq -> 2 * queue_size amsgq + 40 <= INT64_MAX ->
  window_of w target = Some win ->
  quiescent (queue_size amsgq) win q bytes late ->
  0 <= n <= INT32_MAX ->
  Z.of_nat (length bytes) + n <= queue_size amsgq ->
  n <= Z.of_nat (length data) ->
  forallb is_byte data = true ->
  exists win',
    returns fuel (mpi me) (dart_amsg_sopnop_sendbuf target amsgq data n) w
      DART_OK (set_window w target win') /\
    quiescent (queue_size amsgq) win' q (bytes ++ firstn (Z.to_nat n) data)
      late.
Proof.
  intros Hfuel Hqs Hqs' Hw (Hsz & Hsel & Hq & Htail & Hready & Hdata & Hlate & Hor)
    Hn Hfit Hlen Hbytes.
  set (Q := queue_size amsgq) in *.
  set (len := Z.of_nat (length bytes)) in *.
  assert (Hwn : wrap64 n = n)
    by (apply wrap64_id; unfold INT64_MIN, INT64_MAX, INT32_MAX in *; lia).
  assert (Hwn32 : wrap32 n = n) by (apply wrap32_id; unfold INT32_MAX in *; lia).
  assert (Hfits : (0 <=? len) && (to_u64 (wrap64 (len + n)) <=? Q) = true).
  { apply andb_true_iff. split; [apply Z.leb_le; lia|]. apply Z.leb_le.
    rewrite to_u64_wrap64, Z.mod_small; unfold INT32_MAX, INT64_MAX in *; lia. }
  assert (Hdisp : MPI_Aint (to_u64 (OFFSET_DATA q Q + len)) = 40 + q * Q + len).
  { rewrite (OFFSET_DATA_simpl Q q) by lia. reflexivity. }
  assert (HD : OFFSET_DATA q Q = 40 + q * Q) by (apply OFFSET_DATA_q; auto).
  assert (HqQ : 0 <= q * Q <= Q) by (destruct Hq as [-> | ->]; lia).
  assert (Hl : Z.of_nat (length (firstn (Z.to_nat n) data)) = n)
    by (apply firstn_length_Z; lia).
  assert (Hsum : wrap64 (len + n) = len + n)
    by (apply wrap64_id; unfold INT64_MIN, INT64_MAX, INT32_MAX in *; lia).
  assert (Hb' : forallb is_byte (firstn (Z.to_nat n) data) = true)
    by (apply firstn_is_byte; exact Hbytes).
  destruct (offsets_of_queue q Hq)
    as (HT & HR & HTn & HRn & HTa & HRa & HTna & HRna & Hoo & Hoq & Hswap).
  unfold tailpos_of, readypos_of, queuenum_of in *. norm_offsets.
  rewrite HT in Htail. rewrite HR in Hready.
  rewrite HTn in Hlate. rewrite HRn in Hor. rewrite HD in Hdata.
  eexists. split.
  { apply returns_mono with (f := ((5 + 1) + 5)%nat); [|lia].
    rewrite <- (set_window_id w target win Hw) at 1.
    unfold dart_amsg_sopnop_sendbuf, sendbuf_reserve. rewrite Hwn.
    norm_offsets. change (queue_size amsgq) with Q.
    eapply returns_bind; [eapply returns_iter_leave|].
    - eapply returns_trigger;
        [apply (mpi_fetch64_at _ _ _ _ _ _ _ _ Hw);
         apply (in_window_word Q); [lia|lia|exact Hsz|lia]|cbv beta].
      eapply returns_trigger; [reflexivity|cbv beta].
      rewrite Hsel.
      replace ((q =? 0) || (q =? 1)) with true
        by (destruct Hq as [-> | ->]; reflexivity).
      apply returns_assert. rewrite HTa.
      eapply returns_trigger;
        [apply (mpi_fetch64_at _ _ _ _ _ _ _ _ Hw);
         apply (in_window_word Q); [lia|lia|exact Hsz|lia]|cbv beta].
      eapply returns_trigger; [reflexivity|cbv beta].
      cbn [apply_op dt_wrap]. win_loads. rewrite Htail, Hfits.
      apply (returns_ret _ 0%nat).
    - cbv beta iota. rewrite Hdisp, Hwn32, HRa.
      eapply returns_trigger;
        [apply (mpi_put_at _ _ _ _ _ _ _ _ Hw);
         apply (in_window_data Q); auto; lia|cbv beta].
      eapply returns_trigger; [reflexivity|cbv beta].
      eapply returns_trigger;
        [apply (mpi_accumulate64_at _ _ _ _ _ _ _ _ Hw);
         apply (in_window_word Q); [lia|lia|exact Hsz|lia]|cbv beta].
      eapply returns_trigger; [reflexivity|cbv beta].
      apply (returns_ret _ 0%nat). }
  unfold quiescent, tailpos_of, readypos_of, queuenum_of.
  rewrite HTn, HRn, HT, HR, HD. norm_offsets.
  rewrite length_app, Nat2Z.inj_add, Hl. fold len.
  cbn [apply_op dt_wrap win_size win_store_int win_store].
  rewrite Hsum. win_loads. rewrite Hready, ?wrap64_wrap64, Hsum.
  rewrite (wrap64_id q) by (unfold INT64_MIN, INT64_MAX; lia).
  repeat split; auto.
  change (mem_load
            (win_mem
               (win_store
                  (win_store_int (win_store_int win MPI_INT64_T 0 q)
                     MPI_INT64_T (8 + 16 * q) (len + n))
                  (40 + q * Q + Z.of_nat (length bytes))
                  (firstn (Z.to_nat n) data)))
            (40 + q * Q) (length bytes + length (firstn (Z.to_nat n) data))
          = bytes ++ firstn (Z.to_nat n) data).
  apply mem_load_append; [|exact Hb'].
  win_loads. exact Hdata.
Qed.

(** [send_buffer] on a quiescent window, when the bytes do not fit: the
    counters and the bytes of the queue are as before. *)
Lemma sendbuf_world_again fuel me w target amsgq data n win q bytes late :
  (11 <= fuel)%nat ->
  0 <= queue_size amsgq -> 2 * queue_size amsgq + 40 <= INT64_MAX ->
  window_of w target = Some win ->
  quiescent (queue_size amsgq) win q bytes late ->
  0 <= n <= INT32_MAX ->
  Z.of_nat (length bytes) <= queue_size amsgq ->
  queue_size amsgq < Z.of_nat (length bytes) + n ->
  exists win',
    returns fuel (mpi me) (dart_amsg_sopnop_sendbuf target amsgq data n) w
      DART_ERR_AGAIN (set_window w target win') /\
    quiescent (queue_size amsgq) win' q bytes late.
Proof.
  intros Hfuel Hqs Hqs' Hw (Hsz & Hsel & Hq & Htail & Hready & Hdata & Hlate & Hor)
    Hn Hin Hfit.
  set (Q := queue_size amsgq) in *.
  set (len := Z.of_nat (length bytes)) in *.
  assert (Hwn : wrap64 n = n)
    by (apply wrap64_id; unfold INT64_MIN, INT64_MAX, INT32_MAX in *; lia).
  assert (Hfits : (0 <=? len) && (to_u64 (wrap64 (len + n)) <=? Q) = false).
  { apply andb_false_iff. right. apply Z.leb_gt.
    rewrite to_u64_wrap64, Z.mod_small; unfold INT32_MAX, INT64_MAX in *; lia. }
  assert (HD : OFFSET_DATA q Q = 40 + q * Q) by (apply OFFSET_DATA_q; auto).
  assert (HqQ : 0 <= q * Q <= Q) by (destruct Hq as [-> | ->]; lia).
  assert (Hsum : wrap64 (len + n) = len + n)
    by (apply wrap64_id; unfold INT64_MIN, INT64_MAX, INT32_MAX in *; lia).
  assert (Hback : wrap64 (len + n + wrap64 (- n)) = len).
  { rewrite wrap64_add_r.
    replace (len + n + - n) with len by lia.
    apply wrap64_id. unfold INT64_MIN, INT64_MAX in *. lia. }
  destruct (offsets_of_queue q Hq)
    as (HT & HR & HTn & HRn & HTa & HRa & HTna & HRna & Hoo & Hoq & Hswap).
  unfold tailpos_of, readypos_of, queuenum_of in *. norm_offsets.
  rewrite HT in Htail. rewrite HR in Hready.
  rewrite HTn in Hlate. rewrite HRn in Hor. rewrite HD in Hdata.
  eexists. split.
  { apply returns_mono with (f := ((7 + 1) + 1)%nat); [|lia].
    rewrite <- (set_window_id w target win Hw) at 1.
    unfold dart_amsg_sopnop_sendbuf, sendbuf_reserve. rewrite Hwn.
    norm_offsets. change (queue_size amsgq) with Q.
    eapply returns_bind; [eapply returns_iter_leave|].
    - eapply returns_trigger;
        [apply (mpi_fetch64_at _ _ _ _ _ _ _ _ Hw);
         apply (in_window_word Q); [lia|lia|exact Hsz|lia]|cbv beta].
      eapply returns_trigger; [reflexivity|cbv beta].
      rewrite Hsel.
      replace ((q =? 0) || (q =? 1)) with true
        by (destruct Hq as [-> | ->]; reflexivity).
      apply returns_assert. rewrite HTa.
      eapply returns_trigger;
        [apply (mpi_fetch64_at _ _ _ _ _ _ _ _ Hw);
         apply (in_window_word Q); [lia|lia|exact Hsz|lia]|cbv beta].
      eapply returns_trigger; [reflexivity|cbv beta].
      cbn [apply_op dt_wrap]. win_loads. rewrite Htail, Hfits.
      eapply returns_trigger;
        [apply (mpi_accumulate64_at _ _ _ _ _ _ _ _ Hw);
         apply (in_window_word Q); [lia|lia|exact Hsz|lia]|cbv beta].
      eapply returns_trigger; [reflexivity|cbv beta].
      apply (returns_ret _ 0%nat).
    - cbv beta iota. apply (returns_ret _ 0%nat). }
  unfold quiescent, tailpos_of, readypos_of, queuenum_of.
  rewrite HTn, HRn, HT, HR, HD. norm_offsets. fold len.
  cbn [apply_op dt_wrap win_size win_store_int win_store].
  win_loads. rewrite ?wrap64_wrap64, Hsum, Hback.
  rewrite (wrap64_id q) by (unfold INT64_MIN, INT64_MAX; lia).
  repeat split; auto.
Qed.

Lemma message_bytes_length m :
  Z.of_nat (length (message_bytes m)) = sizeof_header + payload_size m.
Proof.
  unfold message_bytes, encode_header, payload_size, sizeof_header.
  rewrite !length_app, !le_encode_length. lia.
Qed.

Lemma message_ok_spec m :
  message_ok m = true ->
  0 <= msg_fn m < 2 ^ 64 /\ forallb is_byte (msg_payload m) = true /\
  sizeof_header + payload_size m <= INT32_MAX.
Proof.
  unfold message_ok. rewrite !andb_true_iff, !Z.leb_le, Z.ltb_lt. tauto.
Qed.

Lemma message_bytes_bytes m :
  message_ok m = true -> forallb is_byte (message_bytes m) = true.
Proof.
  intros H. apply message_ok_spec in H. destruct H as (_ & Hp & _).
  unfold message_bytes, encode_header.
  rewrite !forallb_app, !le_encode_bytes, Hp. reflexivity.
Qed.

Lemma trysend_size m :
  message_ok m = true ->
  to_u64 (wrap64 (to_u64 (sizeof_header + payload_size m)))
  = sizeof_header + payload_size m.
Proof.
  intros H. apply message_ok_spec in H. destruct H as (_ & _ & Hs).
  unfold payload_size, sizeof_header, to_u64, INT32_MAX in *.
  rewrite (Z.mod_small (16 + _)) by lia.
  rewrite wrap64_id by (unfold INT64_MIN, INT64_MAX; lia).
  apply Z.mod_small. lia.
Qed.

Lemma trysend_message m :
  encode_header
    {| fn := msg_fn m; remote := msg_sender m;
       data_size := to_u32 (payload_size m) |}
  ++ firstn (Z.to_nat (payload_size m)) (msg_payload m)
  = message_bytes m.
Proof.
  unfold message_bytes, payload_size. rewrite Nat2Z.id, firstn_all. reflexivity.
Qed.

(** [try_send] on a quiescent window, when the message fits: it is
    appended to the active sub-queue. *)
Lemma trysend_world_ok fuel w target amsgq m win q bytes late :
  (12 <= fuel)%nat ->
  0 <= queue_size amsgq -> 2 * queue_size amsgq + 40 <= INT64_MAX ->
  window_of w target = Some win ->
  quiescent (queue_size amsgq) win q bytes late ->
  message_ok m = true ->
  Z.of_nat (length bytes) + sizeof_header + payload_size m
    <= queue_size amsgq ->
  exists win',
    returns fuel (mpi (msg_sender m))
      (dart_amsg_sopnop_trysend target amsgq (msg_fn m) (msg_payload m)
         (payload_size m)) w DART_OK (set_window w target win') /\
    quiescent (queue_size amsgq) win' q (bytes ++ message_bytes m) late.
Proof.
  intros Hfuel Hqs Hqs' Hw Hquiet Hm Hfit.
  pose proof (message_ok_spec m Hm) as (Hfn & Hp & Hs).
  destruct fuel as [|fuel]; [lia|].
  destruct (sendbuf_world_ok fuel (msg_sender m) w target amsgq
              (message_bytes m) (sizeof_header + payload_size m) win q bytes
              late ltac:(lia) Hqs Hqs' Hw Hquiet)
    as (win' & Hrun & Hq').
  { unfold sizeof_header, payload_size in *. lia. }
  { lia. }
  { rewrite message_bytes_length. lia. }
  { apply message_bytes_bytes. exact Hm. }
  exists win'. split.
  - unfold dart_amsg_sopnop_trysend.
    eapply returns_trigger; [reflexivity|cbv beta zeta].
    rewrite trysend_size, trysend_message by exact Hm. exact Hrun.
  - rewrite <- message_bytes_length, Nat2Z.id, firstn_all in Hq'. exact Hq'.
Qed.

(** [try_send] on a quiescent window, when the message does not fit: the
    queue is as before. *)
Lemma trysend_world_again fuel w target amsgq m win q bytes late :
  (12 <= fuel)%nat ->
  0 <= queue_size amsgq -> 2 * queue_size amsgq + 40 <= INT64_MAX ->
  window_of w target = Some win ->
  quiescent (queue_size amsgq) win q bytes late ->
  message_ok m = true ->
  Z.of_nat (length bytes) <= queue_size amsgq ->
  queue_size amsgq
    < Z.of_nat (length bytes) + sizeof_header + payload_size m ->
  exists win',
    returns fuel (mpi (msg_sender m))
      (dart_amsg_sopnop_trysend target amsgq (msg_fn m) (msg_payload m)
         (payload_size m)) w DART_ERR_AGAIN (set_window w target win') /\
    quiescent (queue_size amsgq) win' q bytes late.
Proof.
  intros Hfuel Hqs Hqs' Hw Hquiet Hm Hin Hfit.
  pose proof (message_ok_spec m Hm) as (Hfn & Hp & Hs).
  destruct fuel as [|fuel]; [lia|].
  destruct (sendbuf_world_again fuel (msg_sender m) w target amsgq
              (message_bytes m) (sizeof_header + payload_size m) win q bytes
              late ltac:(lia) Hqs Hqs' Hw Hquiet)
    as (win' & Hrun & Hq').
  { unfold sizeof_header, payload_size in *. lia. }
  { exact Hin. }
  { lia. }
  exists win'. split; [|exact Hq'].
  unfold dart_amsg_sopnop_trysend.
  eapply returns_trigger; [reflexivity|cbv beta zeta].
  rewrite trysend_size, trysend_message by exact Hm. exact Hrun.
Qed.

(** ** The drainer on the model of the windows *)

Lemma app_eq_length {A} (a c b d : list A) :
  length a = length c -> a ++ b = c ++ d -> a = c /\ b = d.
Proof.
  revert c. induction a as [|x a IH]; intros [|y c] Hl H; cbn in *;
    try discriminate; auto.
  injection H as -> H. injection Hl as Hl.
  destruct (IH c Hl H) as [-> ->]. auto.
Qed.

Lemma mem_load_split m a (x y : list Z) :
  mem_load m a (length (x ++ y)) = x ++ y ->
  mem_load m a (length x) = x /\
  mem_load m (a + Z.of_nat (length x)) (length y) = y.
Proof.
  rewrite length_app, mem_load_app. apply app_eq_length.
  apply mem_load_length.
Qed.

Lemma window_of_deliver_all l : forall w u,
  window_of (deliver_all w l) u = window_of w u.
Proof.
  induction l as [|i l IH]; intros w u; [reflexivity|].
  change (deliver_all w (i :: l)) with (deliver_all (add_invoked w i) l).
  rewrite IH. reflexivity.
Qed.

Lemma invoked_deliver_all l : forall w,
  invoked (deliver_all w l) = invoked w ++ l.
Proof.
  induction l as [|i l IH]; intros w; [cbn; rewrite app_nil_r; reflexivity|].
  change (deliver_all w (i :: l)) with (deliver_all (add_invoked w i) l).
  rewrite IH. cbn. rewrite <- app_assoc. reflexivity.
Qed.

Lemma held_deliver_all l : forall w, held (deliver_all w l) = held w.
Proof.
  induction l as [|i l IH]; intros w; [reflexivity|].
  change (deliver_all w (i :: l)) with (deliver_all (add_invoked w i) l).
  rewrite IH. reflexivity.
Qed.

Lemma packed_cons m msgs : packed (m :: msgs) = message_bytes m ++ packed msgs.
Proof. reflexivity. Qed.

Lemma packed_app a b : packed (a ++ b) = packed a ++ packed b.
Proof. unfold packed. rewrite map_app, concat_app. reflexivity. Qed.

Lemma to_u32_small z : 0 <= z <= INT32_MAX -> to_u32 z = z.
Proof. unfold to_u32, INT32_MAX. intros H. apply Z.mod_small. lia. Qed.

(** The dispatch loop over packed messages in the window: one handler call
    per message, in the order of the queue, each on the payload that was
    sent. *)
Lemma dispatch_world me win dbuf tailpos msgs : forall fuel w pos num,
  (6 * length msgs + 2 <= fuel)%nat ->
  window_of w me = Some win ->
  forallb message_ok msgs = true ->
  mem_load (win_mem win) (dbuf + pos) (length (packed msgs)) = packed msgs ->
  tailpos = pos + Z.of_nat (length (packed msgs)) ->
  0 <= pos -> tailpos <= INT64_MAX - sizeof_header ->
  0 <= dbuf -> dbuf + tailpos <= win_size win ->
  exists pn,
    returns fuel (mpi me) (ITree.iter (dispatch_turn dbuf tailpos) (pos, num))
      w pn (deliver_all w (deliveries me dbuf pos msgs)).
Proof.
  induction msgs as [|m msgs IH];
    intros fuel w pos num Hfuel Hw Hok Hmem Htail Hpos Hmax Hdbuf Hwin.
  - cbn in Htail. exists (pos, num).
    eapply returns_mono; [|exact Hfuel].
    change (6 * length (@nil message) + 2)%nat with (1 + 1)%nat.
    apply returns_iter_leave. unfold dispatch_turn.
    replace (pos <? tailpos) with false by (symmetry; apply Z.ltb_ge; lia).
    apply (returns_ret _ 0%nat).
  - cbn [forallb] in Hok. apply andb_true_iff in Hok. destruct Hok as [Hm Hok].
    pose proof (message_ok_spec m Hm) as (Hfn & Hp & Hs).
    rewrite packed_cons in Hmem, Htail.
    apply mem_load_split in Hmem. destruct Hmem as [Hhead Hrest].
    pose proof (message_bytes_length m) as Hlen.
    rewrite length_app, Nat2Z.inj_add, Hlen in Htail.
    rewrite Hlen in Hrest.
    unfold message_bytes, encode_header in Hhead.
    cbn [fn remote data_size] in Hhead.
    rewrite !app_assoc in Hhead.
    apply mem_load_split in Hhead. destruct Hhead as [Hhdr Hpay].
    apply mem_load_split in Hhdr. destruct Hhdr as [Hhdr Hds].
    apply mem_load_split in Hhdr. destruct Hhdr as [Hf Hrem].
    rewrite !length_app, !le_encode_length in *.
    cbn [Nat.add Z.of_nat Pos.of_succ_nat Pos.succ] in Hds, Hpay, Hf.
    assert (Hpsz : 0 <= payload_size m) by (unfold payload_size; lia).
    assert (Hp16 : wrap64 (to_u64 (pos + sizeof_header)) = pos + sizeof_header).
    { unfold to_u64, sizeof_header, INT64_MAX in *.
      rewrite Z.mod_small by lia.
      apply wrap64_id. unfold INT64_MIN, INT64_MAX. lia. }
    assert (Hdsv : le_decode (le_encode 4 (to_u32 (payload_size m)))
                   = payload_size m).
    { rewrite le_decode_encode. change (256 ^ Z.of_nat 4) with (2 ^ 32).
      unfold sizeof_header, INT32_MAX in *.
      rewrite to_u32_small by (unfold INT32_MAX; lia).
      apply Z.mod_small. lia. }
    assert (Hfv : le_decode (le_encode 8 (msg_fn m)) = msg_fn m).
    { rewrite le_decode_encode. change (256 ^ Z.of_nat 8) with (2 ^ 64).
      apply Z.mod_small. lia. }
    set (pos' := pos + sizeof_header + payload_size m).
    assert (Hpos' : wrap64 (pos + sizeof_header + payload_size m) = pos').
    { apply wrap64_id. unfold pos'.
      unfold INT64_MIN, INT64_MAX, sizeof_header in *. lia. }
    assert (H1 : (6 * length msgs + 2 <= fuel - 6)%nat)
      by (cbn [length] in Hfuel; lia).
    assert (H3 : mem_load (win_mem win) (dbuf + pos')
                   (length (packed msgs)) = packed msgs).
    { replace (dbuf + pos')
        with (dbuf + pos + (sizeof_header + payload_size m))
        by (unfold pos'; lia).
      exact Hrest. }
    assert (H4 : tailpos = pos' + Z.of_nat (length (packed msgs)))
      by (unfold pos'; lia).
    assert (H5 : 0 <= pos') by (unfold pos', sizeof_header; lia).
    destruct (IH (fuel - 6)%nat
                (add_invoked w (delivery me dbuf pos m)) pos'
                (wrap32 (num + 1)) H1 Hw Hok H3 H4 H5 Hmax Hdbuf Hwin)
      as (pn & Hrun).
    exists pn.
    eapply returns_mono.
    + eapply returns_iter_again; [|exact Hrun].
      unfold dispatch_turn.
      replace (pos <? tailpos) with true
        by (symmetry; apply Z.ltb_lt; unfold sizeof_header in *; lia).
      unfold dispatch_one. rewrite Hp16.
      apply returns_bind_bind.
      eapply returns_trigger.
      { apply (mpi_queue_load me w _ _ win Hw).
        unfold in_window, sizeof_header in *.
        apply andb_true_iff; split; [apply andb_true_iff; split|];
          apply Z.leb_le; lia. }
      cbv beta. change (Z.to_nat 4) with 4%nat.
      rewrite Hds, Hdsv, Hpos'.
      replace (pos' <=? tailpos) with true
        by (symmetry; apply Z.leb_le; lia).
      apply returns_bind_bind, returns_assert, returns_bind_bind.
      eapply returns_trigger.
      { apply (mpi_queue_load me w _ _ win Hw).
        unfold in_window, sizeof_header in *.
        apply andb_true_iff; split; [apply andb_true_iff; split|];
          apply Z.leb_le; lia. }
      cbv beta. change (Z.to_nat 8) with 8%nat. rewrite Hf, Hfv.
      apply returns_bind_bind.
      eapply returns_trigger.
      { rewrite (mpi_invoke me w _ _ win Hw).
        replace (dbuf + (pos + sizeof_header) - 4) with (dbuf + pos + 12)
          by (unfold sizeof_header; lia).
        rewrite Hds, Hdsv. unfold payload_size. rewrite Nat2Z.id.
        replace (dbuf + pos + 16) with (dbuf + (pos + sizeof_header)) in Hpay
          by (unfold sizeof_header; lia).
        rewrite Hpay. reflexivity. }
      cbv beta. apply returns_bind_ret. apply (returns_ret _ 0%nat).
    + cbn [length] in Hfuel. lia.
Qed.

Lemma mpi_queue_load_at me w disp len win0 win :
  window_of w me = Some win0 ->
  in_window win disp len = true ->
  mpi me _ (queue_load disp len) (set_window w me win)
  = Answer (mem_load (win_mem win) disp (Z.to_nat len)) (set_window w me win).
Proof.
  intros Hw Hin.
  apply (mpi_queue_load me _ disp len win
           (window_of_set_window_same _ _ _ _ Hw) Hin).
Qed.

(** One attempt of the drainer on a quiescent window that holds messages:
    the selector moves to the other sub-queue, every message is dispatched,
    and the drained sub-queue is left frozen at [-INT32_MAX]. *)
Lemma drain_attempt_world fuel me w amsgq win q msgs :
  (6 * length msgs + 40 <= fuel)%nat ->
  0 <= queue_size amsgq -> 2 * queue_size amsgq + 40 <= INT64_MAX ->
  window_of w me = Some win ->
  quiescent (queue_size amsgq) win q (packed msgs) (prev_tailpos amsgq) ->
  forallb message_ok msgs = true ->
  0 < Z.of_nat (length (packed msgs)) <= queue_size amsgq ->
  exists win',
    returns fuel (mpi me) (drain_attempt amsgq) w
      (set_prev_tailpos amsgq (- INT32_MAX), Z.of_nat (length (packed msgs)))
      (deliver_all (set_window w me win')
         (deliveries me (OFFSET_DATA q (queue_size amsgq)) 0 msgs)) /\
    quiescent (queue_size amsgq) win' (other_queue q) [] (- INT32_MAX).
Proof.
  intros Hfuel Hqs Hqs' Hw (Hsz & Hsel & Hq & Htail & Hready & Hdata & Hlate & Hor)
    Hok Hlen.
  set (Q := queue_size amsgq) in *.
  set (len := Z.of_nat (length (packed msgs))) in *.
  assert (HD : OFFSET_DATA q Q = 40 + q * Q) by (apply OFFSET_DATA_q; auto).
  assert (HqQ : 0 <= q * Q <= Q) by (destruct Hq as [-> | ->]; lia).
  assert (Hsub : wrap64 (wrap64 (- len) - INT32_MAX) = - len - INT32_MAX).
  { rewrite (wrap64_id (- len))
      by (unfold INT64_MIN, INT64_MAX, INT32_MAX in *; lia).
    apply wrap64_id. unfold INT64_MIN, INT64_MAX, INT32_MAX in *. lia. }
  assert (Hwl : wrap64 len = len)
    by (apply wrap64_id; unfold INT64_MIN, INT64_MAX in *; lia).
  assert (Hfrozen : wrap64 (len + (- len - INT32_MAX)) = - INT32_MAX).
  { replace (len + (- len - INT32_MAX)) with (- INT32_MAX) by lia. reflexivity. }
  assert (Hrec : wrap64 (- INT32_MAX + wrap64 (- (- len - INT32_MAX))) = len).
  { rewrite wrap64_add_r.
    replace (- INT32_MAX + - (- len - INT32_MAX)) with len by lia.
    apply wrap64_id. unfold INT64_MIN, INT64_MAX, INT32_MAX in *. lia. }
  assert (Hprev : wrap64 (- len - INT32_MAX + len) = - INT32_MAX).
  { replace (- len - INT32_MAX + len) with (- INT32_MAX) by lia. reflexivity. }
  destruct (offsets_of_queue q Hq)
    as (HT & HR & HTn & HRn & HTa & HRa & HTna & HRna & Hoo & Hoq & Hswap).
  unfold tailpos_of, readypos_of, queuenum_of in *. norm_offsets.
  rewrite HT in Htail. rewrite HR in Hready.
  rewrite HTn in Hlate. rewrite HRn in Hor.
  eexists. split.
  { eapply returns_mono.
    { rewrite <- (set_window_id w me win Hw) at 1.
      unfold drain_attempt, load_queuenum. norm_offsets.
      flush_step.
      apply returns_bind_bind.
      eapply returns_trigger;
        [apply (mpi_queue_load_at _ _ _ _ _ _ Hw);
         apply (in_window_word Q); [lia|lia|exact Hsz|lia]|cbv beta].
      apply returns_bind_ret.
      change (wrap64 (le_decode (mem_load (win_mem win) 0 (Z.to_nat 8))))
        with (win_load_int win MPI_INT64_T 0).
      rewrite Hsel.
      replace ((q =? 0) || (q =? 1)) with true
        by (destruct Hq as [-> | ->]; reflexivity).
      apply returns_assert. rewrite HTa.
      fetch_step Hw Q Hsz. flush_step.
      rewrite Htail. cbn [apply_op].
      replace (0 <? len) with true by (symmetry; apply Z.ltb_lt; lia).
      unfold drain_cycle.
      change (if q =? 0 then 1 else 0) with (other_queue q).
      rewrite HTna, HTa, HRa, Hsub. norm_offsets.
      eapply returns_bind.
      { unfold wait_late_senders. eapply returns_iter_leave.
        rewrite HTna. fetch_step Hw Q Hsz. flush_step.
        win_loads. rewrite Hlate, Z.eqb_refl. cbn [negb apply_op].
        apply (returns_ret _ 0%nat). }
      cbv beta.
      fetch_step Hw Q Hsz. flush_step.
      fetch_step Hw Q Hsz. flush_step.
      cbn [apply_op dt_wrap]. win_loads. rewrite Hsel, Z.eqb_refl.
      apply returns_assert.
      fetch_step Hw Q Hsz.
      cbn [apply_op dt_wrap]. win_loads.
      rewrite Hwl, Hfrozen, Hswap.
      eapply returns_bind.
      { unfold wait_active_writers. eapply returns_iter_leave.
        rewrite HRa, HTa. fetch_step Hw Q Hsz. fetch_step Hw Q Hsz.
        flush_step. cbn [apply_op dt_wrap]. win_loads.
        rewrite Hready. change (wrap64 (- INT32_MAX)) with (- INT32_MAX).
        rewrite Hrec, Z.leb_refl. apply returns_assert.
        rewrite Z.eqb_refl. cbn [negb]. apply (returns_ret _ 0%nat). }
      cbv beta. cbn [snd fst]. rewrite Hprev.
      fetch_step Hw Q Hsz. flush_step.
      cbn [apply_op dt_wrap]. win_loads.
      eapply returns_bind_any.
      { unfold dispatch_messages. cbn [queue_size set_prev_tailpos].
        eapply (dispatch_world me _ (OFFSET_DATA q Q) len msgs
                  (6 * length msgs + 2)%nat _ 0 0 (le_n _)).
        - apply (window_of_set_window_same _ _ _ _ Hw).
        - exact Hok.
        - rewrite Z.add_0_r, HD. win_loads. rewrite <- HD. exact Hdata.
        - reflexivity.
        - lia.
        - unfold INT64_MAX, sizeof_header in *. lia.
        - rewrite HD. lia.
        - cbn [win_size win_store_int win_store].
          rewrite Hsz, openq_win_size_simpl, HD by lia. lia. }
      intros pn. apply (returns_ret _ 0%nat). }
    cbn [Nat.add]. lia. }
  unfold quiescent, tailpos_of, readypos_of, queuenum_of.
  rewrite Hoo, HTn, HRn, HT, HR. norm_offsets.
  cbn [win_size win_store_int win_store length mem_load Z.of_nat].
  win_loads.
  change (wrap64 0) with 0. change (wrap64 (- INT32_MAX)) with (- INT32_MAX).
  rewrite (wrap64_id (other_queue q))
    by (unfold INT64_MIN, INT64_MAX; lia).
  repeat split; auto.
Qed.

(** One attempt of the drainer on a quiescent window whose active sub-queue
    is empty: nothing moves. *)
Lemma drain_attempt_world_empty fuel me w amsgq win q late :
  (6 <= fuel)%nat ->
  0 <= queue_size amsgq -> 2 * queue_size amsgq + 40 <= INT64_MAX ->
  window_of w me = Some win ->
  quiescent (queue_size amsgq) win q [] late ->
  exists win',
    returns fuel (mpi me) (drain_attempt amsgq) w (amsgq, 0)
      (set_window w me win') /\
    quiescent (queue_size amsgq) win' q [] late.
Proof.
  intros Hfuel Hqs Hqs' Hw (Hsz & Hsel & Hq & Htail & Hready & Hdata & Hlate & Hor).
  set (Q := queue_size amsgq) in *.
  destruct (offsets_of_queue q Hq)
    as (HT & HR & HTn & HRn & HTa & HRa & HTna & HRna & Hoo & Hoq & Hswap).
  unfold tailpos_of, readypos_of, queuenum_of in *. norm_offsets.
  cbn [length Z.of_nat] in *.
  rewrite HT in Htail. rewrite HR in Hready.
  rewrite HTn in Hlate. rewrite HRn in Hor.
  eexists. split.
  { eapply returns_mono.
    { rewrite <- (set_window_id w me win Hw) at 1.
      unfold drain_attempt, load_queuenum. norm_offsets.
      flush_step.
      apply returns_bind_bind.
      eapply returns_trigger;
        [apply (mpi_queue_load_at _ _ _ _ _ _ Hw);
         apply (in_window_word Q); [lia|lia|exact Hsz|lia]|cbv beta].
      apply returns_bind_ret.
      change (wrap64 (le_decode (mem_load (win_mem win) 0 (Z.to_nat 8))))
        with (win_load_int win MPI_INT64_T 0).
      rewrite Hsel.
      replace ((q =? 0) || (q =? 1)) with true
        by (destruct Hq as [-> | ->]; reflexivity).
      apply returns_assert. rewrite HTa.
      fetch_step Hw Q Hsz. flush_step.
      rewrite Htail. cbn [apply_op Z.ltb Z.compare].
      apply (returns_ret _ 0%nat). }
    cbn [Nat.add]. lia. }
  unfold quiescent, tailpos_of, readypos_of, queuenum_of.
  rewrite HTn, HRn, HT, HR. norm_offsets.
  cbn [win_size win_store_int win_store length mem_load Z.of_nat].
  win_loads. change (wrap64 0) with 0.
  repeat split; auto.
Qed.

Lemma packed_nil_length msgs :
  msgs <> [] -> 0 < Z.of_nat (length (packed msgs)).
Proof.
  destruct msgs as [|m msgs]; [congruence|]. intros _.
  rewrite packed_cons, length_app, Nat2Z.inj_add, message_bytes_length.
  unfold sizeof_header, payload_size. lia.
Qed.

Lemma unlock_restores (k : Z * dart_mutex) (l : list (Z * dart_mutex)) :
  existsb (held_eqb k) l = false ->
  filter (fun x => negb (held_eqb k x)) l = l.
Proof.
  induction l as [|a l IH]; intros H; [reflexivity|].
  cbn in *. apply orb_false_iff in H. destruct H as [Ha Hl].
  rewrite Ha. cbn. rewrite IH by exact Hl. reflexivity.
Qed.

Lemma held_eqb_refl k : held_eqb k k = true.
Proof.
  unfold held_eqb. rewrite Z.eqb_refl. destruct (snd k); cbn; auto.
  apply Z.eqb_refl.
Qed.

Lemma window_of_Some_nonneg w u win : window_of w u = Some win -> 0 <= u.
Proof.
  unfold window_of. destruct (u <? 0) eqn:E; [discriminate|].
  intros _. apply Z.ltb_ge in E. exact E.
Qed.

Lemma window_of_set_window_frame w target win win' u :
  window_of w target = Some win -> u <> target ->
  window_of (set_window w target win') u = window_of w u.
Proof.
  intros Hw Hne. pose proof (window_of_Some_nonneg _ _ _ Hw) as Ht.
  destruct (Z_lt_le_dec u 0) as [Hu|Hu].
  - unfold window_of. replace (u <? 0) with true; [reflexivity|].
    symmetry. apply Z.ltb_lt. exact Hu.
  - apply window_of_set_window_other; assumption.
Qed.

(** What [process] leaves on a quiescent window: every message of the
    active sub-queue has been handed to its handler, in the order of the
    queue, and the window is quiescent again. *)
Lemma process_world fuel me w amsgq win q msgs :
  (6 * length msgs + 50 <= fuel)%nat ->
  0 <= queue_size amsgq -> 2 * queue_size amsgq + 40 <= INT64_MAX ->
  window_of w me = Some win ->
  quiescent (queue_size amsgq) win q (packed msgs) (prev_tailpos amsgq) ->
  forallb message_ok msgs = true ->
  Z.of_nat (length (packed msgs)) <= queue_size amsgq ->
  is_held w (me, processing_mutex) = false ->
  exists w' amsgq' win',
    returns fuel (mpi me) (dart_amsg_sopnop_process amsgq) w
      (DART_OK, amsgq') w' /\
    window_of w' me = Some win' /\
    quiescent (queue_size amsgq) win'
      (match msgs with [] => q | _ => other_queue q end) []
      (prev_tailpos amsgq') /\
    queue_size amsgq' = queue_size amsgq /\
    message_cache amsgq' = message_cache amsgq /\
    invoked w' =
      invoked w ++ deliveries me (OFFSET_DATA q (queue_size amsgq)) 0 msgs /\
    held w' = held w /\
    (forall u, u <> me -> window_of w' u = window_of w u).
Proof.
  intros Hfuel Hqs Hqs' Hw Hquiet Hok Hlen Hheld.
  set (w1 := set_held w ((me, processing_mutex) :: held w)).
  assert (Hw1 : window_of w1 me = Some win) by exact Hw.
  assert (Hlock : mpi me _ (mutex_trylock processing_mutex) w
                  = Answer DART_OK w1).
  { unfold mpi. rewrite Hheld. reflexivity. }
  assert (Hrest : filter (fun k => negb (held_eqb (me, processing_mutex) k))
                    ((me, processing_mutex) :: held w) = held w).
  { cbn [filter]. rewrite held_eqb_refl. cbn [negb].
    apply unlock_restores. exact Hheld. }
  destruct msgs as [|m msgs].
  - destruct (drain_attempt_world_empty 6 me w1 amsgq win q
                (prev_tailpos amsgq) (le_n _) Hqs Hqs' Hw1 Hquiet)
      as (win' & Hrun & Hq').
    eexists _, amsgq, win'. split; [|split; [|split; [|split; [|split; [|split; [|split]]]]]].
    + eapply returns_mono.
      { unfold dart_amsg_sopnop_process, amsg_sopnop_process_internal.
        cbn [negb]. apply returns_bind_bind.
        eapply returns_trigger; [exact Hlock|cbv beta].
        apply returns_bind_ret. cbn [dart_ret_eqb negb].
        eapply returns_bind.
        { eapply returns_iter_leave. unfold process_turn.
          eapply returns_bind; [exact Hrun|].
          cbn [andb fst snd]. apply (returns_ret _ 0%nat). }
        cbv beta. eapply returns_trigger; [reflexivity|cbv beta].
        apply (returns_ret _ 0%nat). }
      cbn [Nat.add]. cbn [length] in Hfuel. lia.
    + apply (window_of_set_window_same _ _ _ _ Hw1).
    + exact Hq'.
    + reflexivity.
    + reflexivity.
    + cbn. rewrite app_nil_r. reflexivity.
    + cbn [held set_held set_window set_windows]. exact Hrest.
    + intros u Hu. apply (window_of_set_window_frame w1 me win win' u Hw1 Hu).
  - assert (Hpos : 0 < Z.of_nat (length (packed (m :: msgs))) <= queue_size amsgq).
    { split; [apply packed_nil_length; discriminate|exact Hlen]. }
    destruct (drain_attempt_world (6 * length (m :: msgs) + 40) me w1 amsgq
                win q (m :: msgs) (le_n _) Hqs Hqs' Hw1 Hquiet Hok Hpos)
      as (win' & Hrun & Hq').
    eexists _, (set_prev_tailpos amsgq (- INT32_MAX)), win'.
    split; [|split; [|split; [|split; [|split; [|split; [|split]]]]]].
    + eapply returns_mono.
      { unfold dart_amsg_sopnop_process, amsg_sopnop_process_internal.
        cbn [negb]. apply returns_bind_bind.
        eapply returns_trigger; [exact Hlock|cbv beta].
        apply returns_bind_ret. cbn [dart_ret_eqb negb].
        eapply returns_bind.
        { eapply returns_iter_leave. unfold process_turn.
          eapply returns_bind; [exact Hrun|].
          cbn [andb fst snd]. apply (returns_ret _ 0%nat). }
        cbv beta. eapply returns_trigger; [reflexivity|cbv beta].
        apply (returns_ret _ 0%nat). }
      lia.
    + cbn [window_of windows set_held].
      change (window_of
                (deliver_all (set_window w1 me win')
                   (deliveries me (OFFSET_DATA q (queue_size amsgq)) 0
                      (m :: msgs))) me = Some win').
      rewrite window_of_deliver_all.
      apply (window_of_set_window_same _ _ _ _ Hw1).
    + exact Hq'.
    + reflexivity.
    + reflexivity.
    + cbn [invoked set_held]. rewrite invoked_deliver_all. reflexivity.
    + cbn [held set_held]. rewrite held_deliver_all.
      cbn [held set_held set_window set_windows w1]. exact Hrest.
    + intros u Hu.
      change (window_of
                (deliver_all (set_window w1 me win')
                   (deliveries me (OFFSET_DATA q (queue_size amsgq)) 0
                      (m :: msgs))) u = window_of w u).
      rewrite window_of_deliver_all.
      apply (window_of_set_window_frame w1 me win win' u Hw1 Hu).
Qed.

(** ** Sequential runs are runs of a bounded queue *)

Lemma deliveries_calls me dbuf msgs : forall pos,
  map call_of (deliveries me dbuf pos msgs) = map (call_for me) msgs.
Proof.
  induction msgs as [|m msgs IH]; intros pos; [reflexivity|].
  cbn [deliveries map]. rewrite IH. reflexivity.
Qed.

Lemma packed_count msgs :
  16 * Z.of_nat (length msgs) <= Z.of_nat (length (packed msgs)).
Proof.
  induction msgs as [|m msgs IH]; [cbn; lia|].
  rewrite packed_cons, length_app, Nat2Z.inj_add, message_bytes_length.
  cbn [length]. unfold sizeof_header, payload_size. lia.
Qed.

Lemma run_ops_fifo fuel target sender_amsgq qs : forall ops amsgq w win q pending,
  0 <= qs -> 2 * qs + 40 <= INT64_MAX ->
  (Z.to_nat qs + 50 <= fuel)%nat ->
  queue_size sender_amsgq = qs ->
  queue_size amsgq = qs ->
  window_of w target = Some win ->
  quiescent qs win q (packed pending) (prev_tailpos amsgq) ->
  forallb message_ok pending = true ->
  Z.of_nat (length (packed pending)) <= qs ->
  is_held w (target, processing_mutex) = false ->
  forallb queue_op_ok ops = true ->
  exists amsgq' w',
    run_ops fuel target sender_amsgq ops amsgq w
    = Some (fst (fifo_model qs ops pending), amsgq', w') /\
    map call_of (invoked w')
    = map call_of (invoked w)
      ++ map (call_for target) (snd (fifo_model qs ops pending)).
Proof.
  induction ops as [|o ops IH];
    intros amsgq w win q pending Hqs Hqs' Hfuel Hsq Haq Hw Hquiet Hpend Hlen
      Hheld Hops.
  - exists amsgq, w. cbn. rewrite app_nil_r. auto.
  - cbn [forallb] in Hops. apply andb_true_iff in Hops.
    destruct Hops as [Ho Hops].
    destruct o as [m|]; cbn [queue_op_ok] in Ho.
    + cbn [run_ops fifo_model].
      destruct (Z.of_nat (length (packed pending)) + sizeof_header
                + payload_size m <=? qs) eqn:Efit.
      * apply Z.leb_le in Efit.
        destruct (trysend_world_ok fuel w target sender_amsgq m win q
                    (packed pending) (prev_tailpos amsgq))
          as (win' & [tr Hrun] & Hq'); rewrite ?Hsq; auto; try lia.
        rewrite Hsq in Hq'. rewrite Hrun.
        destruct (IH amsgq (set_window w target win') win' q (pending ++ [m]))
          as (a' & w' & Hrest & Hinv); auto.
        { apply (window_of_set_window_same _ _ _ _ Hw). }
        { rewrite packed_app. cbn [packed map concat].
          rewrite app_nil_r. exact Hq'. }
        { rewrite forallb_app, Hpend. cbn. rewrite Ho. reflexivity. }
        { rewrite packed_app, length_app, Nat2Z.inj_add.
          cbn [packed map concat]. rewrite app_nil_r, message_bytes_length.
          lia. }
        exists a', w'. rewrite Hrest.
        destruct (fifo_model qs ops (pending ++ [m])) as [rs d].
        split; [reflexivity|exact Hinv].
      * apply Z.leb_gt in Efit.
        destruct (trysend_world_again fuel w target sender_amsgq m win q
                    (packed pending) (prev_tailpos amsgq))
          as (win' & [tr Hrun] & Hq'); rewrite ?Hsq; auto; try lia.
        rewrite Hsq in Hq'. rewrite Hrun.
        destruct (IH amsgq (set_window w target win') win' q pending)
          as (a' & w' & Hrest & Hinv); auto.
        { apply (window_of_set_window_same _ _ _ _ Hw). }
        exists a', w'. rewrite Hrest.
        destruct (fifo_model qs ops pending) as [rs d].
        split; [reflexivity|exact Hinv].
    + cbn [run_ops fifo_model].
      pose proof (packed_count pending) as Hcount.
      destruct (process_world fuel target w amsgq win q pending)
        as (w1 & a1 & win1 & [tr Hrun] & Hw1 & Hq1 & Hsz1 & _ & Hinv1 & Hheld1 & _);
        rewrite ?Haq; auto; try lia.
      rewrite Haq in Hq1, Hinv1. rewrite Hrun.
      destruct (IH a1 w1 win1
                  (match pending with [] => q | _ => other_queue q end) [])
        as (a' & w' & Hrest & Hinv); auto; try lia; try congruence.
      { unfold is_held. rewrite Hheld1. exact Hheld. }
      exists a', w'. rewrite Hrest.
      destruct (fifo_model qs ops []) as [rs d].
      split; [reflexivity|]. cbn [fst snd] in *.
      rewrite Hinv, Hinv1, !map_app, deliveries_calls, app_assoc.
      reflexivity.
Qed.

(** The window that [openq] allocates and zeroes. *)

Lemma window_of_fresh_world n qs target :
  0 <= target < Z.of_nat n ->
  window_of (fresh_world n qs) target
  = Some (fresh_window (openq_win_size qs)).
Proof.
  intros H. unfold window_of, fresh_world. cbn [windows].
  replace (target <? 0) with false by (symmetry; apply Z.ltb_ge; lia).
  rewrite nth_error_repeat by lia. reflexivity.
Qed.

Lemma mem_load_fresh size n : forall a,
  mem_load (win_mem (fresh_window size)) a n = repeat 0 n.
Proof.
  induction n as [|n IH]; intros a; [reflexivity|].
  cbn [mem_load repeat]. rewrite IH. reflexivity.
Qed.

Lemma fresh_window_quiescent qs :
  quiescent qs (fresh_window (openq_win_size qs)) 0 [] 0.
Proof.
  unfold quiescent, queuenum_of, tailpos_of, readypos_of, win_load_int.
  rewrite !mem_load_fresh. cbn. repeat split; auto.
Qed.

(** ** What the drainer leaves of the handle *)

Lemma drain_attempt_frame {Env} (h : handler Env) f amsgq s tr a' t s' :
  run f h (drain_attempt amsgq) s = (tr, Done (a', t), s') ->
  queue_size a' = queue_size amsgq /\
  message_cache a' = message_cache amsgq.
Proof.
  unfold drain_attempt, load_queuenum. intros H.
  repeat run_step H.
  destruct (0 <? x1).
  - apply drain_cycle_inv in H.
    destruct H as (late & old_new & frozen & rounds & ready & tmp & old_ready
                   & trd & _ & _ & _ & _ & _ & -> & _).
    split; reflexivity.
  - run_done H. split; reflexivity.
Qed.

Lemma turns_frame {Env} (h : handler Env) blocking f amsgq s tr a' s' :
  run f h (ITree.iter (process_turn blocking) amsgq) s = (tr, Done a', s') ->
  queue_size a' = queue_size amsgq /\
  message_cache a' = message_cache amsgq.
Proof.
  revert amsgq s tr. induction f as [f IH] using lt_wf_ind.
  intros amsgq s tr H.
  apply run_iter_inv in H; [|discriminate].
  destruct H as [(tr1 & lr & s1 & tr2 & Hb & -> & Hlr)|[Hc _]]; [|discriminate].
  unfold process_turn in Hb.
  run_bind Hb tr0 ct s0 tr3 Hct.
  destruct ct as [a1 t1]. apply drain_attempt_frame in Hct.
  destruct Hct as [Hq Hc].
  destruct (blocking && (0 <? snd (a1, t1))); run_done Hb.
  - destruct Hlr as (f' & Hf' & Hl). apply (IH f' Hf') in Hl.
    cbn [fst] in Hl. destruct Hl as [Hq' Hc']. split; congruence.
  - destruct Hlr as (Hd & _ & _). inversion Hd; subst. cbn [fst].
    split; assumption.
Qed.

Lemma process_internal_frame {Env} (h : handler Env) f amsgq blocking s tr
    r a' s' :
  run f h (amsg_sopnop_process_internal amsgq blocking) s
  = (tr, Done (r, a'), s') ->
  queue_size a' = queue_size amsgq /\
  message_cache a' = message_cache amsgq.
Proof.
  unfold amsg_sopnop_process_internal. intros H.
  destruct blocking; cbn [negb] in H.
  - do 3 run_step H. cbn [negb] in H.
    run_bind H tr1 a1 s1 tr2 H1.
    run_step H. run_done H. apply turns_frame in H1. exact H1.
  - do 3 run_step H.
    destruct x; cbn [dart_ret_eqb negb] in H;
      try (run_done H; split; reflexivity).
    run_bind H tr1 a1 s1 tr2 H1.
    run_step H. run_done H. apply turns_frame in H1. exact H1.
Qed.

Lemma drain_cache_frame {Env} (h : handler Env) on_error target cache f
    amsgq s tr r s' :
  run f h
    (drain_cache dart_amsg_sopnop_sendbuf amsg_sopnop_process_internal
       on_error target cache amsgq) s = (tr, Done r, s') ->
  fst r = inl tt /\
  queue_size (snd r) = queue_size amsgq /\
  message_cache (snd r) = message_cache amsgq.
Proof.
  revert amsgq s tr. induction f as [f IH] using lt_wf_ind.
  intros amsgq s tr H. unfold drain_cache in H.
  apply run_iter_inv in H; [|discriminate].
  destruct H as [(tr1 & lr & s1 & tr2 & Hb & -> & Hlr)|[Hc _]]; [|discriminate].
  run_bind Hb tr0 ret s0 tr3 Hsb.
  pose proof (sendbuf_returns_ok_or_again _ _ _ _ _ _ _ _ _ _ Hsb) as Hret.
  destruct Hret as [-> | ->]; cbn [dart_ret_eqb negb] in Hb.
  - run_done Hb. destruct Hlr as (Hd & _ & _). inversion Hd; subst.
    cbn. auto.
  - run_bind Hb tr4 ra s4 tr5 Hp. run_done Hb.
    destruct ra as [r1 a1]. apply process_internal_frame in Hp.
    destruct Hp as [Hq1 Hc1].
    destruct Hlr as (f' & Hf' & Hl).
    apply (IH f' Hf') in Hl. cbn [snd] in Hl.
    destruct Hl as (Hr & Hq & Hc).
    split; [exact Hr|]. split; congruence.
Qed.

Lemma cache_slot_set_same amsgq target c c0 :
  cache_slot amsgq target = Some c0 ->
  cache_slot (set_cache_slot amsgq target c) target = Some c.
Proof.
  unfold cache_slot, set_cache_slot, set_message_cache. cbn [message_cache].
  destruct (nth_error (message_cache amsgq) (Z.to_nat target)) as [o|] eqn:E;
    [|discriminate].
  intros _. rewrite (nth_error_list_set_same _ _ _ _ E). reflexivity.
Qed.

Lemma cache_slot_set_other amsgq target c j :
  0 <= target -> 0 <= j -> j <> target ->
  cache_slot (set_cache_slot amsgq target c) j = cache_slot amsgq j.
Proof.
  intros Ht Hj Hne.
  unfold cache_slot, set_cache_slot, set_message_cache. cbn [message_cache].
  rewrite nth_error_list_set_other by lia. reflexivity.
Qed.

Lemma cache_slot_frame a a' j :
  message_cache a' = message_cache a -> cache_slot a' j = cache_slot a j.
Proof. unfold cache_slot. intros ->. reflexivity. Qed.

(** ** The cache on the model of the windows *)

Lemma set_held_id w : set_held w (held w) = w.
Proof. destruct w. reflexivity. Qed.

Lemma mpi_lock me w m :
  is_held w (me, m) = false ->
  mpi me _ (mutex_lock m) w = Answer tt (set_held w ((me, m) :: held w)).
Proof. intros H. unfold mpi. rewrite H. reflexivity. Qed.

Lemma mpi_unlock_last me w0 m :
  is_held w0 (me, m) = false ->
  mpi me _ (mutex_unlock m) (set_held w0 ((me, m) :: held w0))
  = Answer tt w0.
Proof.
  intros H. unfold mpi. cbn [held set_held].
  cbn [filter]. rewrite held_eqb_refl. cbn [negb].
  rewrite unlock_restores by exact H.
  replace (set_held (set_held w0 ((me, m) :: held w0)) (held w0))
    with (set_held w0 (held w0)) by reflexivity.
  rewrite set_held_id. reflexivity.
Qed.

Lemma write_at_length off bs buf :
  (off + length bs <= length buf)%nat ->
  length (write_at off bs buf) = length buf.
Proof.
  intros H. unfold write_at.
  rewrite !length_app, length_firstn, length_skipn. lia.
Qed.

Lemma write_at_prefix off bs buf :
  (off + length bs <= length buf)%nat ->
  firstn (off + length bs) (write_at off bs buf) = firstn off buf ++ bs.
Proof.
  intros H. unfold write_at. rewrite app_assoc.
  rewrite firstn_app.
  replace (off + length bs - length (firstn off buf ++ bs))%nat with 0%nat
    by (rewrite length_app, length_firstn; lia).
  cbn [firstn]. rewrite app_nil_r.
  apply firstn_all2. rewrite length_app, length_firstn. lia.
Qed.

Lemma write_at_bytes off bs buf :
  forallb is_byte bs = true -> forallb is_byte buf = true ->
  forallb is_byte (write_at off bs buf) = true.
Proof.
  intros Hbs Hbuf. unfold write_at. rewrite !forallb_app, Hbs.
  rewrite firstn_is_byte by exact Hbuf.
  assert (Hs : forall n (l : list Z),
             forallb is_byte l = true -> forallb is_byte (skipn n l) = true).
  { induction n as [|n IHn]; intros [|a l] Hl; cbn in *; auto.
    apply andb_true_iff in Hl. apply IHn. tauto. }
  rewrite Hs by exact Hbuf. reflexivity.
Qed.

Lemma cache_slot_set_valid amsgq target c :
  0 <= target < Z.of_nat (length (message_cache amsgq)) ->
  cache_slot (set_cache_slot amsgq target c) target = Some c.
Proof.
  intros Ht.
  unfold cache_slot, set_cache_slot, set_message_cache. cbn [message_cache].
  destruct (nth_error (message_cache amsgq) (Z.to_nat target)) as [o|] eqn:E.
  - rewrite (nth_error_list_set_same _ _ _ _ E). reflexivity.
  - apply nth_error_None in E. lia.
Qed.

Lemma new_cache_cached :
  pos new_cache = 0 /\
  Z.of_nat (length (buffer new_cache)) = MSGCACHE_SIZE /\
  forallb is_byte (buffer new_cache) = true.
Proof. vm_compute. auto. Qed.

(** The message that [bsend] lays into the cache of unit [me]. *)
Lemma bsend_message me m :
  msg_sender m = me ->
  encode_header
    {| fn := msg_fn m; remote := me; data_size := to_u32 (payload_size m) |}
  ++ firstn (Z.to_nat (payload_size m)) (msg_payload m)
  = message_bytes m.
Proof. intros <-. apply trysend_message. Qed.

(** [bsend] with room in the cache: the message is appended to the cache,
    the world is as before. *)
Lemma bsend_world_room fuel me w target amsgq m bytes :
  (8 <= fuel)%nat ->
  0 <= target < Z.of_nat (length (message_cache amsgq)) ->
  cached amsgq target bytes ->
  message_ok m = true -> msg_sender m = me ->
  Z.of_nat (length bytes) + sizeof_header + payload_size m <= MSGCACHE_SIZE ->
  is_held w (me, send_mutex) = false ->
  is_held w (me, cache_mutex target) = false ->
  exists amsgq',
    returns fuel (mpi me)
      (dart_amsg_sopnop_bsend target amsgq (msg_fn m) (msg_payload m)
         (payload_size m)) w (DART_OK, amsgq') w /\
    cached amsgq' target (bytes ++ message_bytes m) /\
    queue_size amsgq' = queue_size amsgq /\
    prev_tailpos amsgq' = prev_tailpos amsgq /\
    length (message_cache amsgq') = length (message_cache amsgq) /\
    forall j, 0 <= j -> j <> target -> cache_slot amsgq' j = cache_slot amsgq j.
Proof.
  intros Hfuel Ht Hc Hm Hme Hfit Hs Hcm.
  pose proof (message_ok_spec m Hm) as (Hfn & Hp & Hsz).
  pose proof (message_bytes_length m) as Hlen.
  assert (Hpsz : 0 <= payload_size m) by (unfold payload_size; lia).
  (* the cache that the message goes into, and the handle that holds it *)
  set (cache := match cache_slot amsgq target with
                | Some c => c | None => new_cache end).
  set (a1 := match cache_slot amsgq target with
             | Some c => amsgq
             | None => set_cache_slot amsgq target new_cache end).
  assert (Hcache : pos cache = Z.of_nat (length bytes) /\
                   firstn (length bytes) (buffer cache) = bytes /\
                   Z.of_nat (length (buffer cache)) = MSGCACHE_SIZE /\
                   forallb is_byte (buffer cache) = true).
  { unfold cached in Hc. subst cache.
    destruct (cache_slot amsgq target) as [c|]; [exact Hc|].
    subst bytes. destruct new_cache_cached as (H1 & H2 & H3). auto. }
  destruct Hcache as (Hpos & Hpre & Hbl & Hbb).
  assert (Hroom : to_u64 (pos cache + sizeof_header + payload_size m)
                  = pos cache + sizeof_header + payload_size m).
  { unfold to_u64, MSGCACHE_SIZE, sizeof_header in *.
    apply Z.mod_small. lia. }
  assert (Hw32 : wrap32 (pos cache + sizeof_header + payload_size m)
                 = pos cache + sizeof_header + payload_size m).
  { apply wrap32_id. unfold INT32_MAX, MSGCACHE_SIZE, sizeof_header in *. lia. }
  set (cache' :=
         {| pos := pos cache + sizeof_header + payload_size m;
            buffer := write_at (Z.to_nat (pos cache)) (message_bytes m)
                        (buffer cache) |}).
  exists (set_cache_slot a1 target cache').
  assert (Hlen1 : length (message_cache a1) = length (message_cache amsgq)).
  { subst a1. destruct (cache_slot amsgq target); [reflexivity|].
    cbn [message_cache set_cache_slot set_message_cache].
    apply list_set_length. }
  split.
  { eapply returns_mono; [|exact Hfuel].
    unfold dart_amsg_sopnop_bsend, bsend_with.
    apply returns_bind with (f1 := 4%nat) (f2 := 4%nat)
                            (x := (a1, cache)) (s1 := w).
    - subst a1 cache. destruct (cache_slot amsgq target) as [c|] eqn:Eslot.
      + apply (returns_ret _ 3%nat).
      + eapply returns_trigger; [apply mpi_lock; exact Hs|cbv beta].
        apply returns_bind_bind.
        eapply returns_trigger; [reflexivity|cbv beta].
        apply returns_bind_ret.
        eapply returns_trigger; [apply mpi_unlock_last; exact Hs|cbv beta].
        apply (returns_ret _ 0%nat).
    - cbv beta iota.
      eapply returns_trigger; [apply mpi_lock; exact Hcm|cbv beta].
      rewrite Hroom.
      replace (pos cache + sizeof_header + payload_size m >? MSGCACHE_SIZE)
        with false by (symmetry; rewrite Z.gtb_ltb; apply Z.ltb_ge; lia).
      apply returns_bind_ret. cbv beta iota.
      eapply returns_trigger; [reflexivity|cbv beta zeta].
      eapply returns_trigger; [apply mpi_unlock_last; exact Hcm|cbv beta].
      rewrite Hroom, Hw32, (bsend_message me m Hme).
      apply (returns_ret _ 0%nat). }
  assert (Hoff : Z.to_nat (pos cache) = length bytes) by lia.
  assert (Hin : (length bytes + length (message_bytes m) <= length (buffer cache))%nat).
  { unfold MSGCACHE_SIZE, sizeof_header in *. lia. }
  split.
  { unfold cached. rewrite cache_slot_set_valid by lia.
    subst cache'. cbn [pos buffer]. rewrite Hoff.
    rewrite length_app, write_at_prefix, Hpre by exact Hin.
    rewrite write_at_length by exact Hin.
    rewrite write_at_bytes by (auto using message_bytes_bytes).
    repeat split; auto. lia. }
  split. { subst a1. destruct (cache_slot amsgq target); reflexivity. }
  split. { subst a1. destruct (cache_slot amsgq target); reflexivity. }
  split.
  { cbn [message_cache set_cache_slot set_message_cache].
    rewrite list_set_length. exact Hlen1. }
  intros j Hj Hne. rewrite cache_slot_set_other by lia.
  subst a1. destruct (cache_slot amsgq target) eqn:E; [reflexivity|].
  apply cache_slot_set_other; lia.
Qed.

Lemma mpi_unlock_last_at me w0 m target win :
  is_held w0 (me, m) = false ->
  mpi me _ (mutex_unlock m)
    (set_window (set_held w0 ((me, m) :: held w0)) target win)
  = Answer tt (set_window w0 target win).
Proof.
  intros H. unfold mpi. cbn [held set_held set_window set_windows].
  cbn [filter]. rewrite held_eqb_refl. cbn [negb].
  rewrite unlock_restores by exact H.
  destruct w0. reflexivity.
Qed.

(** The turns of the loop of [flush] over targets without a cache. *)
Lemma flush_skip {Env} (h : handler Env) sendbuf process comm_size a :
  comm_size <= INT32_MAX ->
  forall k i f (w w' : Env) ra,
  0 <= i -> i + Z.of_nat k <= comm_size ->
  (forall x, i <= x < i + Z.of_nat k -> cache_slot a x = None) ->
  returns f h
    (ITree.iter (flush_target sendbuf process comm_size) (i + Z.of_nat k, a))
    w ra w' ->
  returns (2 * k + f) h
    (ITree.iter (flush_target sendbuf process comm_size) (i, a)) w ra w'.
Proof.
  intros Hcs. induction k as [|k IH]; intros i f w w' ra Hi Hle Hnone Hrun.
  - cbn [Z.of_nat] in Hrun. rewrite Z.add_0_r in Hrun. exact Hrun.
  - replace (2 * S k + f)%nat with (1 + S (2 * k + f))%nat by lia.
    eapply returns_iter_again.
    + unfold flush_target.
      replace (i <? comm_size) with true by (symmetry; apply Z.ltb_lt; lia).
      cbn [negb]. rewrite (Hnone i) by lia. apply (returns_ret _ 0%nat).
    + rewrite wrap32_id by (unfold INT32_MAX in *; lia).
      apply IH; try lia.
      * intros x Hx. apply Hnone. lia.
      * replace (i + 1 + Z.of_nat k) with (i + Z.of_nat (S k)) by lia.
        exact Hrun.
Qed.

(** [flush] when one target has a cache that fits into the queue of that
    target: the bytes of the cache are appended to the active sub-queue and
    the cache is empty. *)
Lemma flush_world fuel me w target amsgq cache win q qbytes late :
  (2 * length (windows w) + 40 <= fuel)%nat ->
  0 <= queue_size amsgq -> 2 * queue_size amsgq + 40 <= INT64_MAX ->
  Z.of_nat (length (windows w)) <= INT32_MAX ->
  window_of w target = Some win ->
  quiescent (queue_size amsgq) win q qbytes late ->
  cache_slot amsgq target = Some cache ->
  (forall j, 0 <= j -> j <> target -> cache_slot amsgq j = None) ->
  0 < pos cache <= Z.of_nat (length (buffer cache)) ->
  pos cache <= INT32_MAX ->
  forallb is_byte (buffer cache) = true ->
  Z.of_nat (length qbytes) + pos cache <= queue_size amsgq ->
  is_held w (me, send_mutex) = false ->
  is_held w (me, cache_mutex target) = false ->
  exists win',
    returns fuel (mpi me) (dart_amsg_sopnop_flush_buffer amsgq) w
      (DART_OK, set_cache_slot amsgq target (emptied cache))
      (set_window w target win') /\
    quiescent (queue_size amsgq) win' q
      (qbytes ++ firstn (Z.to_nat (pos cache)) (buffer cache)) late.
Proof.
  intros Hfuel Hqs Hqs' Hn Hw Hquiet Hslot Hothers Hpos Hp32 Hbytes Hfit Hs Hcm.
  pose proof (window_of_Some_nonneg _ _ _ Hw) as Ht0.
  assert (Htn : target < Z.of_nat (length (windows w))).
  { unfold window_of in Hw. destruct (target <? 0); [discriminate|].
    assert (Hsome : nth_error (windows w) (Z.to_nat target) <> None)
      by congruence.
    apply nth_error_Some in Hsome. lia. }
  set (n := Z.of_nat (length (windows w))) in *.
  set (w1 := set_held w ((me, send_mutex) :: held w)).
  set (w2 := set_held w1 ((me, cache_mutex target) :: held w1)).
  assert (Hcm1 : is_held w1 (me, cache_mutex target) = false).
  { unfold is_held, w1. cbn [held set_held existsb].
    unfold is_held in Hcm. rewrite Hcm.
    unfold held_eqb. cbn [fst snd mutex_eqb]. rewrite andb_false_r.
    reflexivity. }
  assert (Hw2 : window_of w2 target = Some win) by exact Hw.
  assert (Hu : to_u64 (pos cache) = pos cache).
  { unfold to_u64, INT32_MAX in *. apply Z.mod_small. lia. }
  destruct (sendbuf_world_ok 11 me w2 target amsgq (buffer cache) (pos cache)
              win q qbytes late (le_n _) Hqs Hqs' Hw2 Hquiet
              ltac:(lia) Hfit ltac:(lia) Hbytes) as (win' & Hsend & Hq').
  exists win'. split; [|exact Hq'].
  eapply returns_mono.
  { unfold dart_amsg_sopnop_flush_buffer, flush_buffer_with.
    eapply returns_trigger; [apply mpi_lock; exact Hs|cbv beta].
    eapply returns_trigger; [reflexivity|cbv beta].
    change (Z.of_nat (length (windows (set_held w ((me, send_mutex) :: held w)))))
      with n.
    change (set_held w ((me, send_mutex) :: held w)) with w1.
    eapply returns_bind.
    - (* the targets below [target] *)
      replace 0 with (0 + 0) at 1 by reflexivity.
      apply (flush_skip (mpi me) _ _ n amsgq Hn (Z.to_nat target) 0);
        try lia.
      { intros x Hx. apply Hothers; lia. }
      rewrite Z2Nat.id, Z.add_0_l by lia.
      (* the turn of [target] *)
      eapply returns_iter_again.
      + unfold flush_target.
        replace (target <? n) with true by (symmetry; apply Z.ltb_lt; lia).
        cbn [negb]. rewrite Hslot.
        eapply returns_trigger; [apply mpi_lock; exact Hcm1|cbv beta].
        replace (pos cache =? 0) with false
          by (symmetry; apply Z.eqb_neq; lia).
        eapply returns_bind.
        * unfold drain_cache. eapply returns_iter_leave.
          rewrite Hu. eapply returns_bind; [exact Hsend|].
          cbn [dart_ret_eqb negb]. apply (returns_ret _ 0%nat).
        * cbv beta. cbn [fst snd].
          eapply returns_trigger;
            [apply (mpi_unlock_last_at me w1 _ target win' Hcm1)|cbv beta].
          apply (returns_ret _ 0%nat).
      + (* the targets above [target] *)
        rewrite wrap32_id by (unfold INT32_MAX in *; lia).
        apply (flush_skip (mpi me) _ _ n _ Hn
                 (Z.to_nat (n - (target + 1))) (target + 1)); try lia.
        { intros x Hx. rewrite cache_slot_set_other by lia.
          apply Hothers; lia. }
        replace (target + 1 + Z.of_nat (Z.to_nat (n - (target + 1)))) with n
          by lia.
        eapply returns_iter_leave. unfold flush_target.
        replace (n <? n) with false by (symmetry; apply Z.ltb_irrefl).
        cbn [negb]. apply (returns_ret _ 0%nat).
    - cbv beta. cbn [fst snd].
      eapply returns_trigger;
        [apply (mpi_unlock_last_at me w _ target win' Hs)|cbv beta].
      apply (returns_ret _ 0%nat). }
  unfold n in *. lia.
Qed.

Lemma bsend_all_world fuel me w target : forall msgs amsgq bytes,
  (8 <= fuel)%nat ->
  0 <= target < Z.of_nat (length (message_cache amsgq)) ->
  cached amsgq target bytes ->
  forallb message_ok msgs = true ->
  forallb (fun m => msg_sender m =? me) msgs = true ->
  Z.of_nat (length bytes) + Z.of_nat (length (packed msgs)) <= MSGCACHE_SIZE ->
  is_held w (me, send_mutex) = false ->
  is_held w (me, cache_mutex target) = false ->
  exists amsgq',
    bsend_all fuel me target msgs amsgq w = Some (amsgq', w) /\
    cached amsgq' target (bytes ++ packed msgs) /\
    queue_size amsgq' = queue_size amsgq /\
    prev_tailpos amsgq' = prev_tailpos amsgq /\
    length (message_cache amsgq') = length (message_cache amsgq) /\
    forall j, 0 <= j -> j <> target -> cache_slot amsgq' j = cache_slot amsgq j.
Proof.
  induction msgs as [|m msgs IH];
    intros amsgq bytes Hfuel Ht Hc Hok Hme Hfit Hs Hcm.
  - exists amsgq. cbn. rewrite app_nil_r. auto 10.
  - cbn [forallb] in Hok, Hme. apply andb_true_iff in Hok, Hme.
    destruct Hok as [Hm Hok]. destruct Hme as [Hm1 Hme].
    apply Z.eqb_eq in Hm1.
    rewrite packed_cons, length_app, Nat2Z.inj_add, message_bytes_length in Hfit.
    destruct (bsend_world_room fuel me w target amsgq m bytes Hfuel Ht Hc Hm
                Hm1 ltac:(lia) Hs Hcm)
      as (a1 & [tr Hrun] & Hc1 & Hq1 & Hp1 & Hl1 & Ho1).
    destruct (IH a1 (bytes ++ message_bytes m) Hfuel ltac:(lia) Hc1 Hok Hme)
      as (a2 & Hrest & Hc2 & Hq2 & Hp2 & Hl2 & Ho2); auto.
    { rewrite length_app, Nat2Z.inj_add, message_bytes_length. lia. }
    exists a2. cbn [bsend_all]. rewrite Hrun, Hrest.
    split; [reflexivity|]. rewrite packed_cons, app_assoc.
    split; [exact Hc2|]. repeat split; try congruence.
    intros j Hj Hne. rewrite Ho2, Ho1 by assumption. reflexivity.
Qed.

Lemma no_caches_spec a :
  no_caches a = true -> forall j, cache_slot a j = None.
Proof.
  unfold no_caches, cache_slot. intros H j.
  destruct (nth_error (message_cache a) (Z.to_nat j)) as [[c|]|] eqn:E;
    try reflexivity.
  apply nth_error_In in E. rewrite forallb_forall in H.
  specialize (H _ E). discriminate.
Qed.
(** ** The blocking drain on the model of the windows *)

Lemma barrier_view_deliver_all l : forall w,
  barrier_view (deliver_all w l) = barrier_view w.
Proof.
  induction l as [|i l IH]; intros w; [reflexivity|].
  change (deliver_all w (i :: l)) with (deliver_all (add_invoked w i) l).
  rewrite IH. reflexivity.
Qed.

Lemma barrier_view_set_window w target win :
  barrier_view (set_window w target win) = barrier_view w.
Proof.
  unfold barrier_view, set_window. cbn [set_windows windows ibarrier_count
    barrier_waiting barrier_released].
  rewrite list_set_length. reflexivity.
Qed.

(** [process_internal] with [blocking] set, on a quiescent window: a turn
    that drains the active sub-queue is followed by a turn that finds the
    other sub-queue empty. *)
Lemma process_internal_blocking_world fuel me w amsgq win q msgs :
  (6 * length msgs + 60 <= fuel)%nat ->
  0 <= queue_size amsgq -> 2 * queue_size amsgq + 40 <= INT64_MAX ->
  window_of w me = Some win ->
  quiescent (queue_size amsgq) win q (packed msgs) (prev_tailpos amsgq) ->
  forallb message_ok msgs = true ->
  Z.of_nat (length (packed msgs)) <= queue_size amsgq ->
  is_held w (me, processing_mutex) = false ->
  exists w' amsgq' win',
    returns fuel (mpi me) (amsg_sopnop_process_internal amsgq true) w
      (DART_OK, amsgq') w' /\
    window_of w' me = Some win' /\
    quiescent (queue_size amsgq) win'
      (match msgs with [] => q | _ => other_queue q end) []
      (prev_tailpos amsgq') /\
    queue_size amsgq' = queue_size amsgq /\
    message_cache amsgq' = message_cache amsgq /\
    invoked w' =
      invoked w ++ deliveries me (OFFSET_DATA q (queue_size amsgq)) 0 msgs /\
    held w' = held w /\
    (forall u, u <> me -> window_of w' u = window_of w u) /\
    barrier_view w' = barrier_view w.
Proof.
  intros Hfuel Hqs Hqs' Hw Hquiet Hok Hlen Hheld.
  set (w1 := set_held w ((me, processing_mutex) :: held w)).
  assert (Hw1 : window_of w1 me = Some win) by exact Hw.
  assert (Hrest : filter (fun k => negb (held_eqb (me, processing_mutex) k))
                    ((me, processing_mutex) :: held w) = held w).
  { cbn [filter]. rewrite held_eqb_refl. cbn [negb].
    apply unlock_restores. exact Hheld. }
  destruct msgs as [|m msgs].
  - destruct (drain_attempt_world_empty 6 me w1 amsgq win q
                (prev_tailpos amsgq) (le_n _) Hqs Hqs' Hw1 Hquiet)
      as (win' & Hrun & Hq').
    eexists _, amsgq, win'.
    split; [|split; [|split; [|split; [|split; [|split; [|split; [|split]]]]]]].
    + eapply returns_mono.
      { unfold amsg_sopnop_process_internal.
        cbn [negb]. apply returns_bind_bind.
        eapply returns_trigger; [apply mpi_lock; exact Hheld|cbv beta].
        apply returns_bind_ret. cbn [negb].
        eapply returns_bind.
        { eapply returns_iter_leave. unfold process_turn.
          eapply returns_bind; [exact Hrun|].
          cbn [andb fst snd Z.ltb Z.compare]. apply (returns_ret _ 0%nat). }
        cbv beta. eapply returns_trigger; [reflexivity|cbv beta].
        apply (returns_ret _ 0%nat). }
      cbn [Nat.add]. cbn [length] in Hfuel. lia.
    + apply (window_of_set_window_same _ _ _ _ Hw1).
    + exact Hq'.
    + reflexivity.
    + reflexivity.
    + cbn. rewrite app_nil_r. reflexivity.
    + cbn [held set_held set_window set_windows]. exact Hrest.
    + intros u Hu. apply (window_of_set_window_frame w1 me win win' u Hw1 Hu).
    + change (barrier_view (set_window w1 me win') = barrier_view w).
      rewrite barrier_view_set_window. reflexivity.
  - assert (Hpos : 0 < Z.of_nat (length (packed (m :: msgs))) <= queue_size amsgq).
    { split; [apply packed_nil_length; discriminate|exact Hlen]. }
    destruct (drain_attempt_world (6 * length (m :: msgs) + 40) me w1 amsgq
                win q (m :: msgs) (le_n _) Hqs Hqs' Hw1 Hquiet Hok Hpos)
      as (win' & Hrun & Hq').
    set (dl := deliveries me (OFFSET_DATA q (queue_size amsgq)) 0 (m :: msgs))
      in *.
    set (w2 := deliver_all (set_window w1 me win') dl) in *.
    set (a2 := set_prev_tailpos amsgq (- INT32_MAX)) in *.
    assert (Hw2 : window_of w2 me = Some win').
    { unfold w2. rewrite window_of_deliver_all.
      apply (window_of_set_window_same _ _ _ _ Hw1). }
    destruct (drain_attempt_world_empty 6 me w2 a2 win' (other_queue q)
                (- INT32_MAX) (le_n _) Hqs Hqs' Hw2 Hq')
      as (win'' & Hrun2 & Hq'').
    eexists _, a2, win''.
    split; [|split; [|split; [|split; [|split; [|split; [|split; [|split]]]]]]].
    + eapply returns_mono.
      { unfold amsg_sopnop_process_internal.
        cbn [negb]. apply returns_bind_bind.
        eapply returns_trigger; [apply mpi_lock; exact Hheld|cbv beta].
        apply returns_bind_ret. cbn [negb].
        eapply returns_bind.
        { eapply returns_iter_again.
          - unfold process_turn.
            eapply returns_bind; [exact Hrun|].
            cbn [andb fst snd].
            replace (0 <? Z.of_nat (length (packed (m :: msgs)))) with true
              by (symmetry; apply Z.ltb_lt; lia).
            apply (returns_ret _ 0%nat).
          - eapply returns_iter_leave. unfold process_turn.
            eapply returns_bind; [exact Hrun2|].
            cbn [andb fst snd Z.ltb Z.compare]. apply (returns_ret _ 0%nat). }
        cbv beta. eapply returns_trigger; [reflexivity|cbv beta].
        apply (returns_ret _ 0%nat). }
      cbn [length] in *. lia.
    + cbn [window_of windows set_held].
      apply (window_of_set_window_same _ _ _ _ Hw2).
    + exact Hq''.
    + reflexivity.
    + reflexivity.
    + cbn [invoked set_held set_window set_windows]. unfold w2.
      rewrite invoked_deliver_all. reflexivity.
    + cbn [held set_held set_window set_windows]. unfold w2.
      rewrite held_deliver_all.
      cbn [held set_held set_window set_windows w1]. exact Hrest.
    + intros u Hu.
      change (window_of (set_window w2 me win'') u = window_of w u).
      rewrite (window_of_set_window_frame w2 me win' win'' u Hw2 Hu).
      unfold w2. rewrite window_of_deliver_all.
      apply (window_of_set_window_frame w1 me win win' u Hw1 Hu).
    + change (barrier_view (set_window w2 me win'') = barrier_view w).
      rewrite barrier_view_set_window. unfold w2.
      rewrite barrier_view_deliver_all, barrier_view_set_window. reflexivity.
Qed.

(** [flush] of a handle without caches: the lock, one look at every slot,
    the unlock. *)
Lemma flush_no_caches_world fuel me w amsgq :
  (2 * length (windows w) + 6 <= fuel)%nat ->
  Z.of_nat (length (windows w)) <= INT32_MAX ->
  (forall j, cache_slot amsgq j = None) ->
  is_held w (me, send_mutex) = false ->
  returns fuel (mpi me) (dart_amsg_sopnop_flush_buffer amsgq) w
    (DART_OK, amsgq) w.
Proof.
  intros Hfuel Hn Hnone Hs.
  set (n := Z.of_nat (length (windows w))) in *.
  eapply returns_mono.
  { unfold dart_amsg_sopnop_flush_buffer, flush_buffer_with.
    eapply returns_trigger; [apply mpi_lock; exact Hs|cbv beta].
    eapply returns_trigger; [reflexivity|cbv beta].
    change (Z.of_nat (length (windows (set_held w ((me, send_mutex) :: held w)))))
      with n.
    eapply returns_bind.
    - replace 0 with (0 + 0) at 1 by reflexivity.
      apply (flush_skip (mpi me) _ _ n amsgq Hn (length (windows w)) 0);
        try (unfold n; lia).
      { intros x _. apply Hnone. }
      rewrite Z.add_0_l. fold n.
      eapply returns_iter_leave. unfold flush_target.
      replace (n <? n) with false by (symmetry; apply Z.ltb_irrefl).
      cbn [negb]. apply (returns_ret _ 0%nat).
    - cbv beta. cbn [fst snd].
      eapply returns_trigger; [apply (mpi_unlock_last me w _ Hs)|cbv beta].
      apply (returns_ret _ 0%nat). }
  cbn [Nat.add]. lia.
Qed.

Lemma count_of_cons_same l me k : count_of ((me, k) :: l) me = k.
Proof. unfold count_of. cbn [find fst]. rewrite Z.eqb_refl. reflexivity. Qed.

Lemma count_of_cons_other l me k u :
  u <> me -> count_of ((me, k) :: l) u = count_of l u.
Proof.
  intros H. unfold count_of. cbn [find fst].
  replace (me =? u) with false by (symmetry; apply Z.eqb_neq; congruence).
  reflexivity.
Qed.

(** The request of [MPI_Ibarrier] is complete once the rest of the team is
    at the barrier. *)
Lemma mpi_test_at_barrier me w0 w :
  team_at_barrier me w0 = true ->
  barrier_view w
  = barrier_view
      (set_barriers w0
         ((me, S (count_of (ibarrier_count w0) me)) :: ibarrier_count w0)
         (barrier_waiting w0) (barrier_released w0)) ->
  mpi me _ MPI_Test w = Answer true w.
Proof.
  intros Hteam Hview. unfold barrier_view in Hview.
  cbn [set_barriers ibarrier_count barrier_waiting barrier_released windows]
    in Hview.
  injection Hview as Hib Hbw Hbr Hlen.
  unfold mpi. f_equal. unfold units. rewrite Hlen, Hib.
  rewrite count_of_cons_same.
  unfold team_at_barrier, units in Hteam.
  rewrite forallb_forall in Hteam |- *. intros u Hu.
  specialize (Hteam u Hu). apply orb_true_iff in Hteam.
  destruct (Z.eq_dec u me) as [->|Hne].
  - rewrite count_of_cons_same. apply Nat.leb_refl.
  - rewrite count_of_cons_other by exact Hne.
    destruct Hteam as [He|Hl]; [apply Z.eqb_eq in He; contradiction|].
    apply andb_true_iff in Hl. destruct Hl as [Hl _].
    apply Nat.ltb_lt in Hl. apply Nat.leb_le. lia.
Qed.

(** The blocking barrier lets [me] through once the rest of the team waits
    in it. *)
Lemma mpi_barrier_at_barrier me w0 w :
  team_at_barrier me w0 = true ->
  barrier_view w
  = barrier_view
      (set_barriers w0
         ((me, S (count_of (ibarrier_count w0) me)) :: ibarrier_count w0)
         (barrier_waiting w0) (barrier_released w0)) ->
  exists w',
    mpi me _ MPI_Barrier w = Answer tt w' /\
    windows w' = windows w /\ held w' = held w /\ invoked w' = invoked w.
Proof.
  intros Hteam Hview. unfold barrier_view in Hview.
  cbn [set_barriers ibarrier_count barrier_waiting barrier_released windows]
    in Hview.
  injection Hview as Hib Hbw Hbr Hlen.
  unfold mpi. destruct (mem_Z me (barrier_released w)).
  - eexists. split; [reflexivity|]. auto.
  - set (waiting := if mem_Z me (barrier_waiting w) then barrier_waiting w
                    else me :: barrier_waiting w).
    assert (Hall : forallb (fun u => mem_Z u waiting) (units w) = true).
    { unfold team_at_barrier, units in Hteam. unfold units. rewrite Hlen.
      rewrite forallb_forall in Hteam |- *. intros u Hu.
      specialize (Hteam u Hu). apply orb_true_iff in Hteam.
      destruct Hteam as [He|Hl].
      - apply Z.eqb_eq in He. subst u. unfold waiting.
        destruct (mem_Z me (barrier_waiting w)) eqn:E; [exact E|].
        unfold mem_Z. cbn [existsb]. rewrite Z.eqb_refl. reflexivity.
      - apply andb_true_iff in Hl. destruct Hl as [_ Hm].
        rewrite <- Hbw in Hm. unfold waiting.
        destruct (mem_Z me (barrier_waiting w)); [exact Hm|].
        unfold mem_Z in *. cbn [existsb]. rewrite Hm. apply orb_true_r. }
    rewrite Hall. eexists. split; [reflexivity|]. auto.
Qed.
(** ** The capacity that [openq] gives a queue *)

Lemma packed_uniform_length msg_size msgs :
  (forall m, In m msgs -> payload_size m = msg_size) ->
  Z.of_nat (length (packed msgs))
  = Z.of_nat (length msgs) * (sizeof_header + msg_size).
Proof.
  induction msgs as [|m msgs IH]; intros H; [reflexivity|].
  rewrite packed_cons, length_app, Nat2Z.inj_add, message_bytes_length.
  rewrite IH by (intros x Hx; apply H; right; exact Hx).
  rewrite (H m) by (left; reflexivity).
  cbn [length]. lia.
Qed.

(** Messages that fit are accepted one after the other. *)
Lemma fifo_model_fill qs ops : forall msgs pending,
  Z.of_nat (length (packed (pending ++ msgs))) <= qs ->
  fifo_model qs (map op_trysend msgs ++ ops) pending
  = (map (fun _ => DART_OK) msgs ++ fst (fifo_model qs ops (pending ++ msgs)),
     snd (fifo_model qs ops (pending ++ msgs))).
Proof.
  induction msgs as [|m msgs IH]; intros pending Hfit.
  - rewrite app_nil_r. cbn [map app].
    destruct (fifo_model qs ops pending). reflexivity.
  - cbn [map app fifo_model].
    assert (Hm : Z.of_nat (length (packed pending)) + sizeof_header
                 + payload_size m <= qs).
    { rewrite !packed_app, !length_app, !Nat2Z.inj_add in Hfit.
      rewrite packed_cons, length_app, Nat2Z.inj_add, message_bytes_length
        in Hfit. lia. }
    replace (Z.of_nat (length (packed pending)) + sizeof_header
             + payload_size m <=? qs) with true
      by (symmetry; apply Z.leb_le; exact Hm).
    replace (pending ++ m :: msgs) with ((pending ++ [m]) ++ msgs) in *
      by (rewrite <- app_assoc; reflexivity).
    rewrite (IH (pending ++ [m]) Hfit). reflexivity.
Qed.
(** ** The cache stays inside its buffer *)

Lemma write_at_read off bs buf :
  (off <= length buf)%nat ->
  firstn (length bs) (skipn off (write_at off bs buf)) = bs.
Proof.
  intros H. unfold write_at.
  rewrite skipn_app.
  rewrite (skipn_all2 (firstn off buf)) by (rewrite length_firstn; lia).
  rewrite length_firstn. replace (off - Nat.min off (length buf))%nat with 0%nat
    by lia.
  cbn [skipn app]. rewrite firstn_app, Nat.sub_diag. cbn [firstn].
  rewrite app_nil_r. apply firstn_all.
Qed.

Lemma bsend_message_length f me data data_size :
  0 <= data_size <= Z.of_nat (length data) ->
  Z.of_nat
    (length
       (encode_header {| fn := f; remote := me; data_size := data_size |}
        ++ firstn (Z.to_nat data_size) data))
  = sizeof_header + data_size.
Proof.
  intros H. unfold encode_header, sizeof_header.
  rewrite !length_app, !le_encode_length, length_firstn. lia.
Qed.

(** What the copy of a message to [pos] of a cache leaves. *)
Lemma cache_after_copy c f me data data_size :
  cache_in_bounds c ->
  0 <= data_size <= Z.of_nat (length data) ->
  pos c + sizeof_header + data_size <= MSGCACHE_SIZE ->
  let msg :=
    encode_header {| fn := f; remote := me; data_size := to_u32 data_size |}
    ++ firstn (Z.to_nat data_size) data in
  let c' :=
    {| pos := wrap32 (to_u64 (pos c + sizeof_header + data_size));
       buffer := write_at (Z.to_nat (pos c)) msg (buffer c) |} in
  pos c' = pos c + sizeof_header + data_size /\
  cache_in_bounds c' /\
  last_cached c' (sizeof_header + data_size)
  = encode_header {| fn := f; remote := me; data_size := data_size |}
    ++ firstn (Z.to_nat data_size) data.
Proof.
  intros [Hpos Hlen] Hds Hroom msg c'.
  assert (Hu32 : to_u32 data_size = data_size).
  { apply to_u32_small. unfold INT32_MAX, MSGCACHE_SIZE, sizeof_header in *.
    lia. }
  assert (Hp : pos c' = pos c + sizeof_header + data_size).
  { unfold c'. cbn [pos]. unfold to_u64.
    rewrite Z.mod_small
      by (unfold MSGCACHE_SIZE, sizeof_header in *; lia).
    apply wrap32_id. unfold INT32_MAX, MSGCACHE_SIZE, sizeof_header in *. lia. }
  assert (Hmsg : Z.of_nat (length msg) = sizeof_header + data_size).
  { unfold msg. rewrite Hu32. apply bsend_message_length. exact Hds. }
  split; [exact Hp|]. split.
  - split; [rewrite Hp; unfold sizeof_header in *; lia|].
    unfold c'. cbn [buffer]. rewrite write_at_length by lia. exact Hlen.
  - unfold last_cached. rewrite Hp.
    replace (pos c + sizeof_header + data_size - (sizeof_header + data_size))
      with (pos c) by lia.
    rewrite <- Hmsg, Nat2Z.id. unfold c'. cbn [buffer].
    rewrite write_at_read by lia. unfold msg. rewrite Hu32. reflexivity.
Qed.

(** ** The queue of one unit, used sequentially *)

(** X1: used by one caller at a time, the queue of a unit is a bounded
    first-in first-out queue.  On a freshly opened team, for any sequence of
    [try_send] calls to unit [target] (from any units) and [process] calls of
    [target], run one after the other: every call returns, the return codes
    are those of the queue model ([try_send] is OK exactly when the message
    fits behind the pending ones, [process] is OK), and the handler calls
    that [target] has made are exactly the accepted messages drained so far,
    once each, in the order they were sent, each with the handler and the
    payload bytes of its [try_send]. *)
Theorem sequential_queue_is_fifo n qs target ops fuel :
  0 <= qs -> 2 * qs + 40 <= INT64_MAX ->
  0 <= target < Z.of_nat n ->
  (Z.to_nat qs + 50 <= fuel)%nat ->
  forallb queue_op_ok ops = true ->
  exists amsgq' w',
    run_ops fuel target (fresh_amsgq n qs) ops (fresh_amsgq n qs)
      (fresh_world n qs)
    = Some (fst (fifo_model qs ops []), amsgq', w') /\
    map call_of (invoked w')
    = map (call_for target) (snd (fifo_model qs ops [])).
Proof.
  intros Hqs Hqs' Ht Hfuel Hops.
  destruct (run_ops_fifo fuel target (fresh_amsgq n qs) qs ops
              (fresh_amsgq n qs) (fresh_world n qs)
              (fresh_window (openq_win_size qs)) 0 []
              Hqs Hqs' Hfuel eq_refl eq_refl
              (window_of_fresh_world n qs target Ht)
              (fresh_window_quiescent qs) eq_refl Hqs eq_refl Hops)
    as (a' & w' & Hrun & Hinv).
  exists a', w'. split; [exact Hrun|exact Hinv].
Qed.

Lemma sequential_queue_is_fifo_witness :
  fifo_model example_qs fifo_example_ops []
  = ([ DART_OK; DART_OK; DART_OK; DART_ERR_AGAIN; DART_OK; DART_OK; DART_OK;
       DART_OK ],
     [ {| msg_sender := 1; msg_fn := 7; msg_payload := bytes_from 1 16 |};
       {| msg_sender := 1; msg_fn := 8; msg_payload := bytes_from 21 3 |};
       {| msg_sender := 0; msg_fn := 9; msg_payload := bytes_from 31 60 |};
       {| msg_sender := 1; msg_fn := 11; msg_payload := [] |} ]) /\
  option_map (fun x => map call_of (invoked (snd x)))
    (run_ops 200 0 (fresh_amsgq 2 example_qs) fifo_example_ops
       (fresh_amsgq 2 example_qs) (fresh_world 2 example_qs))
  = Some [ (0, 7, bytes_from 1 16); (0, 8, bytes_from 21 3);
           (0, 9, bytes_from 31 60); (0, 11, []) ] /\
  exists amsgq' w',
    run_ops 200 0 (fresh_amsgq 2 example_qs) fifo_example_ops
      (fresh_amsgq 2 example_qs) (fresh_world 2 example_qs)
    = Some (fst (fifo_model example_qs fifo_example_ops []), amsgq', w') /\
    map call_of (invoked w')
    = map (call_for 0) (snd (fifo_model example_qs fifo_example_ops [])).
Proof.
  split; [vm_compute; reflexivity|].
  split; [vm_compute; reflexivity|].
  apply (sequential_queue_is_fifo 2 example_qs 0 fifo_example_ops 200).
  - vm_compute. discriminate.
  - vm_compute. discriminate.
  - cbn. lia.
  - vm_compute. lia.
  - vm_compute. reflexivity.
Defined.

(** X2: [try_send] on a quiescent window with room.  If the active
    sub-queue [q] of [target] holds [bytes] and the message (header and
    payload) fits behind them, [try_send] returns OK and the window is
    quiescent again with the message appended: both counters of [q] have
    advanced by the size of the message and its bytes lie behind [bytes].
    The selector, the other sub-queue, the windows of the other units, the
    mutexes and the handler calls made so far are untouched. *)
Theorem trysend_appends_message fuel w target amsgq m win q bytes late :
  (12 <= fuel)%nat ->
  0 <= queue_size amsgq -> 2 * queue_size amsgq + 40 <= INT64_MAX ->
  window_of w target = Some win ->
  quiescent (queue_size amsgq) win q bytes late ->
  message_ok m = true ->
  Z.of_nat (length bytes) + sizeof_header + payload_size m
    <= queue_size amsgq ->
  exists w' win',
    returns fuel (mpi (msg_sender m))
      (dart_amsg_sopnop_trysend target amsgq (msg_fn m) (msg_payload m)
         (payload_size m)) w DART_OK w' /\
    window_of w' target = Some win' /\
    quiescent (queue_size amsgq) win' q (bytes ++ message_bytes m) late /\
    invoked w' = invoked w /\ held w' = held w /\
    forall u, u <> target -> window_of w' u = window_of w u.
Proof.
  intros Hfuel Hqs Hqs' Hw Hquiet Hm Hfit.
  destruct (trysend_world_ok fuel w target amsgq m win q bytes late
              Hfuel Hqs Hqs' Hw Hquiet Hm Hfit) as (win' & Hrun & Hq').
  exists (set_window w target win'), win'.
  split; [exact Hrun|].
  split; [apply (window_of_set_window_same _ _ _ _ Hw)|].
  split; [exact Hq'|].
  split; [reflexivity|]. split; [reflexivity|].
  intros u Hu. apply (window_of_set_window_frame _ _ _ _ _ Hw Hu).
Qed.

Lemma trysend_appends_message_witness :
  exists w' win',
    returns 12 (mpi 1)
      (dart_amsg_sopnop_trysend 0 example_amsgq 9 (bytes_from 31 5) 5)
      world_two_messages DART_OK w' /\
    window_of w' 0 = Some win' /\
    quiescent example_qs win' 0
      (packed example_pending
       ++ message_bytes
            {| msg_sender := 1; msg_fn := 9; msg_payload := bytes_from 31 5 |})
      0 /\
    invoked w' = invoked world_two_messages /\
    held w' = held world_two_messages /\
    forall u, u <> 0 -> window_of w' u = window_of world_two_messages u.
Proof.
  apply (trysend_appends_message 12 world_two_messages 0 example_amsgq
           {| msg_sender := 1; msg_fn := 9; msg_payload := bytes_from 31 5 |}
           (window_at world_two_messages 0) 0 (packed example_pending) 0).
  - lia.
  - vm_compute. discriminate.
  - vm_compute. discriminate.
  - vm_compute. reflexivity.
  - repeat split; try (vm_compute; reflexivity). left. reflexivity.
  - vm_compute. reflexivity.
  - vm_compute. discriminate.
Defined.

(** X3: [try_send] on a quiescent window without room.  If the message
    does not fit behind the [bytes] of the active sub-queue, [try_send]
    returns ERR_AGAIN and the window is quiescent with the same [bytes]:
    the reservation has been taken back, nothing was written. *)
Theorem trysend_full_queue_unchanged fuel w target amsgq m win q bytes late :
  (12 <= fuel)%nat ->
  0 <= queue_size amsgq -> 2 * queue_size amsgq + 40 <= INT64_MAX ->
  window_of w target = Some win ->
  quiescent (queue_size amsgq) win q bytes late ->
  message_ok m = true ->
  Z.of_nat (length bytes) <= queue_size amsgq ->
  queue_size amsgq
    < Z.of_nat (length bytes) + sizeof_header + payload_size m ->
  exists w' win',
    returns fuel (mpi (msg_sender m))
      (dart_amsg_sopnop_trysend target amsgq (msg_fn m) (msg_payload m)
         (payload_size m)) w DART_ERR_AGAIN w' /\
    window_of w' target = Some win' /\
    quiescent (queue_size amsgq) win' q bytes late /\
    invoked w' = invoked w /\ held w' = held w /\
    forall u, u <> target -> window_of w' u = window_of w u.
Proof.
  intros Hfuel Hqs Hqs' Hw Hquiet Hm Hin Hfit.
  destruct (trysend_world_again fuel w target amsgq m win q bytes late
              Hfuel Hqs Hqs' Hw Hquiet Hm Hin Hfit) as (win' & Hrun & Hq').
  exists (set_window w target win'), win'.
  split; [exact Hrun|].
  split; [apply (window_of_set_window_same _ _ _ _ Hw)|].
  split; [exact Hq'|].
  split; [reflexivity|]. split; [reflexivity|].
  intros u Hu. apply (window_of_set_window_frame _ _ _ _ _ Hw Hu).
Qed.

Lemma trysend_full_queue_unchanged_witness :
  exists w' win',
    returns 12 (mpi 1)
      (dart_amsg_sopnop_trysend 0 example_amsgq 9 (bytes_from 31 70) 70)
      world_two_messages DART_ERR_AGAIN w' /\
    window_of w' 0 = Some win' /\
    quiescent example_qs win' 0 (packed example_pending) 0 /\
    invoked w' = invoked world_two_messages /\
    held w' = held world_two_messages /\
    forall u, u <> 0 -> window_of w' u = window_of world_two_messages u.
Proof.
  apply (trysend_full_queue_unchanged 12 world_two_messages 0 example_amsgq
           {| msg_sender := 1; msg_fn := 9; msg_payload := bytes_from 31 70 |}
           (window_at world_two_messages 0) 0 (packed example_pending) 0).
  - lia.
  - vm_compute. discriminate.
  - vm_compute. discriminate.
  - vm_compute. reflexivity.
  - repeat split; try (vm_compute; reflexivity). left. reflexivity.
  - vm_compute. reflexivity.
  - vm_compute. discriminate.
  - vm_compute. reflexivity.
Defined.

(** X4: [process] on a quiescent window.  If the active sub-queue [q] of
    the caller holds the messages [msgs] back to back, nobody holds the
    processing mutex and the other sub-queue is where the last drain left it
    ([tail] equal to the handle's [prev_tailpos]), then [process] returns OK
    having called, for every message and in the order of the queue, the
    handler of the message on its payload, once.  Afterwards the window is
    quiescent and empty: if there were messages the selector points to the
    other sub-queue and the drained one is left frozen with the value the
    handle remembers; the mutex is free again; the windows of the other
    units and the handle's capacity and caches are untouched. *)
Theorem process_delivers_pending fuel me w amsgq win q msgs :
  (6 * length msgs + 50 <= fuel)%nat ->
  0 <= queue_size amsgq -> 2 * queue_size amsgq + 40 <= INT64_MAX ->
  window_of w me = Some win ->
  quiescent (queue_size amsgq) win q (packed msgs) (prev_tailpos amsgq) ->
  forallb message_ok msgs = true ->
  Z.of_nat (length (packed msgs)) <= queue_size amsgq ->
  is_held w (me, processing_mutex) = false ->
  exists w' amsgq' win',
    returns fuel (mpi me) (dart_amsg_sopnop_process amsgq) w
      (DART_OK, amsgq') w' /\
    map call_of (invoked w')
    = map call_of (invoked w) ++ map (call_for me) msgs /\
    window_of w' me = Some win' /\
    quiescent (queue_size amsgq) win'
      (match msgs with [] => q | _ => other_queue q end) []
      (prev_tailpos amsgq') /\
    queue_size amsgq' = queue_size amsgq /\
    message_cache amsgq' = message_cache amsgq /\
    held w' = held w /\
    forall u, u <> me -> window_of w' u = window_of w u.
Proof.
  intros Hfuel Hqs Hqs' Hw Hquiet Hok Hlen Hheld.
  destruct (process_world fuel me w amsgq win q msgs
              Hfuel Hqs Hqs' Hw Hquiet Hok Hlen Hheld)
    as (w' & a' & win' & Hrun & Hw' & Hq' & Hsz & Hmc & Hinv & Hh & Hframe).
  exists w', a', win'.
  split; [exact Hrun|].
  split; [rewrite Hinv, map_app, deliveries_calls; reflexivity|].
  auto 10.
Qed.

Lemma process_delivers_pending_witness :
  exists w' amsgq' win',
    returns 62 (mpi 0) (dart_amsg_sopnop_process example_amsgq)
      world_two_messages (DART_OK, amsgq') w' /\
    map call_of (invoked w')
    = map call_of (invoked world_two_messages)
      ++ map (call_for 0) example_pending /\
    window_of w' 0 = Some win' /\
    quiescent (queue_size example_amsgq) win' 1 [] (prev_tailpos amsgq') /\
    queue_size amsgq' = queue_size example_amsgq /\
    message_cache amsgq' = message_cache example_amsgq /\
    held w' = held world_two_messages /\
    forall u, u <> 0 -> window_of w' u = window_of world_two_messages u.
Proof.
  apply (process_delivers_pending 62 0 world_two_messages example_amsgq
           (window_at world_two_messages 0) 0 example_pending).
  - cbn. lia.
  - vm_compute. discriminate.
  - vm_compute. discriminate.
  - vm_compute. reflexivity.
  - repeat split; try (vm_compute; reflexivity). left. reflexivity.
  - vm_compute. reflexivity.
  - vm_compute. discriminate.
  - vm_compute. reflexivity.
Defined.

(** ** The drainer, for every environment *)

(** X5: [process] never waits for the processing mutex and never touches
    the capacity or the caches of the handle.  For every environment, a call
    of [process] that returns has tried the lock once.  If the lock was
    taken it returns ERR_AGAIN at once, with no other event and the handle
    as it was.  Otherwise it makes exactly one attempt to drain (the loop
    [do ... while (blocking && tailpos > 0)] is left after the first turn),
    unlocks and returns OK; the attempt has no mutex event of its own, and
    of the handle only [prev_tailpos] can have changed. *)
Theorem process_never_waits {Env} (h : handler Env) fuel amsgq s :
  let res := run fuel h (dart_amsg_sopnop_process amsgq) s in
  forall r a', outcome_of res = Done (r, a') ->
  exists ret rest,
    trace_of res = Obs (mutex_trylock processing_mutex) ret :: rest /\
    queue_size a' = queue_size amsgq /\
    message_cache a' = message_cache amsgq /\
    (ret <> DART_OK -> r = DART_ERR_AGAIN /\ a' = amsgq /\ rest = []) /\
    (ret = DART_OK ->
       r = DART_OK /\
       exists attempt tailpos,
         rest = attempt ++ [Obs (mutex_unlock processing_mutex) tt] /\
         is_run_of h (drain_attempt amsgq) attempt (a', tailpos) /\
         mutex_free attempt = true).
Proof.
  intros res r a' Hr. subst res.
  destruct (run fuel h (dart_amsg_sopnop_process amsgq) s)
    as [[tr o] s'] eqn:E.
  unfold outcome_of, trace_of in *. cbn [fst snd] in *. subst o.
  pose proof (process_internal_frame h _ _ _ _ _ _ _ _ E) as [Hq Hc].
  unfold dart_amsg_sopnop_process, amsg_sopnop_process_internal in E.
  cbn [negb] in E. do 3 run_step E.
  exists x, tr0. split; [reflexivity|]. split; [exact Hq|]. split; [exact Hc|].
  destruct (dart_ret_eqb x DART_OK) eqn:Ex; cbn [negb] in E.
  - assert (x = DART_OK) by (destruct x; try discriminate; reflexivity).
    subst x. split; [congruence|]. intros _.
    apply run_bind_inv in E; [|discriminate].
    destruct E as [(tr1 & a1 & s1 & tr2 & H1 & E & ->)|[Hc' _]];
      [|discriminate].
    run_step E. run_done E. unit_answers.
    split; [reflexivity|].
    apply run_iter_inv in H1; [|discriminate].
    destruct H1 as [(tr3 & lr & s3 & tr4 & Hb & -> & Hlr)|[Hc' _]];
      [|discriminate].
    unfold process_turn in Hb. cbn [andb] in Hb.
    run_bind Hb tr5 ct s5 tr6 Hct. run_done Hb.
    destruct Hlr as (Hd & -> & _). inversion Hd; subst.
    exists tr5, (snd ct). rewrite !app_nil_r. split; [reflexivity|].
    split.
    + destruct ct. do 3 eexists. exact Hct.
    + eapply drain_attempt_mutex_free. exact Hct.
  - run_done E. split; [|intros ->; discriminate].
    intros _. auto.
Qed.

Lemma process_never_waits_witness :
  let res := run 60 (mpi 0) (dart_amsg_sopnop_process example_amsgq)
               world_two_messages in
  outcome_of res = Done (DART_OK, set_prev_tailpos example_amsgq (- INT32_MAX)) /\
  exists ret rest,
    trace_of res = Obs (mutex_trylock processing_mutex) ret :: rest /\
    queue_size (set_prev_tailpos example_amsgq (- INT32_MAX))
    = queue_size example_amsgq /\
    message_cache (set_prev_tailpos example_amsgq (- INT32_MAX))
    = message_cache example_amsgq /\
    (ret <> DART_OK ->
       DART_OK = DART_ERR_AGAIN /\
       set_prev_tailpos example_amsgq (- INT32_MAX) = example_amsgq /\
       rest = []) /\
    (ret = DART_OK ->
       DART_OK = DART_OK /\
       exists attempt tailpos,
         rest = attempt ++ [Obs (mutex_unlock processing_mutex) tt] /\
         is_run_of (mpi 0) (drain_attempt example_amsgq) attempt
           (set_prev_tailpos example_amsgq (- INT32_MAX), tailpos) /\
         mutex_free attempt = true).
Proof.
  intros res. split; [vm_compute; reflexivity|].
  apply (process_never_waits (mpi 0) 60 example_amsgq world_two_messages).
  vm_compute. reflexivity.
Defined.

(** X6: an attempt to drain that finds nothing claimed changes nothing.
    For every environment, an attempt of the drainer starts by asking for
    the unit's rank, loading the selector from its own window and fetching
    [tail] of the selected sub-queue without changing it.  If the value
    fetched is not positive (the sub-queue is empty, or frozen by a drain in
    progress), the attempt ends there: these are all its events, none of
    them writes to a window or calls a handler, the handle is as it was and
    the value fetched is the [tailpos] that the loop condition looks at. *)
Theorem drain_attempt_idle {Env} (h : handler Env) fuel amsgq s :
  let res := run fuel h (drain_attempt amsgq) s in
  forall a' tailpos, outcome_of res = Done (a', tailpos) ->
  exists unitid qb fetched rest,
    let q := wrap64 (le_decode qb) in
    trace_of res =
      [ Obs MPI_Comm_rank unitid;
        Obs (queue_load OFFSET_QUEUENUM 8) qb;
        Obs (MPI_Fetch_and_op 0 MPI_INT64_T unitid
               (MPI_Aint (OFFSET_TAILPOS q)) MPI_NO_OP) fetched;
        Obs (MPI_Win_flush_local unitid) tt ] ++ rest /\
    (q = 0 \/ q = 1) /\
    (fetched <= 0 ->
       rest = [] /\ a' = amsgq /\ tailpos = fetched /\
       invocations (trace_of res) = []).
Proof.
  intros res a' tailpos Hr. subst res.
  destruct (run fuel h (drain_attempt amsgq) s) as [[tr o] s'] eqn:E.
  unfold outcome_of, trace_of in *. cbn [fst snd] in *. subst o.
  unfold drain_attempt, load_queuenum in E.
  repeat run_step E. unit_answers.
  match type of E with run _ _ _ _ = (?t, _, _) => exists x, x0, x1, t end.
  split; [reflexivity|].
  split. { apply orb_true_iff in Hb. rewrite !Z.eqb_eq in Hb. exact Hb. }
  intros Hle.
  replace (0 <? x1) with false in E by (symmetry; apply Z.ltb_ge; exact Hle).
  run_done E. auto.
Qed.

Lemma drain_attempt_idle_witness :
  let res := run 10 (mpi 0) (drain_attempt example_amsgq) example_world in
  outcome_of res = Done (example_amsgq, 0) /\
  exists unitid qb fetched rest,
    let q := wrap64 (le_decode qb) in
    trace_of res =
      [ Obs MPI_Comm_rank unitid;
        Obs (queue_load OFFSET_QUEUENUM 8) qb;
        Obs (MPI_Fetch_and_op 0 MPI_INT64_T unitid
               (MPI_Aint (OFFSET_TAILPOS q)) MPI_NO_OP) fetched;
        Obs (MPI_Win_flush_local unitid) tt ] ++ rest /\
    (q = 0 \/ q = 1) /\
    (fetched <= 0 ->
       rest = [] /\ example_amsgq = example_amsgq /\ 0 = fetched /\
       invocations (trace_of res) = []).
Proof.
  intros res. split; [vm_compute; reflexivity|].
  apply (drain_attempt_idle (mpi 0) 10 example_amsgq example_world).
  vm_compute. reflexivity.
Defined.

(** ** The sender stays inside the window *)

(** X7: whatever the environment answers, [send_buffer] stays inside the
    queue of its target.  The two sub-queues lie back to back behind the
    five 8-byte words of the window that [openq] allocates and end where the
    window ends.  Every event of a call of [send_buffer] that returns is
    addressed to [target] and is one of: the read of the selector (never a
    write to it), an atomic addition to one of the four counters (never a
    replacement), a put of [n] bytes that lies inside one sub-queue, or a
    flush. *)
Theorem sendbuf_stays_in_queue {Env} (h : handler Env) fuel target amsgq
    data n s :
  0 <= queue_size amsgq -> 2 * queue_size amsgq + 40 <= INT64_MAX ->
  0 <= n <= INT32_MAX ->
  let res := run fuel h (dart_amsg_sopnop_sendbuf target amsgq data n) s in
  let qs := queue_size amsgq in
  wt_trace (trace_of res) = true ->
  forall r, outcome_of res = Done r ->
  forallb (sender_access_ok qs target) (trace_of res) = true /\
  OFFSET_READYPOS 1 + 8 = OFFSET_DATA 0 qs /\
  OFFSET_DATA 0 qs + qs = OFFSET_DATA 1 qs /\
  OFFSET_DATA 1 qs + qs = openq_win_size qs.
Proof.
  intros Hqs Hqs' Hn res qs Hwt r Hr. subst res.
  destruct (run fuel h (dart_amsg_sopnop_sendbuf target amsgq data n) s)
    as [[tr o] s'] eqn:E.
  unfold outcome_of, trace_of in *. cbn [fst snd] in *. subst o.
  assert (Hlayout : OFFSET_READYPOS 1 + 8 = OFFSET_DATA 0 qs /\
                    OFFSET_DATA 0 qs + qs = OFFSET_DATA 1 qs /\
                    OFFSET_DATA 1 qs + qs = openq_win_size qs).
  { rewrite OFFSET_DATA_0, OFFSET_DATA_1, openq_win_size_simpl by assumption.
    change (OFFSET_READYPOS 1) with 32. lia. }
  split; [|exact Hlayout].
  destruct Hlayout as (_ & H01 & H1w).
  apply sendbuf_run_inv in E. destruct E as (q & off & Hq & -> & _).
  rewrite wt_trace_app in Hwt. apply andb_true_iff in Hwt.
  destruct Hwt as [Hwt _].
  assert (Hoff : INT64_MIN <= off <= INT64_MAX).
  { cbn in Hwt. rewrite !andb_true_iff in Hwt. apply is_int64_spec. tauto. }
  assert (Hwn : wrap64 n = n)
    by (apply wrap64_id; unfold INT64_MIN, INT64_MAX, INT32_MAX in *; lia).
  assert (Hwn32 : wrap32 n = n) by (apply wrap32_id; unfold INT32_MAX in *; lia).
  rewrite forallb_app.
  assert (Hres : forallb (sender_access_ok qs target)
                   (sendbuf_reserve_obs target (wrap64 n) q off) = true).
  { destruct Hq as [-> | ->]; cbn; rewrite Z.eqb_refl; reflexivity. }
  rewrite Hres. cbn [andb].
  destruct (reservation_fits (queue_size amsgq) (wrap64 n) off) eqn:Efit.
  - apply reservation_fits_spec in Efit;
      [|unfold INT64_MAX, INT32_MAX in *; lia|exact Hoff].
    destruct Efit as [Hoff0 Hfit].
    unfold sendbuf_commit_obs. fold qs in Hfit |- *.
    rewrite (OFFSET_DATA_simpl qs q off Hq Hqs Hqs') by lia.
    rewrite Hwn32. unfold data_disp.
    cbn [forallb sender_access_ok]. rewrite Z.eqb_refl. cbn [andb].
    assert (Hput : in_sub_queue qs 0 (40 + q * qs + off) n
                   || in_sub_queue qs 1 (40 + q * qs + off) n = true).
    { unfold in_sub_queue. rewrite OFFSET_DATA_0.
      rewrite (OFFSET_DATA_1 qs Hqs Hqs').
      destruct Hq as [-> | ->]; apply orb_true_iff; [left|right];
        rewrite !andb_true_iff, !Z.leb_le; lia. }
    rewrite Hput.
    destruct Hq as [-> | ->]; reflexivity.
  - unfold sendbuf_rollback_obs.
    cbn [forallb sender_access_ok]. rewrite Z.eqb_refl. cbn [andb].
    destruct Hq as [-> | ->]; reflexivity.
Qed.

Lemma sendbuf_stays_in_queue_witness :
  let res :=
    run 10 (mpi 1)
      (dart_amsg_sopnop_sendbuf 0 example_amsgq (bytes_from 1 19) 19)
      world_two_messages in
  let qs := queue_size example_amsgq in
  outcome_of res = Done DART_OK /\
  forallb (sender_access_ok qs 0) (trace_of res) = true /\
  OFFSET_READYPOS 1 + 8 = OFFSET_DATA 0 qs /\
  OFFSET_DATA 0 qs + qs = OFFSET_DATA 1 qs /\
  OFFSET_DATA 1 qs + qs = openq_win_size qs.
Proof.
  intros res qs. split; [vm_compute; reflexivity|].
  apply (sendbuf_stays_in_queue (mpi 1) 10 0 example_amsgq (bytes_from 1 19)
           19 world_two_messages) with (r := DART_OK).
  - vm_compute. discriminate.
  - vm_compute. discriminate.
  - vm_compute. split; discriminate.
  - vm_compute. reflexivity.
  - vm_compute. reflexivity.
Defined.

(** ** The caches after [flush] *)

Lemma emptied_id c : pos c = 0 -> emptied c = c.
Proof. destruct c as [p b]. cbn. intros ->. reflexivity. Qed.

Lemma flush_loop_inv {Env} (h : handler Env) comm_size a0 :
  0 <= comm_size <= INT32_MAX ->
  forall f i a s tr ra s',
  0 <= i ->
  flushed_upto a0 a i ->
  run f h
    (ITree.iter
       (flush_target dart_amsg_sopnop_sendbuf amsg_sopnop_process_internal
          comm_size) (i, a)) s = (tr, Done ra, s') ->
  fst ra = None /\
  queue_size (snd ra) = queue_size a /\
  flushed_upto a0 (snd ra) (Z.max i comm_size).
Proof.
  intros Hcs. induction f as [f IH] using lt_wf_ind.
  intros i a s tr ra s' Hi Hinv H.
  apply run_iter_inv in H; [|discriminate].
  destruct H as [(tr1 & lr & s1 & tr2 & Hb & -> & Hlr)|[Hc _]]; [|discriminate].
  unfold flush_target in Hb.
  destruct (i <? comm_size) eqn:Ei; cbn [negb] in Hb.
  2: { run_done Hb. destruct Hlr as (Hd & _ & _). inversion Hd; subst.
       apply Z.ltb_ge in Ei. cbn [fst snd].
       split; [reflexivity|]. split; [reflexivity|].
       rewrite Z.max_l by lia. exact Hinv. }
  apply Z.ltb_lt in Ei.
  assert (Hw : wrap32 (i + 1) = i + 1)
    by (apply wrap32_id; unfold INT32_MAX in *; lia).
  assert (Hnext : forall a1,
            queue_size a1 = queue_size a ->
            flushed_upto a0 a1 (i + 1) ->
            forall f' tr', (f' < f)%nat ->
            run f' h
              (ITree.iter
                 (flush_target dart_amsg_sopnop_sendbuf
                    amsg_sopnop_process_internal comm_size) (i + 1, a1)) s1
            = (tr', Done ra, s') ->
            fst ra = None /\
            queue_size (snd ra) = queue_size a /\
            flushed_upto a0 (snd ra) (Z.max i comm_size)).
  { intros a1 Hq1 Hinv1 f' tr' Hf' Hl.
    destruct (IH f' Hf' (i + 1) a1 s1 tr' ra s' ltac:(lia) Hinv1 Hl)
      as (Hn & Hq & Hfin).
    split; [exact Hn|]. split; [congruence|].
    replace (Z.max i comm_size) with (Z.max (i + 1) comm_size) by lia.
    exact Hfin. }
  destruct (cache_slot a i) as [cache|] eqn:Eslot.
  - run_step Hb. destruct (pos cache =? 0) eqn:Epos.
    + run_step Hb. run_done Hb. rewrite Hw in Hlr.
      destruct Hlr as (f' & Hf' & Hl).
      apply (Hnext a eq_refl) with (f' := f') (tr' := tr2); auto.
      intros j Hj. destruct (Hinv j Hj) as [Hlt Hge]. split.
      * intros Hji. destruct (Z.eq_dec j i) as [->|Hne]; [|apply Hlt; lia].
        rewrite <- (Hge ltac:(lia)), Eslot. cbn.
        rewrite emptied_id by (apply Z.eqb_eq; exact Epos). reflexivity.
      * intros Hji. apply Hge. lia.
    + run_bind Hb tr3 rd s3 tr4 Hd.
      apply drain_cache_frame in Hd. destruct Hd as (Hfst & Hq & Hc).
      rewrite Hfst in Hb. run_step Hb. run_done Hb. rewrite Hw in Hlr.
      destruct Hlr as (f' & Hf' & Hl).
      apply (Hnext (set_cache_slot (snd rd) i
                      {| pos := 0; buffer := buffer cache |}))
        with (f' := f') (tr' := tr2); auto.
      intros j Hj. destruct (Hinv j Hj) as [Hlt Hge]. split.
      * intros Hji. destruct (Z.eq_dec j i) as [->|Hne].
        -- rewrite <- (Hge ltac:(lia)), Eslot.
           apply (cache_slot_set_same _ _ _ cache).
           rewrite (cache_slot_frame _ _ _ Hc). exact Eslot.
        -- rewrite cache_slot_set_other by lia.
           rewrite (cache_slot_frame _ _ _ Hc). apply Hlt. lia.
      * intros Hji. rewrite cache_slot_set_other by lia.
        rewrite (cache_slot_frame _ _ _ Hc). apply Hge. lia.
  - run_done Hb. rewrite Hw in Hlr.
    destruct Hlr as (f' & Hf' & Hl).
    apply (Hnext a eq_refl) with (f' := f') (tr' := tr2); auto.
    intros j Hj. destruct (Hinv j Hj) as [Hlt Hge]. split.
    + intros Hji. destruct (Z.eq_dec j i) as [->|Hne]; [|apply Hlt; lia].
      rewrite <- (Hge ltac:(lia)), Eslot. reflexivity.
    + intros Hji. apply Hge. lia.
Qed.

(** X8: after [flush] every cache is empty.  For every environment, a call
    of [flush] that returns has returned OK, and with [comm_size] the size
    of the team it was told: the cache of every target below [comm_size] is
    empty ([pos = 0]) and keeps its buffer, a target without a cache is
    still without one, and the capacity of the queue is as it was. *)
Theorem flush_empties_caches {Env} (h : handler Env) fuel amsgq s :
  let res := run fuel h (dart_amsg_sopnop_flush_buffer amsgq) s in
  wt_trace (trace_of res) = true ->
  forall r a', outcome_of res = Done (r, a') ->
  r = DART_OK /\
  queue_size a' = queue_size amsgq /\
  exists comm_size rest,
    trace_of res =
      Obs (mutex_lock send_mutex) tt :: Obs MPI_Comm_size comm_size :: rest /\
    forall target, 0 <= target < comm_size ->
      cache_slot a' target = option_map emptied (cache_slot amsgq target).
Proof.
  intros res Hwt r a' Hr. subst res.
  destruct (run fuel h (dart_amsg_sopnop_flush_buffer amsgq) s)
    as [[tr o] s'] eqn:E.
  unfold outcome_of, trace_of in *. cbn [fst snd] in *. subst o.
  unfold dart_amsg_sopnop_flush_buffer, flush_buffer_with in E.
  do 2 run_step E.
  cbn [wt_trace forallb wt_entry] in Hwt.
  rewrite !andb_true_iff in Hwt. destruct Hwt as (_ & Hcs & _).
  unfold is_int32 in Hcs. apply andb_true_iff in Hcs.
  rewrite !Z.leb_le in Hcs.
  run_bind E tr1 ra s3 tr2 Hloop.
  destruct (Z_lt_le_dec x0 0) as [Hneg|Hpos].
  - (* an empty team: the loop is left at once *)
    apply run_iter_inv in Hloop; [|discriminate].
    destruct Hloop as [(tr3 & lr & s4 & tr4 & Hb & -> & Hlr)|[Hc _]];
      [|discriminate].
    unfold flush_target in Hb.
    replace (0 <? x0) with false in Hb by (symmetry; apply Z.ltb_ge; lia).
    cbn [negb] in Hb. run_done Hb.
    destruct Hlr as (Hd & _ & _). inversion Hd; subst. cbn [fst snd] in E.
    run_step E. run_done E. unit_answers.
    split; [reflexivity|]. split; [reflexivity|].
    eexists x0, _. split; [reflexivity|]. intros target Ht. lia.
  - destruct (flush_loop_inv h x0 amsgq ltac:(lia) _ 0 amsgq _ _ _ _
                ltac:(lia) ltac:(intros j Hj; split; [lia|reflexivity]) Hloop)
      as (Hnone & Hq & Hfin).
    rewrite Hnone in E. run_step E. run_done E. unit_answers.
    split; [reflexivity|]. split; [exact Hq|].
    eexists x0, _. split; [reflexivity|].
    intros target Ht. destruct (Hfin target ltac:(lia)) as [Hlt _].
    apply Hlt. lia.
Qed.

Lemma flush_empties_caches_witness :
  let res :=
    run 60 (mpi 1) (dart_amsg_sopnop_flush_buffer amsgq_with_batch)
      example_world in
  let a' := handle_of res amsgq_with_batch in
  option_map pos (cache_slot amsgq_with_batch 0) = Some 36 /\
  option_map pos (cache_slot a' 0) = Some 0 /\
  tailpos_of (window_at (state_of res) 0) 0 = 36 /\
  DART_OK = DART_OK /\
  queue_size a' = queue_size amsgq_with_batch /\
  exists comm_size rest,
    trace_of res =
      Obs (mutex_lock send_mutex) tt :: Obs MPI_Comm_size comm_size :: rest /\
    forall target, 0 <= target < comm_size ->
      cache_slot a' target
      = option_map emptied (cache_slot amsgq_with_batch target).
Proof.
  intros res a'. split; [vm_compute; reflexivity|].
  split; [vm_compute; reflexivity|].
  split; [vm_compute; reflexivity|].
  apply (flush_empties_caches (mpi 1) 60 amsgq_with_batch example_world).
  - vm_compute. reflexivity.
  - vm_compute. reflexivity.
Defined.

(** ** A batch larger than the queue *)

Lemma drain_cache_oversized {Env} (h : handler Env) on_error target cache :
  0 <= pos cache <= INT64_MAX ->
  forall f amsgq s tr r s',
  0 <= queue_size amsgq < pos cache ->
  run f h
    (drain_cache dart_amsg_sopnop_sendbuf amsg_sopnop_process_internal
       on_error target cache amsgq) s = (tr, Done r, s') ->
  wt_trace tr = true -> False.
Proof.
  intros Hpos. induction f as [f IH] using lt_wf_ind.
  intros amsgq s tr r s' Hq H Hwt. unfold drain_cache in H.
  apply run_iter_inv in H; [|discriminate].
  destruct H as [(tr1 & lr & s1 & tr2 & Hb & -> & Hlr)|[Hc _]]; [|discriminate].
  run_bind Hb tr0 ret s0 tr3 Hsb.
  assert (Hn : to_u64 (pos cache) = pos cache)
    by (unfold to_u64, INT64_MAX in *; apply Z.mod_small; lia).
  rewrite Hn in Hsb.
  apply sendbuf_run_inv in Hsb. destruct Hsb as (q & off & Hq01 & -> & ->).
  rewrite !wt_trace_app in Hwt. rewrite !andb_true_iff in Hwt.
  destruct Hwt as [[[Hwr _] Hw3] Hw2].
  assert (Hoff : INT64_MIN <= off <= INT64_MAX).
  { cbn in Hwr. rewrite !andb_true_iff in Hwr. apply is_int64_spec. tauto. }
  destruct (reservation_fits (queue_size amsgq) (wrap64 (pos cache)) off)
    eqn:Efit.
  { apply reservation_fits_spec in Efit; [lia|exact Hpos|exact Hoff]. }
  cbn [dart_ret_eqb negb] in Hb.
  run_bind Hb tr4 ra s4 tr5 Hp. run_done Hb.
  destruct ra as [r1 a1]. apply process_internal_frame in Hp.
  destruct Hp as [Hq1 _].
  destruct Hlr as (f' & Hf' & Hl). cbn [snd] in Hl.
  eapply (IH f' Hf' a1); [rewrite Hq1; exact Hq|exact Hl|exact Hw2].
Qed.

(** X9: a batch that is larger than a sub-queue is never sent.  [bsend]
    sends the cache of its target before it adds a message that does not
    fit into the cache, and it sends the whole cache at once, again and
    again until [send_buffer] returns OK.  For every environment: if the
    cache holds more bytes than one sub-queue of the target can take
    ([queue_size < pos]), a call of [bsend] that has to send the cache first
    does not return. *)
Theorem bsend_oversized_batch_never_returns {Env} (h : handler Env) fuel
    target amsgq fn data data_size cache s :
  cache_slot amsgq target = Some cache ->
  MSGCACHE_SIZE < to_u64 (pos cache + sizeof_header + data_size) ->
  0 <= queue_size amsgq < pos cache -> pos cache <= INT32_MAX ->
  let res :=
    run fuel h (dart_amsg_sopnop_bsend target amsgq fn data data_size) s in
  wt_trace (trace_of res) = true ->
  forall r, outcome_of res <> Done r.
Proof.
  intros Hslot Hfull Hq Hp res Hwt r Hr. subst res.
  destruct (run fuel h (dart_amsg_sopnop_bsend target amsgq fn data data_size) s)
    as [[tr o] s'] eqn:E.
  unfold outcome_of, trace_of in *. cbn [fst snd] in *. subst o.
  unfold dart_amsg_sopnop_bsend, bsend_with in E. rewrite Hslot in E.
  rewrite run_bind_ret in E. run_step E.
  replace (to_u64 (pos cache + sizeof_header + data_size) >? MSGCACHE_SIZE)
    with true in E by (symmetry; apply Z.gtb_lt; exact Hfull).
  run_bind E tr1 rc s1 tr2 Hrc. run_bind Hrc tr3 ra s3 tr4 Hd.
  cbn [wt_trace forallb] in Hwt. rewrite !forallb_app in Hwt.
  rewrite !andb_true_iff in Hwt. destruct Hwt as (_ & (Hw3 & _) & _).
  eapply (drain_cache_oversized h _ target cache); [| |exact Hd|exact Hw3].
  - unfold INT32_MAX, INT64_MAX in *. lia.
  - exact Hq.
Qed.

Lemma bsend_oversized_batch_never_returns_witness :
  let res :=
    run 300 (mpi 1)
      (dart_amsg_sopnop_bsend 0 amsgq_oversized_batch 7 (bytes_from 1 4000)
         4000)
      example_world in
  outcome_of res = OutOfFuel /\
  invoked (state_of res) = [] /\
  tailpos_of (window_at (state_of res) 0) 0 = 0 /\
  forall r, outcome_of res <> Done r.
Proof.
  intros res. split; [vm_compute; reflexivity|].
  split; [vm_compute; reflexivity|].
  split; [vm_compute; reflexivity|].
  apply (bsend_oversized_batch_never_returns (mpi 1) 300 0
           amsgq_oversized_batch 7 (bytes_from 1 4000) 4000
           {| pos := 200; buffer := repeat 0 (Z.to_nat MSGCACHE_SIZE) |}
           example_world).
  - vm_compute. reflexivity.
  - vm_compute. reflexivity.
  - vm_compute. split; [discriminate|reflexivity].
  - vm_compute. discriminate.
  - vm_compute. reflexivity.
Defined.

Lemma flush_loop_oversized {Env} (h : handler Env) comm_size target cache :
  0 <= pos cache <= INT64_MAX ->
  0 <= target < comm_size -> comm_size <= INT32_MAX ->
  forall f i a s tr ra s',
  0 <= i <= target ->
  cache_slot a target = Some cache ->
  0 <= queue_size a < pos cache ->
  run f h
    (ITree.iter
       (flush_target dart_amsg_sopnop_sendbuf amsg_sopnop_process_internal
          comm_size) (i, a)) s = (tr, Done ra, s') ->
  wt_trace tr = true -> False.
Proof.
  intros Hpos Ht Hcs. induction f as [f IH] using lt_wf_ind.
  intros i a s tr ra s' Hi Hslot Hq H Hwt.
  apply run_iter_inv in H; [|discriminate].
  destruct H as [(tr1 & lr & s1 & tr2 & Hb & -> & Hlr)|[Hc _]]; [|discriminate].
  rewrite wt_trace_app in Hwt. apply andb_true_iff in Hwt.
  destruct Hwt as [Hw1 Hw2].
  unfold flush_target in Hb.
  replace (i <? comm_size) with true in Hb by (symmetry; apply Z.ltb_lt; lia).
  cbn [negb] in Hb.
  assert (Hw : wrap32 (i + 1) = i + 1)
    by (apply wrap32_id; unfold INT32_MAX in *; lia).
  destruct (Z.eq_dec i target) as [->|Hne].
  - rewrite Hslot in Hb. run_step Hb.
    replace (pos cache =? 0) with false in Hb
      by (symmetry; apply Z.eqb_neq; lia).
    run_bind Hb tr3 rd s3 tr4 Hd.
    cbn [wt_trace forallb] in Hw1. rewrite forallb_app in Hw1.
    rewrite !andb_true_iff in Hw1. destruct Hw1 as (_ & Hw3 & _).
    eapply (drain_cache_oversized h _ target cache); eauto.
  - destruct (cache_slot a i) as [c|] eqn:Eslot.
    + run_step Hb. destruct (pos c =? 0).
      * run_step Hb. run_done Hb. rewrite Hw in Hlr.
        destruct Hlr as (f' & Hf' & Hl).
        eapply (IH f' Hf' (i + 1) a); eauto. lia.
      * run_bind Hb tr3 rd s3 tr4 Hd.
        apply drain_cache_frame in Hd. destruct Hd as (Hfst & Hq' & Hc).
        rewrite Hfst in Hb. run_step Hb. run_done Hb. rewrite Hw in Hlr.
        destruct Hlr as (f' & Hf' & Hl).
        eapply (IH f' Hf' (i + 1)); [| | |exact Hl|exact Hw2]; [lia| |].
        -- rewrite cache_slot_set_other by lia.
           rewrite (cache_slot_frame _ _ _ Hc). exact Hslot.
        -- cbn [queue_size set_cache_slot set_message_cache].
           rewrite Hq'. exact Hq.
    + run_done Hb. rewrite Hw in Hlr.
      destruct Hlr as (f' & Hf' & Hl).
      eapply (IH f' Hf' (i + 1) a); eauto. lia.
Qed.

(** X10: [flush] does not return either while a cache holds more than a
    sub-queue can take.  For every environment: if the cache of a target
    inside the team (as the environment reports its size) holds more bytes
    than the capacity of one sub-queue, a call of [flush] does not return. *)
Theorem flush_oversized_batch_never_returns {Env} (h : handler Env) fuel
    target amsgq cache s :
  cache_slot amsgq target = Some cache ->
  0 <= queue_size amsgq < pos cache -> pos cache <= INT32_MAX ->
  let res := run fuel h (dart_amsg_sopnop_flush_buffer amsgq) s in
  wt_trace (trace_of res) = true ->
  forall comm_size,
  team_size_of (trace_of res) = Some comm_size -> 0 <= target < comm_size ->
  forall r, outcome_of res <> Done r.
Proof.
  intros Hslot Hq Hp res Hwt comm_size Hts Ht r Hr. subst res.
  destruct (run fuel h (dart_amsg_sopnop_flush_buffer amsgq) s)
    as [[tr o] s'] eqn:E.
  unfold outcome_of, trace_of in *. cbn [fst snd] in *. subst o.
  unfold dart_amsg_sopnop_flush_buffer, flush_buffer_with in E.
  do 2 run_step E. unit_answers.
  cbn in Hts. injection Hts as ->.
  cbn [wt_trace forallb wt_entry] in Hwt.
  rewrite !andb_true_iff in Hwt. destruct Hwt as (_ & Hcs & Hw).
  unfold is_int32 in Hcs. apply andb_true_iff in Hcs.
  rewrite !Z.leb_le in Hcs.
  run_bind E tr1 ra s3 tr2 Hloop.
  change (forallb wt_entry (tr1 ++ tr2) = true)
    with (wt_trace (tr1 ++ tr2) = true) in Hw.
  rewrite wt_trace_app in Hw. apply andb_true_iff in Hw.
  destruct Hw as [Hw1 _].
  eapply (flush_loop_oversized h comm_size target cache);
    [| | | | | |exact Hloop|exact Hw1];
    try lia; try assumption.
  unfold INT32_MAX, INT64_MAX in *. lia.
Qed.

Lemma flush_oversized_batch_never_returns_witness :
  let res :=
    run 300 (mpi 1) (dart_amsg_sopnop_flush_buffer amsgq_oversized_batch)
      example_world in
  outcome_of res = OutOfFuel /\
  invoked (state_of res) = [] /\
  tailpos_of (window_at (state_of res) 0) 0 = 0 /\
  forall r, outcome_of res <> Done r.
Proof.
  intros res. split; [vm_compute; reflexivity|].
  split; [vm_compute; reflexivity|].
  split; [vm_compute; reflexivity|].
  apply (flush_oversized_batch_never_returns (mpi 1) 300 0
           amsgq_oversized_batch
           {| pos := 200; buffer := repeat 0 (Z.to_nat MSGCACHE_SIZE) |}
           example_world) with (comm_size := 2).
  - vm_compute. reflexivity.
  - vm_compute. split; [discriminate|reflexivity].
  - vm_compute. discriminate.
  - vm_compute. reflexivity.
  - vm_compute. reflexivity.
  - lia.
Defined.

(** ** Messages sent through the cache *)

(** X11: messages sent with [bsend] arrive like messages sent with
    [try_send], once [flush] has been called.  On the model of the windows,
    for a unit [me] whose handle has no cache yet, a target whose queue is
    quiescent with [pending] in it, and a batch of messages that fits both
    into one cache ([MSGCACHE_SIZE] bytes) and behind [pending] into the
    sub-queue: the [bsend] calls all return OK and leave the world as it
    was (nothing is communicated); [flush] returns OK, empties the cache and
    leaves the batch in the queue of the target; and the next [process] of
    the target calls the handlers of the pending messages and then those of
    the batch, each once, in the order of the [bsend] calls, on the payloads
    that were handed to [bsend]. *)
Theorem cached_messages_arrive_in_order fuel me w target amsgq owner win q
    pending batch :
  (2 * length (windows w) + 6 * (length pending + length batch) + 50
   <= fuel)%nat ->
  0 <= queue_size amsgq -> 2 * queue_size amsgq + 40 <= INT64_MAX ->
  queue_size owner = queue_size amsgq ->
  Z.of_nat (length (windows w)) <= INT32_MAX ->
  window_of w target = Some win ->
  quiescent (queue_size amsgq) win q (packed pending) (prev_tailpos owner) ->
  target < Z.of_nat (length (message_cache amsgq)) ->
  no_caches amsgq = true ->
  forallb message_ok pending = true ->
  forallb message_ok batch = true ->
  forallb (fun m => msg_sender m =? me) batch = true ->
  batch <> [] ->
  Z.of_nat (length (packed batch)) <= MSGCACHE_SIZE ->
  Z.of_nat (length (packed pending)) + Z.of_nat (length (packed batch))
    <= queue_size amsgq ->
  is_held w (me, send_mutex) = false ->
  is_held w (me, cache_mutex target) = false ->
  is_held w (target, processing_mutex) = false ->
  exists a1 a2 w2 a3 w3,
    bsend_all fuel me target batch amsgq w = Some (a1, w) /\
    cached a1 target (packed batch) /\
    returns fuel (mpi me) (dart_amsg_sopnop_flush_buffer a1) w
      (DART_OK, a2) w2 /\
    cached a2 target [] /\
    invoked w2 = invoked w /\
    returns fuel (mpi target) (dart_amsg_sopnop_process owner) w2
      (DART_OK, a3) w3 /\
    map call_of (invoked w3)
    = map call_of (invoked w) ++ map (call_for target) (pending ++ batch).
Proof.
  intros Hfuel Hqs Hqs' Hqo Hn Hw Hquiet Htl Hnc Hpend Hbatch Hme Hne Hcsz
    Hfit Hs Hcm Hpm.
  pose proof (no_caches_spec amsgq Hnc) as Hnone.
  pose proof (window_of_Some_nonneg _ _ _ Hw) as Ht0.
  destruct (bsend_all_world fuel me w target batch amsgq []
              ltac:(lia) ltac:(lia))
    as (a1 & Hb & Hc1 & Hq1 & Hp1 & Hl1 & Ho1); auto.
  { unfold cached. rewrite Hnone. reflexivity. }
  cbn [app] in Hc1.
  pose proof (packed_nil_length batch Hne) as Hpos.
  unfold cached in Hc1.
  destruct (cache_slot a1 target) as [cache|] eqn:Eslot.
  2: { rewrite Hc1 in Hpos. cbn in Hpos. lia. }
  destruct Hc1 as (Hcp & Hcf & Hcl & Hcb).
  destruct (flush_world fuel me w target a1 cache win q (packed pending)
              (prev_tailpos owner))
    as (win' & Hflush & Hq'); rewrite ?Hq1; auto; try lia.
  { intros j Hj Hjt. rewrite Ho1 by assumption. apply Hnone. }
  { unfold INT32_MAX, MSGCACHE_SIZE in *. lia. }
  rewrite Hq1, Hcp, Nat2Z.id, Hcf, <- packed_app in Hq'.
  destruct (process_world fuel target (set_window w target win') owner win'
              q (pending ++ batch))
    as (w3 & a3 & win3 & Hproc & _ & _ & _ & _ & Hinv & _ & _);
    rewrite ?Hqo; auto; try lia.
  { rewrite length_app. lia. }
  { apply (window_of_set_window_same _ _ _ _ Hw). }
  { rewrite forallb_app, Hpend, Hbatch. reflexivity. }
  { rewrite packed_app, length_app. lia. }
  exists a1, (set_cache_slot a1 target (emptied cache)),
    (set_window w target win'), a3, w3.
  split; [exact Hb|].
  split. { unfold cached. rewrite Eslot. auto. }
  split; [exact Hflush|].
  split.
  { unfold cached. rewrite (cache_slot_set_same _ _ _ _ Eslot).
    cbn [emptied pos buffer length firstn Z.of_nat]. auto. }
  split; [reflexivity|].
  split; [exact Hproc|].
  rewrite Hinv, map_app, deliveries_calls. reflexivity.
Qed.

Lemma cached_messages_arrive_in_order_witness :
  match bsend_all 80 1 0 example_batch example_amsgq world_two_messages with
  | Some (a1, w1) =>
      match run 80 (mpi 1) (dart_amsg_sopnop_flush_buffer a1) w1 with
      | (_, Done _, w2) =>
          match run 80 (mpi 0) (dart_amsg_sopnop_process example_amsgq) w2
          with
          | (_, Done _, w3) => map call_of (invoked w3)
          | _ => []
          end
      | _ => []
      end
  | None => []
  end
  = [ (0, 7, bytes_from 1 16); (0, 8, bytes_from 21 3);
      (0, 9, bytes_from 31 4); (0, 10, []) ] /\
  exists a1 a2 w2 a3 w3,
    bsend_all 80 1 0 example_batch example_amsgq world_two_messages
    = Some (a1, world_two_messages) /\
    cached a1 0 (packed example_batch) /\
    returns 80 (mpi 1) (dart_amsg_sopnop_flush_buffer a1) world_two_messages
      (DART_OK, a2) w2 /\
    cached a2 0 [] /\
    invoked w2 = invoked world_two_messages /\
    returns 80 (mpi 0) (dart_amsg_sopnop_process example_amsgq) w2
      (DART_OK, a3) w3 /\
    map call_of (invoked w3)
    = map call_of (invoked world_two_messages)
      ++ map (call_for 0) (example_pending ++ example_batch).
Proof.
  split; [vm_compute; reflexivity|].
  apply (cached_messages_arrive_in_order 80 1 world_two_messages 0
           example_amsgq example_amsgq (window_at world_two_messages 0) 0
           example_pending example_batch).
  - vm_compute. lia.
  - vm_compute. discriminate.
  - vm_compute. discriminate.
  - reflexivity.
  - vm_compute. discriminate.
  - vm_compute. reflexivity.
  - repeat split; try (vm_compute; reflexivity). left. reflexivity.
  - vm_compute. reflexivity.
  - vm_compute. reflexivity.
  - vm_compute. reflexivity.
  - vm_compute. reflexivity.
  - vm_compute. reflexivity.
  - discriminate.
  - vm_compute. discriminate.
  - vm_compute. discriminate.
  - vm_compute. reflexivity.
  - vm_compute. reflexivity.
  - vm_compute. reflexivity.
Defined.

(** ** [bsend] while the cache has room *)

(** X12: [bsend] does not communicate while the cache has room.  For every
    environment: if the message (header and payload) fits behind the bytes
    that the cache of [target] holds, a call of [bsend] that returns has
    returned OK and its only events are mutex operations and the question
    for the caller's unit id: the creation of the cache under the send
    mutex if the target had none, then lock of the cache, [dart_myid],
    unlock of the cache.  No window is touched.  Afterwards the cache holds
    the header (handler, the unit id answered, payload size) and the
    payload at its former [pos], and [pos] has advanced by their size; the
    capacity of the queue and [prev_tailpos] are as they were. *)
Theorem bsend_with_room_only_caches {Env} (h : handler Env) fuel target
    amsgq f data data_size s :
  0 <= target < Z.of_nat (length (message_cache amsgq)) ->
  let cache := cache_or_new amsgq target in
  0 <= pos cache -> 0 <= data_size ->
  pos cache + sizeof_header + data_size <= MSGCACHE_SIZE ->
  let res :=
    run fuel h (dart_amsg_sopnop_bsend target amsgq f data data_size) s in
  forall r a', outcome_of res = Done (r, a') ->
  r = DART_OK /\
  exists me,
    trace_of res =
      bsend_alloc_obs amsgq target
      ++ [ Obs (mutex_lock (cache_mutex target)) tt;
           Obs dart_myid me;
           Obs (mutex_unlock (cache_mutex target)) tt ] /\
    cache_slot a' target =
      Some {| pos := pos cache + sizeof_header + data_size;
              buffer :=
                write_at (Z.to_nat (pos cache))
                  (encode_header
                     {| fn := f; remote := me; data_size := data_size |}
                   ++ firstn (Z.to_nat data_size) data)
                  (buffer cache) |} /\
    queue_size a' = queue_size amsgq /\
    prev_tailpos a' = prev_tailpos amsgq.
Proof.
  intros Ht cache Hpos Hds Hroom res r a' Hr. subst res.
  destruct (run fuel h (dart_amsg_sopnop_bsend target amsgq f data data_size) s)
    as [[tr o] s'] eqn:E.
  unfold outcome_of, trace_of in *. cbn [fst snd] in *. subst o.
  assert (Hu : to_u64 (pos cache + sizeof_header + data_size)
               = pos cache + sizeof_header + data_size).
  { unfold to_u64, MSGCACHE_SIZE, sizeof_header in *. apply Z.mod_small. lia. }
  assert (Hw32 : wrap32 (pos cache + sizeof_header + data_size)
                 = pos cache + sizeof_header + data_size).
  { apply wrap32_id. unfold INT32_MAX, MSGCACHE_SIZE, sizeof_header in *. lia. }
  assert (Hu32 : to_u32 data_size = data_size).
  { apply to_u32_small. unfold INT32_MAX, MSGCACHE_SIZE, sizeof_header in *. lia. }
  assert (Hgt : (pos cache + sizeof_header + data_size >? MSGCACHE_SIZE) = false)
    by (rewrite Z.gtb_ltb; apply Z.ltb_ge; lia).
  unfold dart_amsg_sopnop_bsend, bsend_with in E.
  unfold bsend_alloc_obs. subst cache. unfold cache_or_new in *.
  remember new_cache as nc eqn:Hnc in *.
  destruct (cache_slot amsgq target) as [c|] eqn:Eslot.
  - rewrite run_bind_ret in E. run_step E. rewrite Hu, Hgt in E.
    repeat run_step E. run_done E. unit_answers.
    split; [reflexivity|]. exists x0. split; [reflexivity|].
    rewrite ?Hu, ?Hw32, ?Hu32. rewrite (cache_slot_set_same _ _ _ _ Eslot).
    auto.
  - repeat run_step E. rewrite Hu, Hgt in E.
    repeat run_step E. run_done E. unit_answers.
    split; [reflexivity|].
    match goal with
    | |- exists me, Obs _ _ :: Obs _ _ :: Obs _ _ :: Obs _ _ :: Obs dart_myid ?y :: _ = _ /\ _ =>
        exists y
    end.
    split; [reflexivity|].
    rewrite ?Hu, ?Hw32, ?Hu32.
    rewrite cache_slot_set_valid.
    + auto.
    + cbn [message_cache set_cache_slot set_message_cache].
      rewrite list_set_length. exact Ht.
Qed.

Lemma bsend_with_room_only_caches_witness :
  let res :=
    run 10 (mpi 1)
      (dart_amsg_sopnop_bsend 0 amsgq_with_batch 11 (bytes_from 51 8) 8)
      world_two_messages in
  let a' := handle_of res amsgq_with_batch in
  pos (cache_or_new amsgq_with_batch 0) = 36 /\
  outcome_of res = Done (DART_OK, a') /\
  state_of res = world_two_messages /\
  DART_OK = DART_OK /\
  exists me,
    trace_of res =
      bsend_alloc_obs amsgq_with_batch 0
      ++ [ Obs (mutex_lock (cache_mutex 0)) tt;
           Obs dart_myid me;
           Obs (mutex_unlock (cache_mutex 0)) tt ] /\
    cache_slot a' 0 =
      Some {| pos := pos (cache_or_new amsgq_with_batch 0) + sizeof_header + 8;
              buffer :=
                write_at (Z.to_nat (pos (cache_or_new amsgq_with_batch 0)))
                  (encode_header {| fn := 11; remote := me; data_size := 8 |}
                   ++ firstn (Z.to_nat 8) (bytes_from 51 8))
                  (buffer (cache_or_new amsgq_with_batch 0)) |} /\
    queue_size a' = queue_size amsgq_with_batch /\
    prev_tailpos a' = prev_tailpos amsgq_with_batch.
Proof.
  intros res a'. split; [vm_compute; reflexivity|].
  split; [vm_compute; reflexivity|].
  split; [vm_compute; reflexivity|].
  apply (bsend_with_room_only_caches (mpi 1) 10 0 amsgq_with_batch 11
           (bytes_from 51 8) 8 world_two_messages).
  - vm_compute. split; [discriminate|reflexivity].
  - vm_compute. discriminate.
  - lia.
  - vm_compute. discriminate.
  - vm_compute. reflexivity.
Defined.
(** ** The blocking drain delivers what is pending *)

(** X13: [process_blocking] on a quiescent window.  On the model of the
    windows: if the handle of the caller has no caches, its active sub-queue
    holds the messages [msgs] back to back, the caller holds neither the
    sending nor the processing mutex, and the rest of the team is at the
    barrier, then [process_blocking] returns OK having called the handler of
    every message on its payload, once and in the order of the queue.
    Afterwards the window is quiescent and empty, the mutexes are as
    before, and the windows of the other units and the capacity and the
    caches of the handle are untouched. *)
Theorem process_blocking_delivers_pending fuel me w amsgq team win q msgs :
  (2 * length (windows w) + 6 * length msgs + 140 <= fuel)%nat ->
  0 <= queue_size amsgq -> 2 * queue_size amsgq + 40 <= INT64_MAX ->
  Z.of_nat (length (windows w)) <= INT32_MAX ->
  window_of w me = Some win ->
  quiescent (queue_size amsgq) win q (packed msgs) (prev_tailpos amsgq) ->
  forallb message_ok msgs = true ->
  Z.of_nat (length (packed msgs)) <= queue_size amsgq ->
  no_caches amsgq = true ->
  is_held w (me, send_mutex) = false ->
  is_held w (me, processing_mutex) = false ->
  team_at_barrier me w = true ->
  exists w' amsgq' win',
    returns fuel (mpi me) (dart_amsg_sopnop_process_blocking amsgq team) w
      (DART_OK, amsgq') w' /\
    map call_of (invoked w')
    = map call_of (invoked w) ++ map (call_for me) msgs /\
    window_of w' me = Some win' /\
    quiescent (queue_size amsgq) win'
      (match msgs with [] => q | _ => other_queue q end) []
      (prev_tailpos amsgq') /\
    queue_size amsgq' = queue_size amsgq /\
    message_cache amsgq' = message_cache amsgq /\
    held w' = held w /\
    forall u, u <> me -> window_of w' u = window_of w u.
Proof.
  intros Hfuel Hqs Hqs' Hn Hw Hquiet Hok Hlen Hnc Hs Hp Hteam.
  pose proof (no_caches_spec _ Hnc) as Hnone.
  pose proof (flush_no_caches_world (2 * length (windows w) + 6) me w amsgq
                (le_n _) Hn Hnone Hs) as Hflush.
  set (w1 := set_barriers w
               ((me, S (count_of (ibarrier_count w) me)) :: ibarrier_count w)
               (barrier_waiting w) (barrier_released w)).
  assert (Hw1 : window_of w1 me = Some win) by exact Hw.
  assert (Hp1 : is_held w1 (me, processing_mutex) = false) by exact Hp.
  destruct (process_internal_blocking_world (6 * length msgs + 60) me w1
              amsgq win q msgs (le_n _) Hqs Hqs' Hw1 Hquiet Hok Hlen Hp1)
    as (w2 & a2 & win2 & Hrun2 & Hw2 & Hq2 & Hqs2 & Hc2 & Hi2 & Hh2 & Hf2 & Hb2).
  assert (Hp2 : is_held w2 (me, processing_mutex) = false).
  { unfold is_held. rewrite Hh2. exact Hp. }
  rewrite <- Hqs2 in Hq2.
  assert (Hqs2a : 0 <= queue_size a2) by (rewrite Hqs2; exact Hqs).
  assert (Hqs2b : 2 * queue_size a2 + 40 <= INT64_MAX)
    by (rewrite Hqs2; exact Hqs').
  destruct (process_internal_blocking_world 60 me w2 a2 win2 _ []
              (le_n _) Hqs2a Hqs2b Hw2 Hq2 eq_refl
              ltac:(cbn; lia) Hp2)
    as (w3 & a3 & win3 & Hrun3 & Hw3 & Hq3 & Hqs3 & Hc3 & Hi3 & Hh3 & Hf3 & Hb3).
  destruct (mpi_barrier_at_barrier me w w3 Hteam)
    as (w4 & Hbar & Hwin4 & Hh4 & Hi4).
  { rewrite Hb3, Hb2. reflexivity. }
  exists w4, a3, win3.
  split; [|split; [|split; [|split; [|split; [|split; [|split]]]]]].
  - eapply returns_mono.
    { unfold dart_amsg_sopnop_process_blocking.
      eapply returns_bind; [exact Hflush|]. cbv beta. cbn [snd].
      eapply returns_trigger; [reflexivity|cbv beta].
      change (set_barriers w
                ((me, S (count_of (ibarrier_count w) me)) :: ibarrier_count w)
                (barrier_waiting w) (barrier_released w)) with w1.
      eapply returns_bind.
      { eapply returns_iter_leave. unfold poll_barrier.
        eapply returns_bind; [exact Hrun2|]. cbv beta. cbn [snd].
        eapply returns_trigger;
          [apply (mpi_test_at_barrier me w w2 Hteam); rewrite Hb2;
           reflexivity|cbv beta].
        cbn [negb]. apply (returns_ret _ 0%nat). }
      cbv beta.
      eapply returns_bind; [exact Hrun3|]. cbv beta. cbn [snd].
      eapply returns_trigger; [exact Hbar|cbv beta].
      apply (returns_ret _ 0%nat). }
    cbn [Nat.add length Nat.mul]. lia.
  - rewrite Hi4, Hi3, Hi2. cbn [deliveries]. rewrite app_nil_r.
    rewrite map_app, deliveries_calls. reflexivity.
  - unfold window_of in *. rewrite Hwin4. exact Hw3.
  - rewrite <- Hqs2. exact Hq3.
  - congruence.
  - congruence.
  - rewrite Hh4, Hh3, Hh2. reflexivity.
  - intros u Hu. unfold window_of at 1. rewrite Hwin4.
    change (window_of w3 u = window_of w u).
    rewrite (Hf3 u Hu), (Hf2 u Hu). reflexivity.
Qed.

Lemma process_blocking_delivers_pending_witness :
  map call_of
    (invoked
       (state_of
          (run 160 (mpi 0)
             (dart_amsg_sopnop_process_blocking example_amsgq 0)
             world_at_barrier)))
  = [ (0, 7, bytes_from 1 16); (0, 8, bytes_from 21 3) ] /\
  exists w' amsgq' win',
    returns 160 (mpi 0) (dart_amsg_sopnop_process_blocking example_amsgq 0)
      world_at_barrier (DART_OK, amsgq') w' /\
    map call_of (invoked w')
    = map call_of (invoked world_at_barrier)
      ++ map (call_for 0) example_pending /\
    window_of w' 0 = Some win' /\
    quiescent (queue_size example_amsgq) win' 1 [] (prev_tailpos amsgq') /\
    queue_size amsgq' = queue_size example_amsgq /\
    message_cache amsgq' = message_cache example_amsgq /\
    held w' = held world_at_barrier /\
    forall u, u <> 0 -> window_of w' u = window_of world_at_barrier u.
Proof.
  split; [vm_compute; reflexivity|].
  apply (process_blocking_delivers_pending 160 0 world_at_barrier
           example_amsgq 0 (window_at world_two_messages 0) 0
           example_pending).
  - vm_compute. lia.
  - vm_compute. discriminate.
  - vm_compute. discriminate.
  - vm_compute. discriminate.
  - vm_compute. reflexivity.
  - repeat split; try (vm_compute; reflexivity). left. reflexivity.
  - vm_compute. reflexivity.
  - vm_compute. discriminate.
  - vm_compute. reflexivity.
  - vm_compute. reflexivity.
  - vm_compute. reflexivity.
  - vm_compute. reflexivity.
Defined.
(** ** What a queue is opened for *)

(** X14: a queue opened for [msg_count] messages of [msg_size] bytes holds
    exactly that many.  [openq] sizes a sub-queue as
    [msg_count * (sizeof(header) + msg_size)] bytes and zeroes the window.
    On a freshly opened team, [msg_count] messages of [msg_size] payload
    bytes sent to one unit are all accepted; the queue is then full, so that
    one more message, whatever its size, is turned away with ERR_AGAIN; and
    a [process] of the target then calls the handlers of the accepted
    messages, once each and in order. *)
Theorem opened_queue_holds_msg_count_messages n msg_size msg_count target
    msgs extra fuel :
  let qs := openq_queue_size msg_size msg_count in
  0 <= msg_size -> 0 <= msg_count ->
  2 * (msg_count * (sizeof_header + msg_size)) + 40 <= INT64_MAX ->
  0 <= target < Z.of_nat n ->
  (Z.to_nat qs + 50 <= fuel)%nat ->
  Z.of_nat (length msgs) = msg_count ->
  (forall m, In m msgs -> payload_size m = msg_size) ->
  forallb message_ok (extra :: msgs) = true ->
  exists amsgq' w',
    run_ops fuel target (fresh_amsgq n qs)
      (map op_trysend msgs ++ [op_trysend extra; op_process])
      (fresh_amsgq n qs) (fresh_world n qs)
    = Some (map (fun _ => DART_OK) msgs ++ [DART_ERR_AGAIN; DART_OK],
            amsgq', w') /\
    map call_of (invoked w') = map (call_for target) msgs.
Proof.
  intros qs Hms Hmc Hbig Ht Hfuel Hlen Hsize Hok.
  assert (Hqs : qs = msg_count * (sizeof_header + msg_size)).
  { unfold qs, openq_queue_size, to_u64. apply Z.mod_small.
    unfold INT64_MAX, sizeof_header in *. nia. }
  assert (Hfull : Z.of_nat (length (packed msgs)) = qs).
  { rewrite (packed_uniform_length msg_size msgs Hsize), Hlen, Hqs.
    reflexivity. }
  assert (Hops : forallb queue_op_ok
                   (map op_trysend msgs ++ [op_trysend extra; op_process])
                 = true).
  { cbn [forallb] in Hok. apply andb_true_iff in Hok.
    destruct Hok as [He Hm]. rewrite forallb_app.
    cbn [forallb queue_op_ok]. rewrite He, andb_true_r.
    rewrite forallb_forall in Hm |- *. intros o Ho.
    apply in_map_iff in Ho. destruct Ho as (m & <- & Hin).
    apply Hm. exact Hin. }
  destruct (run_ops_fifo fuel target (fresh_amsgq n qs) qs
              (map op_trysend msgs ++ [op_trysend extra; op_process])
              (fresh_amsgq n qs) (fresh_world n qs)
              (fresh_window (openq_win_size qs)) 0 []
              ltac:(unfold sizeof_header in *; nia)
              ltac:(rewrite Hqs; exact Hbig) Hfuel eq_refl eq_refl
              (window_of_fresh_world n qs target Ht)
              (fresh_window_quiescent qs) eq_refl
              ltac:(unfold sizeof_header in *; cbn; nia) eq_refl Hops)
    as (a' & w' & Hrun & Hinv).
  rewrite (fifo_model_fill qs _ msgs []) in Hrun, Hinv
    by (cbn [app]; lia).
  cbn [app fifo_model fst snd] in Hrun, Hinv.
  replace (Z.of_nat (length (packed msgs)) + sizeof_header
           + payload_size extra <=? qs) with false in Hrun, Hinv
    by (symmetry; apply Z.leb_gt; unfold sizeof_header, payload_size; lia).
  cbn [fst snd] in Hrun, Hinv. rewrite app_nil_r in Hinv.
  exists a', w'. split; [exact Hrun|exact Hinv].
Qed.

Lemma opened_queue_holds_msg_count_messages_witness :
  exists amsgq' w',
    run_ops 200 0 (fresh_amsgq 2 (openq_queue_size 16 4))
      (map op_trysend example_full_load
       ++ [op_trysend {| msg_sender := 1; msg_fn := 30; msg_payload := [] |};
           op_process])
      (fresh_amsgq 2 (openq_queue_size 16 4))
      (fresh_world 2 (openq_queue_size 16 4))
    = Some (map (fun _ => DART_OK) example_full_load
            ++ [DART_ERR_AGAIN; DART_OK], amsgq', w') /\
    map call_of (invoked w') = map (call_for 0) example_full_load.
Proof.
  apply (opened_queue_holds_msg_count_messages 2 16 4 0 example_full_load
           {| msg_sender := 1; msg_fn := 30; msg_payload := [] |} 200).
  - lia.
  - lia.
  - vm_compute. discriminate.
  - vm_compute. split; [discriminate|reflexivity].
  - vm_compute. lia.
  - vm_compute. reflexivity.
  - intros m Hm. vm_compute in Hm.
    destruct Hm as [<- | [<- | [<- | [<- | []]]]]; reflexivity.
  - vm_compute. reflexivity.
Defined.
(** ** [bsend] stays inside the cache *)

(** X15: a message that fits into an empty cache never leaves the buffer of
    the cache.  For every environment: if the cache of [target] is in
    bounds (a buffer of [MSGCACHE_SIZE] bytes, [pos] inside it; a target
    without a cache gets a fresh one) and header and payload together are at
    most [MSGCACHE_SIZE] bytes, a call of [bsend] that returns has returned
    OK, the cache is in bounds again, its last bytes up to [pos] are the
    header (handler, caller's unit id, payload size) and the payload, and
    the caches of the other targets are as they were.  This holds on both
    paths, whether the message went behind the bytes of the cache or the
    cache had to be sent first. *)
Theorem bsend_stays_inside_cache {Env} (h : handler Env) fuel target amsgq
    f data data_size s :
  0 <= target < Z.of_nat (length (message_cache amsgq)) ->
  cache_in_bounds (cache_or_new amsgq target) ->
  0 <= data_size <= Z.of_nat (length data) ->
  sizeof_header + data_size <= MSGCACHE_SIZE ->
  let res :=
    run fuel h (dart_amsg_sopnop_bsend target amsgq f data data_size) s in
  forall r a', outcome_of res = Done (r, a') ->
  r = DART_OK /\
  exists c' me,
    cache_slot a' target = Some c' /\
    cache_in_bounds c' /\
    last_cached c' (sizeof_header + data_size)
    = encode_header {| fn := f; remote := me; data_size := data_size |}
      ++ firstn (Z.to_nat data_size) data /\
    forall j, 0 <= j -> j <> target -> cache_slot a' j = cache_slot amsgq j.
Proof.
  intros Ht Hin Hds Hfits res r a' Hr. subst res.
  destruct (run fuel h (dart_amsg_sopnop_bsend target amsgq f data data_size) s)
    as [[tr o] s'] eqn:E.
  unfold outcome_of, trace_of in *. cbn [fst snd] in *. subst o.
  unfold dart_amsg_sopnop_bsend, bsend_with in E.
  unfold cache_or_new in Hin.
  destruct (cache_slot amsgq target) as [c|] eqn:Eslot.
  - rewrite run_bind_ret in E. run_step E.
    destruct (to_u64 (pos c + sizeof_header + data_size) >? MSGCACHE_SIZE)
      eqn:Egt.
    + (* the cache goes out first *)
      run_bind E tr1 rc s1 tr2 Hrc. run_bind Hrc tr3 ra s3 tr4 Hd.
      pose proof (drain_cache_frame h _ _ _ _ _ _ _ _ _ Hd)
        as (Hfst & Hq & Hc).
      rewrite Hfst in Hrc. run_done Hrc.
      repeat run_step E. run_done E. unit_answers.
      set (c0 := {| pos := 0; buffer := buffer c |}) in *.
      assert (Hin0 : cache_in_bounds c0).
      { destruct Hin as [Hp Hl]. split; [|exact Hl].
        cbn [pos c0]. unfold MSGCACHE_SIZE. lia. }
      destruct (cache_after_copy c0 f x0 data data_size Hin0 Hds
                  ltac:(cbn [pos c0]; lia)) as (_ & Hin' & Hlast).
      split; [reflexivity|]. eexists _, x0.
      split; [|split; [exact Hin'|split; [exact Hlast|]]].
      * apply cache_slot_set_valid.
        cbn [message_cache set_cache_slot set_message_cache].
        rewrite list_set_length, Hc. exact Ht.
      * intros j Hj Hne.
        rewrite !cache_slot_set_other by lia.
        apply cache_slot_frame. exact Hc.
    + (* the message goes behind the bytes of the cache *)
      assert (Hroom : pos c + sizeof_header + data_size <= MSGCACHE_SIZE).
      { rewrite Z.gtb_ltb in Egt. apply Z.ltb_ge in Egt.
        unfold to_u64 in Egt. destruct Hin as [Hp _].
        rewrite Z.mod_small in Egt
          by (unfold MSGCACHE_SIZE, sizeof_header in *; lia).
        exact Egt. }
      repeat run_step E. run_done E. unit_answers.
      destruct (cache_after_copy c f x0 data data_size Hin Hds Hroom)
        as (_ & Hin' & Hlast).
      split; [reflexivity|]. eexists _, x0.
      split; [|split; [exact Hin'|split; [exact Hlast|]]].
      * apply (cache_slot_set_same _ _ _ _ Eslot).
      * intros j Hj Hne. apply cache_slot_set_other; lia.
  - remember new_cache as nc eqn:Hnc in *.
    assert (Hp0 : pos nc = 0) by (subst nc; reflexivity).
    repeat run_step E.
    assert (Hroom : pos nc + sizeof_header + data_size <= MSGCACHE_SIZE)
      by (rewrite Hp0; lia).
    replace (to_u64 (pos nc + sizeof_header + data_size) >? MSGCACHE_SIZE)
      with false in E.
    2:{ symmetry. rewrite Z.gtb_ltb. apply Z.ltb_ge. unfold to_u64.
        rewrite Z.mod_small
          by (unfold MSGCACHE_SIZE, sizeof_header in *; lia).
        exact Hroom. }
    repeat run_step E. run_done E. unit_answers.
    match goal with
    | H : _ = Answer ?y _ |- _ =>
        match type of H with context [dart_myid] => rename y into me end
    end.
    destruct (cache_after_copy new_cache f me data data_size Hin Hds Hroom)
      as (_ & Hin' & Hlast).
    split; [reflexivity|]. eexists _, me.
    split; [|split; [exact Hin'|split; [exact Hlast|]]].
    + apply cache_slot_set_valid.
      cbn [message_cache set_cache_slot set_message_cache].
      rewrite list_set_length. exact Ht.
    + intros j Hj Hne. rewrite !cache_slot_set_other by lia. reflexivity.
Qed.

Lemma bsend_stays_inside_cache_witness :
  let res :=
    run 10 (mpi 1)
      (dart_amsg_sopnop_bsend 0 amsgq_with_batch 11 (bytes_from 51 8) 8)
      world_two_messages in
  let a' := handle_of res amsgq_with_batch in
  outcome_of res = Done (DART_OK, a') /\
  option_map pos (cache_slot a' 0) = Some 60 /\
  DART_OK = DART_OK /\
  exists c' me,
    cache_slot a' 0 = Some c' /\
    cache_in_bounds c' /\
    last_cached c' (sizeof_header + 8)
    = encode_header {| fn := 11; remote := me; data_size := 8 |}
      ++ firstn (Z.to_nat 8) (bytes_from 51 8) /\
    forall j, 0 <= j -> j <> 0 ->
      cache_slot a' j = cache_slot amsgq_with_batch j.
Proof.
  intros res a'. split; [vm_compute; reflexivity|].
  split; [vm_compute; reflexivity|].
  apply (bsend_stays_inside_cache (mpi 1) 10 0 amsgq_with_batch 11
           (bytes_from 51 8) 8 world_two_messages).
  - vm_compute. split; [discriminate|reflexivity].
  - vm_compute. split; [split; discriminate|reflexivity].
  - vm_compute. split; discriminate.
  - vm_compute. discriminate.
  - vm_compute. reflexivity.
Defined.
